(** * nao: the generic persistence engine over a transactional key-value store

    A shallow embedding of [internal/data] (the [Service] engine with its
    [Create], [Update], [Delete], [GetByID], the raw bucket helpers of
    [main.go], and the Media, Person, MediaRelation and UserMedia services)
    and of the older per-entity functions of [pkg/data].

    Go's [int] is taken to be 64 bits wide.  The store (bbolt) is modelled by
    what the engine uses of it: named buckets holding byte keys and byte
    values, a per-bucket sequence counter, read-only and read-write
    transactions opened by [View] and [Update].  The database is open, its
    file operations do not fail, and calls run one after the other. *)

From Stdlib Require Import ZArith Lia.
From Stdlib Require Import Strings.Byte Strings.Ascii.
From stdpp Require Import gmap strings list fin_maps sorting pretty.

Local Open Scope Z_scope.

(** ** Go integers and byte slices *)

Definition int := Z.

Definition int_min : Z := - 2 ^ 63.
Definition int_max : Z := 2 ^ 63 - 1.

Definition is_int (z : Z) : Prop := int_min <= z <= int_max.

(** The conversion [uint64(v)] of a signed value. *)
Definition uint64 (v : Z) : Z := v mod 2 ^ 64.

(** The conversion [int(u)] of an unsigned 64-bit value, and signed
    arithmetic with its wrap-around. *)
Definition to_int (u : Z) : int := (u + 2 ^ 63) mod 2 ^ 64 - 2 ^ 63.

Definition int_add (a b : int) : int := to_int (a + b).

Definition bytes := list byte.

(** The conversion [byte(z)]: the low eight bits. *)
Definition byte_of_Z (z : Z) : byte :=
  default x00 (Byte.of_N (Z.to_N (Z.land z 255))).

(** [binary.BigEndian.PutUint64] on a fresh 8-byte slice. *)
Definition PutUint64 (v : Z) : bytes :=
  [ byte_of_Z (Z.shiftr v 56); byte_of_Z (Z.shiftr v 48);
    byte_of_Z (Z.shiftr v 40); byte_of_Z (Z.shiftr v 32);
    byte_of_Z (Z.shiftr v 24); byte_of_Z (Z.shiftr v 16);
    byte_of_Z (Z.shiftr v 8); byte_of_Z v ].

(** [itob] of [main.go]. *)
Definition itob (v : int) : bytes := PutUint64 (uint64 v).

(** Lexicographic order on byte slices ([bytes.Compare] is negative), the
    order in which the store keeps its keys. *)
Fixpoint bytes_lt (a b : bytes) : bool :=
  match a, b with
  | [], [] => false
  | [], _ :: _ => true
  | _ :: _, [] => false
  | x :: a', y :: b' =>
      if (Byte.to_N x <? Byte.to_N y)%N then true
      else if (Byte.to_N y <? Byte.to_N x)%N then false
      else bytes_lt a' b'
  end.

(** The number a byte slice denotes when read big-endian. *)
Fixpoint be_val (l : bytes) : Z :=
  match l with
  | [] => 0
  | x :: l' => Z.of_N (Byte.to_N x) * 256 ^ Z.of_nat (length l') + be_val l'
  end.

#[global] Instance byte_eq_dec : EqDecision byte := Byte.byte_eq_dec.
#[global] Instance byte_countable : Countable byte :=
  inj_countable Byte.to_N Byte.of_N Byte.of_to_N.

(** ** Errors, outcomes and the state monad

    Go's [error] values are strings; each message the code builds has a
    constructor here.  A call ends with a value, with an error, or in a
    panic (a nil pointer dereference). *)

Inductive error : Type :=
  | ErrBucketNil                      (* "bucket must not be nil" *)
  | ErrNotFound (ID : int)            (* "entity with id %d not found" *)
  | ErrModelNil                       (* "model must not be nil" *)
  | ErrModelType (name : string)      (* "model must be of <name> type" *)
  | ErrWatchStatusName (s : string)   (* "invalid watch status value '<s>'" *)
  | ErrWatchStatusValue               (* "Invalid watch status value" *)
  | ErrTxNotWritable                  (* bolt.ErrTxNotWritable *)
  | ErrKeyRequired                    (* bolt.ErrKeyRequired *)
  | ErrKeyTooLarge                    (* bolt.ErrKeyTooLarge *)
  | ErrValueTooLarge                  (* bolt.ErrValueTooLarge *)
  | ErrBucketNotFound                 (* bolt.ErrBucketNotFound *)
  | ErrLibrary (msg : string).        (* an error of json-iterator or of a helper outside these files *)

Inductive outcome (A : Type) : Type :=
  | Ok (a : A)
  | Err (e : error)
  | Panic.
Arguments Ok {A} a.
Arguments Err {A} e.
Arguments Panic {A}.

Definition is_Ok {A} (o : outcome A) : bool :=
  match o with Ok _ => true | _ => false end.

Definition bindO {A B} (o : outcome A) (k : A -> outcome B) : outcome B :=
  match o with
  | Ok a => k a
  | Err e => Err e
  | Panic => Panic
  end.

(** A computation over a state [S]; an error or a panic keeps the state
    reached so far. *)
Definition M (S A : Type) : Type := S -> outcome A * S.

Definition ret {S A} (a : A) : M S A := fun s => (Ok a, s).
Definition fail {S A} (e : error) : M S A := fun s => (Err e, s).
Definition panic {S A} : M S A := fun s => (Panic, s).
Definition lift {S A} (o : outcome A) : M S A := fun s => (o, s).

Definition bindM {S A B} (m : M S A) (k : A -> M S B) : M S B :=
  fun s =>
    match m s with
    | (Ok a, s') => k a s'
    | (Err e, s') => (Err e, s')
    | (Panic, s') => (Panic, s')
    end.

Notation "'let?' x := o 'in' k" := (bindO o (fun x => k))
  (at level 10, x pattern, o at level 100, k at level 200).
Notation "'let!' x := m 'in' k" := (bindM m (fun x => k))
  (at level 10, x pattern, m at level 100, k at level 200).

(** [if err != nil { return err }] *)
Definition check {S} (err : option error) : M S unit :=
  match err with
  | Some e => fail e
  | None => ret tt
  end.

(** A Go call returning [(value, error)] whose value is used only when the
    error is nil. *)
Definition checked {A} (r : A * option error) : outcome A :=
  match r with
  | (_, Some e) => Err e
  | (a, None) => Ok a
  end.

(** ** The store

    A bucket holds its key-value pairs and its sequence counter (a uint64).
    The database is the committed set of buckets; a transaction works on a
    copy of it, which [DB_Update] installs on commit and drops otherwise.
    Every transaction has a number, and the database keeps the trace of
    what was done in which transaction. *)

Record BucketData : Type := mkBucketData {
  kv : gmap bytes bytes;
  sequence : Z;
}.

Definition empty_bucket : BucketData := mkBucketData ∅ 0.

Inductive Event : Type :=
  | EvBegin (tx : nat) (writable : bool)
  | EvGet (tx : nat) (bucket : string) (key : bytes)
  | EvPut (tx : nat) (bucket : string) (key value : bytes)
  | EvDelete (tx : nat) (bucket : string) (key : bytes)
  | EvNextSequence (tx : nat) (bucket : string)
  | EvForEach (tx : nat) (bucket : string)
  | EvCommit (tx : nat)
  | EvRollback (tx : nat).

Definition tx_of (e : Event) : nat :=
  match e with
  | EvBegin tx _ | EvGet tx _ _ | EvPut tx _ _ _ | EvDelete tx _ _
  | EvNextSequence tx _ | EvForEach tx _ | EvCommit tx | EvRollback tx => tx
  end.

Definition is_get (e : Event) : bool :=
  match e with EvGet _ _ _ => true | _ => false end.

Definition is_put (e : Event) : bool :=
  match e with EvPut _ _ _ _ => true | _ => false end.

Definition is_next_sequence (e : Event) : bool :=
  match e with EvNextSequence _ _ => true | _ => false end.

Record DB : Type := mkDB {
  committed : gmap string BucketData;
  tx_count : nat;
  trace : list Event;
}.

Record Tx : Type := mkTx {
  tx_id : nat;
  tx_writable : bool;
  tx_root : gmap string BucketData;
}.

(** What the body of a transaction runs on: its transaction and the
    database it was opened on. *)
Record TxState : Type := mkTxState {
  cur : Tx;
  db : DB;
}.

(** A bucket handle ([*bolt.Bucket] in Go): the bucket's name inside its
    transaction; [None] is the nil pointer. *)
Abbreviation BucketHandle := string.

Definition MaxKeySize : Z := 32768.
Definition MaxValueSize : Z := 2 ^ 31 - 2.

Definition get_tx : M TxState Tx := fun st => (Ok (cur st), st).

Definition log (ev : nat -> Event) : M TxState unit :=
  fun st =>
    (Ok tt,
     mkTxState (cur st)
       (mkDB (committed (db st)) (tx_count (db st))
          (trace (db st) ++ [ev (tx_id (cur st))]))).

Definition set_bucket (name : string) (bd : BucketData) : M TxState unit :=
  fun st =>
    (Ok tt,
     mkTxState
       (mkTx (tx_id (cur st)) (tx_writable (cur st)) (<[name := bd]> (tx_root (cur st))))
       (db st)).

(** Calling a method on a bucket handle: a nil handle panics. *)
Definition with_bucket {A} (b : option BucketHandle)
    (f : string -> BucketData -> M TxState A) : M TxState A :=
  match b with
  | None => panic
  | Some name =>
      fun st =>
        match tx_root (cur st) !! name with
        | Some bd => f name bd st
        | None => (Panic, st)
        end
  end.

Definition require_writable : M TxState unit :=
  fun st => if tx_writable (cur st) then (Ok tt, st) else (Err ErrTxNotWritable, st).

(** [Tx.Bucket] *)
Definition tx_Bucket (tx : Tx) (name : string) : option BucketHandle :=
  match tx_root tx !! name with
  | Some _ => Some name
  | None => None
  end.

(** [Bucket.Get]: nil when the key is absent. *)
Definition bucket_Get (b : option BucketHandle) (key : bytes) : M TxState (option bytes) :=
  with_bucket b (fun name bd =>
    let! _ := log (fun t => EvGet t name key) in
    ret (kv bd !! key)).

(** [Bucket.Put] *)
Definition bucket_Put (b : option BucketHandle) (key value : bytes) : M TxState unit :=
  with_bucket b (fun name bd =>
    let! _ := require_writable in
    if decide (length key = 0%nat) then fail ErrKeyRequired
    else if decide (MaxKeySize < Z.of_nat (length key)) then fail ErrKeyTooLarge
    else if decide (MaxValueSize < Z.of_nat (length value)) then fail ErrValueTooLarge
    else
      let! _ := log (fun t => EvPut t name key value) in
      set_bucket name (mkBucketData (<[key := value]> (kv bd)) (sequence bd))).

(** [Bucket.Delete]: nothing happens when the key is absent. *)
Definition bucket_Delete (b : option BucketHandle) (key : bytes) : M TxState unit :=
  with_bucket b (fun name bd =>
    let! _ := require_writable in
    let! _ := log (fun t => EvDelete t name key) in
    set_bucket name (mkBucketData (delete key (kv bd)) (sequence bd))).

(** [Bucket.NextSequence]: increments the counter and returns it. *)
Definition bucket_NextSequence (b : option BucketHandle) : M TxState Z :=
  with_bucket b (fun name bd =>
    let! _ := require_writable in
    let! _ := log (fun t => EvNextSequence t name) in
    let s := (sequence bd + 1) mod 2 ^ 64 in
    let! _ := set_bucket name (mkBucketData (kv bd) s) in
    ret s).

Definition key_le (x y : bytes * bytes) : Prop := bytes_lt y.1 x.1 = false.

#[global] Instance key_le_dec x y : Decision (key_le x y).
Proof. unfold key_le. apply _. Defined.

(** The pairs of a bucket in key order. *)
Definition entries (bd : BucketData) : list (bytes * bytes) :=
  merge_sort key_le (map_to_list (kv bd)).

Fixpoint for_each {A} (fn : bytes -> bytes -> A -> outcome A)
    (l : list (bytes * bytes)) (acc : A) : outcome A :=
  match l with
  | [] => Ok acc
  | (k, v) :: l' => let? acc' := fn k v acc in for_each fn l' acc'
  end.

(** [Bucket.ForEach] with a callback that updates what it has captured;
    the first error stops the scan. *)
Definition bucket_ForEach {A} (b : option BucketHandle)
    (fn : bytes -> bytes -> A -> outcome A) (init : A) : M TxState A :=
  with_bucket b (fun name bd =>
    let! _ := log (fun t => EvForEach t name) in
    lift (for_each fn (entries bd) init)).

(** [Tx.CreateBucketIfNotExists] and [Tx.DeleteBucket] *)
Definition tx_CreateBucketIfNotExists (name : string) : M TxState unit :=
  fun st =>
    match tx_root (cur st) !! name with
    | Some _ => (Ok tt, st)
    | None => set_bucket name empty_bucket st
    end.

Definition tx_DeleteBucket (name : string) : M TxState unit :=
  fun st =>
    match tx_root (cur st) !! name with
    | Some _ =>
        (Ok tt,
         mkTxState
           (mkTx (tx_id (cur st)) (tx_writable (cur st)) (delete name (tx_root (cur st))))
           (db st))
    | None => (Err ErrBucketNotFound, st)
    end.

Definition begin (writable : bool) (d : DB) : TxState :=
  mkTxState (mkTx (tx_count d) writable (committed d))
    (mkDB (committed d) (S (tx_count d)) (trace d ++ [EvBegin (tx_count d) writable])).

Definition close (st : TxState) (root : gmap string BucketData) (ev : Event) : DB :=
  mkDB root (tx_count (db st)) (trace (db st) ++ [ev]).

(** [DB.View]: a read-only transaction, rolled back when the body is
    done. *)
Definition DB_View {A} (fn : M TxState A) : M DB A :=
  fun d =>
    let '(r, st) := fn (begin false d) in
    (r, close st (committed (db st)) (EvRollback (tx_id (cur st)))).

(** [DB.Update]: a read-write transaction, committed when the body
    returns no error and rolled back when it returns one or panics. *)
Definition DB_Update {A} (fn : M TxState A) : M DB A :=
  fun d =>
    let '(r, st) := fn (begin true d) in
    match r with
    | Ok a => (Ok a, close st (tx_root (cur st)) (EvCommit (tx_id (cur st))))
    | _ => (r, close st (committed (db st)) (EvRollback (tx_id (cur st))))
    end.

(** A call on the database handle made from inside a transaction body. *)
Definition on_db {A} (m : M DB A) : M TxState A :=
  fun st => let '(r, d) := m (db st) in (r, mkTxState (cur st) d).

(** ** The entities

    [time.Time] and [Info] are declared outside these files; the code only
    carries their values around and hands lists of [Info] to
    [infoListClean]. *)

Class Opaque : Type := {
  Time : Type;
  Info : Type;
}.

Definition Quarter := int.
Definition WatchStatus := int.

Definition Completed : WatchStatus := 0.
Definition Planning : WatchStatus := 1.
Definition Dropped : WatchStatus := 2.
Definition Hold : WatchStatus := 3.

Record Season : Type := mkSeason {
  Season_Quarter : option Quarter;
  Season_Year : option int;
}.

(** [internal/data]: MediaRelation *)
Record MediaRelation : Type := mkMediaRelation {
  MediaRelation_ID : int;
  MediaRelation_OwnerID : int;
  MediaRelation_RelatedID : int;
  MediaRelation_Relationship : string;
  MediaRelation_Version : int;
}.

(** [pkg/data]: MediaProducer *)
Record MediaProducer : Type := mkMediaProducer {
  MediaProducer_ID : int;
  MediaProducer_MediaID : int;
  MediaProducer_ProducerID : int;
  MediaProducer_Role : string;
  MediaProducer_Version : int;
}.

Section entities.
Context {O : Opaque}.

(** [internal/data]: Media.  The struct also embeds a [Model] interface
    value, which no code here reads or writes; it is left out. *)
Record Media : Type := mkMedia {
  Media_ID : int;
  Media_Titles : gmap string string;
  Media_Synopses : gmap string string;
  Media_Background : gmap string string;
  Media_StartDate : option Time;
  Media_EndDate : option Time;
  Media_SeasonPremiered : Season;
  Media_Type : option string;
  Media_Source : option string;
  Media_Version : int;
}.

(** [internal/data]: Person (the embedded [Model] is left out as for
    Media). *)
Record Person : Type := mkPerson {
  Person_ID : int;
  Person_Names : list Info;
  Person_Information : list Info;
  Person_Version : int;
}.

Record WatchedInstance : Type := mkWatchedInstance {
  WatchedInstance_Episodes : int;
  WatchedInstance_Ongoing : bool;
  WatchedInstance_StartDate : option Time;
  WatchedInstance_EndDate : option Time;
  WatchedInstance_Comments : list Info;
}.

(** [internal/data]: UserMedia *)
Record UserMedia : Type := mkUserMedia {
  UserMedia_ID : int;
  UserMedia_UserID : int;
  UserMedia_MediaID : int;
  UserMedia_Status : option WatchStatus;
  UserMedia_Priority : option int;
  UserMedia_Score : option int;
  UserMedia_Recommended : option int;
  UserMedia_WatchedInstances : list WatchedInstance;
  UserMedia_Comments : list Info;
  UserMedia_UserMediaListIDs : list int;
  UserMedia_Version : int;
}.

(** [pkg/data]: Episode; it has no Version field. *)
Record Episode : Type := mkEpisode {
  Episode_ID : int;
  Episode_MediaID : int;
  Episode_Titles : list Info;
  Episode_Date : option Time;
  Episode_Synopses : list Info;
  Episode_Duration : Z;
  Episode_Filler : bool;
  Episode_Recap : bool;
}.

(** The values a [Model] interface can hold: a pointer to one of the
    structs implementing [Iden] (taken to be a valid pointer), or nil. *)
Inductive Entity : Type :=
  | EMedia (md : Media)
  | EPerson (p : Person)
  | EMediaRelation (mr : MediaRelation)
  | EUserMedia (um : UserMedia).

Definition Model : Type := option Entity.

Definition Entity_Iden (e : Entity) : int :=
  match e with
  | EMedia md => Media_ID md
  | EPerson p => Person_ID p
  | EMediaRelation mr => MediaRelation_ID mr
  | EUserMedia um => UserMedia_ID um
  end.

Definition Entity_Version (e : Entity) : int :=
  match e with
  | EMedia md => Media_Version md
  | EPerson p => Person_Version p
  | EMediaRelation mr => MediaRelation_Version mr
  | EUserMedia um => UserMedia_Version um
  end.

(** [m.Iden()]; on a nil interface the call panics. *)
Definition Iden (m : Model) : outcome int :=
  match m with
  | Some e => Ok (Entity_Iden e)
  | None => Panic
  end.

End entities.

(** ** What the code calls outside these files

    [json.Marshal] and [json.Unmarshal] of json-iterator, per Go type: both
    return a value and an error, and [Unmarshal] fills a zero value of the
    target type.  [infoListClean] cleans a list of [Info] in place and
    returns an error. *)

Class Json (A : Type) : Type := {
  json_Marshal : A -> bytes * option error;
  json_Unmarshal : bytes -> A * option error;
}.

Class Library {O : Opaque} : Type := {
  infoListClean : list Info -> list Info * option error;
  json_Media :: Json Media;
  json_Person :: Json Person;
  json_MediaRelation :: Json MediaRelation;
  json_UserMedia :: Json UserMedia;
  json_Episode :: Json Episode;
  json_MediaProducer :: Json MediaProducer;
  json_string :: Json string;
}.

(** [strings.Trim(s, " ")] *)
Definition is_space (c : Ascii.ascii) : bool := Ascii.eqb c (Ascii.ascii_of_nat 32).

Fixpoint trim_left (s : string) : string :=
  match s with
  | String c s' => if is_space c then trim_left s' else s
  | EmptyString => EmptyString
  end.

Fixpoint trim_right (s : string) : string :=
  match s with
  | String c s' =>
      match trim_right s' with
      | EmptyString => if is_space c then EmptyString else String c EmptyString
      | r => String c r
      end
  | EmptyString => EmptyString
  end.

Definition strings_Trim_space (s : string) : string := trim_right (trim_left s).

(** ** [internal/data/main.go]: bucket names and raw access *)

Definition MediaBucket : string := "Media".
Definition PersonBucket : string := "Person".
Definition MediaRelationBucket : string := "MediaRelation".
Definition UserMediaBucket : string := "UserMedia".

(** Modelled from the spec: the constants [ProducerBucket], [GenreBucket],
    [EpisodeBucket], [CharacterBucket], [UserBucket], [MediaProducerBucket],
    [MediaGenreBucket], [MediaCharacterBucket], [JWTBucket] and
    [UserMediaListBucket] are declared in other files of the package; there
    is one bucket per entity type, named by a fixed string constant, here
    the entity's name as for the four constants above. *)
Definition ProducerBucket : string := "Producer".
Definition GenreBucket : string := "Genre".
Definition EpisodeBucket : string := "Episode".
Definition CharacterBucket : string := "Character".
Definition UserBucket : string := "User".
Definition MediaProducerBucket : string := "MediaProducer".
Definition MediaGenreBucket : string := "MediaGenre".
Definition MediaCharacterBucket : string := "MediaCharacter".
Definition JWTBucket : string := "JWT".
Definition UserMediaListBucket : string := "UserMediaList".

Definition Buckets : list string :=
  [ MediaBucket; ProducerBucket; GenreBucket;
    EpisodeBucket; CharacterBucket; PersonBucket;
    UserBucket; MediaProducerBucket; MediaRelationBucket;
    MediaGenreBucket; MediaCharacterBucket; UserMediaBucket;
    JWTBucket ].

Fixpoint for_names (f : string -> M TxState unit) (names : list string) : M TxState unit :=
  match names with
  | [] => ret tt
  | name :: rest => let! _ := f name in for_names f rest
  end.

(** [ConnectDatabase] with [create] set, on an open database. *)
Definition ConnectDatabase_create : M DB unit :=
  DB_Update (for_names tx_CreateBucketIfNotExists Buckets).

Definition ClearDatabase : M DB unit :=
  DB_Update (for_names tx_DeleteBucket Buckets).

(** [Bucket]: the named result [err] is never assigned. *)
Definition Bucket (name : string) (tx : Tx) : option BucketHandle * option error :=
  (tx_Bucket tx name, None).

Definition get (ID : int) (bucket : option BucketHandle) : M TxState bytes :=
  match bucket with
  | None => fail ErrBucketNil
  | Some _ =>
      let! v := bucket_Get bucket (itob ID) in
      match v with
      | None => fail (ErrNotFound ID)
      | Some v => ret v
      end
  end.

Definition GetRawByID (ID : int) (bucketName : string) : M DB bytes :=
  DB_View (
    let! tx := get_tx in
    let '(b, err) := Bucket bucketName tx in
    let! _ := check err in
    get ID b).

Definition GetRawAll (bucketName : string) : M DB (list bytes) :=
  DB_View (
    let! tx := get_tx in
    let '(b, err) := Bucket bucketName tx in
    let! _ := check err in
    bucket_ForEach b (fun k v list => Ok (list ++ [v])) []).

(** ** The [Service] interface and the generic engine

    The hooks that change their argument in place return the changed
    value.  [Database()] is the one database the state monad carries. *)

Section engine.
Context {O : Opaque} {L : Library}.

Record Service : Type := mkService {
  Service_Bucket : string;
  Clean : Model -> outcome Model;
  Validate : Model -> M DB unit;
  Initialize : Model -> int -> outcome Model;
  PersistOldProperties : Model -> Model -> outcome Model;
  Marshal : Model -> outcome bytes;
  Unmarshal : bytes -> outcome Model;
}.

(** [Create] persists the given Model.  [Create_body] is the function it
    hands to the write transaction. *)
Definition Create_body (ser : Service) (m : Model) : M TxState Model :=
  let! tx := get_tx in
  let '(b, err) := Bucket (Service_Bucket ser) tx in
  let! _ := check err in
  let! id := bucket_NextSequence b in
  let! m := lift (Initialize ser m (to_int id)) in
  let! buf := lift (Marshal ser m) in
  let! k := lift (Iden m) in
  let! _ := bucket_Put b (itob k) buf in
  ret m.

Definition Create (m : Model) (ser : Service) : M DB Model :=
  let! m := lift (Clean ser m) in
  let! _ := Validate ser m in
  DB_Update (Create_body ser m).

(** [Update] replaces the value of the model with the given ID.  The old
    value is read through [GetRawByID], that is in a read-only transaction
    of its own, opened from inside the body of the write transaction. *)
Definition Update_body (ser : Service) (m : Model) : M TxState Model :=
  let! k := lift (Iden m) in
  let! v := on_db (GetRawByID k (Service_Bucket ser)) in
  let! o := lift (Unmarshal ser v) in
  let! tx := get_tx in
  let '(b, err) := Bucket (Service_Bucket ser) tx in
  let! _ := check err in
  let! m := lift (PersistOldProperties ser m o) in
  let! buf := lift (Marshal ser m) in
  let! k := lift (Iden m) in
  let! _ := bucket_Put b (itob k) buf in
  ret m.

Definition Update (m : Model) (ser : Service) : M DB Model :=
  let! m := lift (Clean ser m) in
  let! _ := Validate ser m in
  DB_Update (Update_body ser m).

(** [Delete] deletes the model with the given ID. *)
Definition Delete (id : int) (ser : Service) : M DB unit :=
  DB_Update (
    let! tx := get_tx in
    let '(b, err) := Bucket (Service_Bucket ser) tx in
    let! _ := check err in
    bucket_Delete b (itob id)).

Fixpoint filter_models (ser : Service) (keep : Model -> bool)
    (vlist : list bytes) (kept : list Model) : outcome (list Model) :=
  match vlist with
  | [] => Ok kept
  | v :: rest =>
      let? m := Unmarshal ser v in
      filter_models ser keep rest (if keep m then kept ++ [m] else kept)
  end.

Definition GetFilter (ser : Service) (keep : Model -> bool) : M DB (list Model) :=
  let! vlist := GetRawAll (Service_Bucket ser) in
  lift (filter_models ser keep vlist []).

Definition GetAll (ser : Service) : M DB (list Model) :=
  GetFilter ser (fun _ => true).

Definition GetByID (id : int) (ser : Service) : M DB Model :=
  let! v := GetRawByID id (Service_Bucket ser) in
  lift (Unmarshal ser v).

(** ** [internal/data/main.go]: MediaService *)

Definition MediaService_AssertType (m : Model) : outcome Media :=
  match m with
  | None => Err ErrModelNil
  | Some (EMedia md) => Ok md
  | Some _ => Err (ErrModelType "Media")
  end.

Definition Season_Clean (s : Season) : Season :=
  match Season_Quarter s with
  | Some q => if decide (4 < q) then mkSeason (Some 0) (Season_Year s) else s
  | None => s
  end.

Definition MediaService_Clean (m : Model) : outcome Model :=
  let? e := MediaService_AssertType m in
  Ok (Some (EMedia
    (mkMedia (Media_ID e) (Media_Titles e) (Media_Synopses e) (Media_Background e)
       (Media_StartDate e) (Media_EndDate e)
       (Season_Clean (Media_SeasonPremiered e))
       (strings_Trim_space <$> Media_Type e)
       (strings_Trim_space <$> Media_Source e)
       (Media_Version e)))).

Definition MediaService_Validate (m : Model) : M DB unit :=
  lift (let? _ := MediaService_AssertType m in Ok tt).

Definition MediaService_Initialize (m : Model) (id : int) : outcome Model :=
  let? md := MediaService_AssertType m in
  Ok (Some (EMedia
    (mkMedia id (Media_Titles md) (Media_Synopses md) (Media_Background md)
       (Media_StartDate md) (Media_EndDate md) (Media_SeasonPremiered md)
       (Media_Type md) (Media_Source md) 0))).

Definition MediaService_PersistOldProperties (n o : Model) : outcome Model :=
  let? nm := MediaService_AssertType n in
  let? om := MediaService_AssertType o in
  Ok (Some (EMedia
    (mkMedia (Media_ID nm) (Media_Titles nm) (Media_Synopses nm) (Media_Background nm)
       (Media_StartDate nm) (Media_EndDate nm) (Media_SeasonPremiered nm)
       (Media_Type nm) (Media_Source nm) (int_add (Media_Version om) 1)))).

Definition MediaService_Marshal (m : Model) : outcome bytes :=
  let? md := MediaService_AssertType m in
  checked (json_Marshal md).

Definition MediaService_Unmarshal (buf : bytes) : outcome Model :=
  let? md := checked (json_Unmarshal (A := Media) buf) in
  Ok (Some (EMedia md)).

Definition MediaService : Service :=
  mkService MediaBucket MediaService_Clean MediaService_Validate
    MediaService_Initialize MediaService_PersistOldProperties
    MediaService_Marshal MediaService_Unmarshal.

(** ** [internal/data/person.go]: PersonService *)

Definition PersonService_assertType (m : Model) : outcome Person :=
  match m with
  | None => Err ErrModelNil
  | Some (EPerson p) => Ok p
  | Some _ => Err (ErrModelType "Person")
  end.

Definition PersonService_Clean (m : Model) : outcome Model :=
  let? e := PersonService_assertType m in
  let? names := checked (infoListClean (Person_Names e)) in
  let? information := checked (infoListClean (Person_Information e)) in
  Ok (Some (EPerson (mkPerson (Person_ID e) names information (Person_Version e)))).

Definition PersonService_Validate (m : Model) : M DB unit :=
  lift (let? _ := PersonService_assertType m in Ok tt).

Definition PersonService_Initialize (m : Model) (id : int) : outcome Model :=
  let? p := PersonService_assertType m in
  Ok (Some (EPerson (mkPerson id (Person_Names p) (Person_Information p) 0))).

Definition PersonService_PersistOldProperties (n o : Model) : outcome Model :=
  let? np := PersonService_assertType n in
  let? op := PersonService_assertType o in
  Ok (Some (EPerson
    (mkPerson (Person_ID np) (Person_Names np) (Person_Information np)
       (int_add (Person_Version op) 1)))).

Definition PersonService_Marshal (m : Model) : outcome bytes :=
  let? p := PersonService_assertType m in
  checked (json_Marshal p).

Definition PersonService_Unmarshal (buf : bytes) : outcome Model :=
  let? p := checked (json_Unmarshal (A := Person) buf) in
  Ok (Some (EPerson p)).

Definition PersonService : Service :=
  mkService PersonBucket PersonService_Clean PersonService_Validate
    PersonService_Initialize PersonService_PersistOldProperties
    PersonService_Marshal PersonService_Unmarshal.

(** ** [internal/data/media_relation.go]: MediaRelationService *)

Definition MediaRelationService_assertType (m : Model) : outcome MediaRelation :=
  match m with
  | None => Err ErrModelNil
  | Some (EMediaRelation mr) => Ok mr
  | Some _ => Err (ErrModelType "MediaRelation")
  end.

Definition MediaRelationService_Clean (m : Model) : outcome Model :=
  let? e := MediaRelationService_assertType m in
  Ok (Some (EMediaRelation
    (mkMediaRelation (MediaRelation_ID e) (MediaRelation_OwnerID e)
       (MediaRelation_RelatedID e)
       (strings_Trim_space (MediaRelation_Relationship e))
       (MediaRelation_Version e)))).

(** The lookups run in a read-only transaction that [Validate] opens on the
    service's database. *)
Definition MediaRelationService_Validate (m : Model) : M DB unit :=
  let! e := lift (MediaRelationService_assertType m) in
  DB_View (
    let! tx := get_tx in
    let '(mb, err) := Bucket MediaBucket tx in
    let! _ := check err in
    let! _ := get (MediaRelation_OwnerID e) mb in
    let! _ := get (MediaRelation_RelatedID e) mb in
    ret tt).

Definition MediaRelationService_Initialize (m : Model) (id : int) : outcome Model :=
  let? mr := MediaRelationService_assertType m in
  Ok (Some (EMediaRelation
    (mkMediaRelation id (MediaRelation_OwnerID mr) (MediaRelation_RelatedID mr)
       (MediaRelation_Relationship mr) 0))).

Definition MediaRelationService_PersistOldProperties (n o : Model) : outcome Model :=
  let? nm := MediaRelationService_assertType n in
  let? om := MediaRelationService_assertType o in
  Ok (Some (EMediaRelation
    (mkMediaRelation (MediaRelation_ID nm) (MediaRelation_OwnerID nm)
       (MediaRelation_RelatedID nm) (MediaRelation_Relationship nm)
       (int_add (MediaRelation_Version om) 1)))).

Definition MediaRelationService_Marshal (m : Model) : outcome bytes :=
  let? mr := MediaRelationService_assertType m in
  checked (json_Marshal mr).

Definition MediaRelationService_Unmarshal (buf : bytes) : outcome Model :=
  let? mr := checked (json_Unmarshal (A := MediaRelation) buf) in
  Ok (Some (EMediaRelation mr)).

Definition MediaRelationService : Service :=
  mkService MediaRelationBucket MediaRelationService_Clean
    MediaRelationService_Validate MediaRelationService_Initialize
    MediaRelationService_PersistOldProperties
    MediaRelationService_Marshal MediaRelationService_Unmarshal.

(** ** [internal/data/user_media.go]: WatchStatus and UserMediaService *)

Definition WatchStatus_values : gmap string WatchStatus :=
  list_to_map
    [ ("Completed"%string, Completed); ("Planning"%string, Planning);
      ("Dropped"%string, Dropped); ("Hold"%string, Hold) ].

Definition WatchStatus_names : gmap Z string :=
  list_to_map
    [ (Completed, "Completed"%string); (Planning, "Planning"%string);
      (Dropped, "Dropped"%string); (Hold, "Hold"%string) ].

(** [UnmarshalJSON]: the receiver [ws] is assigned only on success. *)
Definition WatchStatus_UnmarshalJSON (ws : WatchStatus) (data : bytes)
    : WatchStatus * option error :=
  let '(s, err) := json_Unmarshal (A := string) data in
  match err with
  | Some e => (ws, Some e)
  | None =>
      match WatchStatus_values !! s with
      | None => (ws, Some (ErrWatchStatusName s))
      | Some value => (value, None)
      end
  end.

Definition WatchStatus_MarshalJSON (ws : WatchStatus) : bytes * option error :=
  match WatchStatus_names !! ws with
  | None => ([], Some ErrWatchStatusValue)
  | Some value => json_Marshal value
  end.

Definition UserMediaService_assertType (m : Model) : outcome UserMedia :=
  match m with
  | None => Err ErrModelNil
  | Some (EUserMedia um) => Ok um
  | Some _ => Err (ErrModelType "UserMedia")
  end.

(** The loop of [Clean] over the watched instances: each instance's
    comments are cleaned in place, the first error stops the loop. *)
Fixpoint WatchedInstances_Clean (l : list WatchedInstance) : outcome (list WatchedInstance) :=
  match l with
  | [] => Ok []
  | wi :: rest =>
      let? comments := checked (infoListClean (WatchedInstance_Comments wi)) in
      let? rest' := WatchedInstances_Clean rest in
      Ok (mkWatchedInstance (WatchedInstance_Episodes wi) (WatchedInstance_Ongoing wi)
            (WatchedInstance_StartDate wi) (WatchedInstance_EndDate wi) comments
          :: rest')
  end.

Definition UserMediaService_Clean (m : Model) : outcome Model :=
  let? e := UserMediaService_assertType m in
  let? comments := checked (infoListClean (UserMedia_Comments e)) in
  let? instances := WatchedInstances_Clean (UserMedia_WatchedInstances e) in
  Ok (Some (EUserMedia
    (mkUserMedia (UserMedia_ID e) (UserMedia_UserID e) (UserMedia_MediaID e)
       (UserMedia_Status e) (UserMedia_Priority e) (UserMedia_Score e)
       (UserMedia_Recommended e) instances comments
       (UserMedia_UserMediaListIDs e) (UserMedia_Version e)))).

Fixpoint get_each (ids : list int) (b : option BucketHandle) : M TxState unit :=
  match ids with
  | [] => ret tt
  | listID :: rest => let! _ := get listID b in get_each rest b
  end.

Definition UserMediaService_Validate (m : Model) : M DB unit :=
  let! e := lift (UserMediaService_assertType m) in
  DB_View (
    let! tx := get_tx in
    let '(ub, err) := Bucket UserBucket tx in
    let! _ := check err in
    let! _ := get (UserMedia_UserID e) ub in
    let '(mb, err) := Bucket MediaBucket tx in
    let! _ := check err in
    let! _ := get (UserMedia_MediaID e) mb in
    let '(umlb, err) := Bucket UserMediaListBucket tx in
    let! _ := check err in
    get_each (UserMedia_UserMediaListIDs e) umlb).

Definition UserMediaService_Initialize (m : Model) (id : int) : outcome Model :=
  let? md := UserMediaService_assertType m in
  Ok (Some (EUserMedia
    (mkUserMedia id (UserMedia_UserID md) (UserMedia_MediaID md)
       (UserMedia_Status md) (UserMedia_Priority md) (UserMedia_Score md)
       (UserMedia_Recommended md) (UserMedia_WatchedInstances md)
       (UserMedia_Comments md) (UserMedia_UserMediaListIDs md) 0))).

Definition UserMediaService_PersistOldProperties (n o : Model) : outcome Model :=
  let? nm := UserMediaService_assertType n in
  let? om := UserMediaService_assertType o in
  Ok (Some (EUserMedia
    (mkUserMedia (UserMedia_ID nm) (UserMedia_UserID nm) (UserMedia_MediaID nm)
       (UserMedia_Status nm) (UserMedia_Priority nm) (UserMedia_Score nm)
       (UserMedia_Recommended nm) (UserMedia_WatchedInstances nm)
       (UserMedia_Comments nm) (UserMedia_UserMediaListIDs nm)
       (int_add (UserMedia_Version om) 1)))).

Definition UserMediaService_Marshal (m : Model) : outcome bytes :=
  let? um := UserMediaService_assertType m in
  checked (json_Marshal um).

Definition UserMediaService_Unmarshal (buf : bytes) : outcome Model :=
  let? um := checked (json_Unmarshal (A := UserMedia) buf) in
  Ok (Some (EUserMedia um)).

Definition UserMediaService : Service :=
  mkService UserMediaBucket UserMediaService_Clean UserMediaService_Validate
    UserMediaService_Initialize UserMediaService_PersistOldProperties
    UserMediaService_Marshal UserMediaService_Unmarshal.

(** The services of [internal/data] modelled here. *)
Inductive ServiceKind : Type :=
  | KMedia
  | KPerson
  | KMediaRelation
  | KUserMedia.

Definition service_of (k : ServiceKind) : Service :=
  match k with
  | KMedia => MediaService
  | KPerson => PersonService
  | KMediaRelation => MediaRelationService
  | KUserMedia => UserMediaService
  end.

(** ** [pkg/data]: the per-entity functions for Episode and MediaProducer *)

Definition episodeBucketName : string := "Episode".
Definition mediaProducerBucketName : string := "MediaProducer".

(** Modelled from the spec: [mediaBucketName] and [producerBucketName] are
    declared in other files of [pkg/data]; the buckets are named after the
    entity type, as the two constants above are. *)
Definition mediaBucketName : string := "Media".
Definition producerBucketName : string := "Producer".

(** Modelled from the spec: the helper [bucket] is declared in another file
    of [pkg/data] ([get] and [itob] are taken to be those of [main.go]); the
    store contract has [bucket(name)] return the bucket handle of the
    transaction, which is what [Bucket] of [main.go] does. *)
Definition bucket (name : string) (tx : Tx) : option BucketHandle * option error :=
  Bucket name tx.

Definition EpisodeCreate (ep : Episode) : M DB Episode :=
  DB_Update (
    let! tx := get_tx in
    let '(b, err) := bucket episodeBucketName tx in
    let! _ := check err in
    let! id := bucket_NextSequence b in
    let ep := mkEpisode (to_int id) (Episode_MediaID ep) (Episode_Titles ep)
                (Episode_Date ep) (Episode_Synopses ep) (Episode_Duration ep)
                (Episode_Filler ep) (Episode_Recap ep) in
    let! buf := lift (checked (json_Marshal ep)) in
    let! _ := bucket_Put b (itob (Episode_ID ep)) buf in
    ret ep).

Definition EpisodeUpdate (ep : Episode) : M DB Episode :=
  DB_Update (
    let! tx := get_tx in
    let '(b, err) := bucket episodeBucketName tx in
    let! _ := check err in
    let! _ := get (Episode_ID ep) b in
    let! buf := lift (checked (json_Marshal ep)) in
    let! _ := bucket_Put b (itob (Episode_ID ep)) buf in
    ret ep).

Definition MediaProducerCreate (mp : MediaProducer) : M DB MediaProducer :=
  DB_Update (
    let! tx := get_tx in
    let '(b, err) := bucket mediaProducerBucketName tx in
    let! _ := check err in
    let '(mb, err) := bucket mediaBucketName tx in
    let! _ := check err in
    let! _ := get (MediaProducer_MediaID mp) mb in
    let '(pb, err) := bucket producerBucketName tx in
    let! _ := check err in
    let! _ := get (MediaProducer_ProducerID mp) pb in
    let! id := bucket_NextSequence b in
    let mp := mkMediaProducer (to_int id) (MediaProducer_MediaID mp)
                (MediaProducer_ProducerID mp) (MediaProducer_Role mp)
                (MediaProducer_Version mp) in
    let! buf := lift (checked (json_Marshal mp)) in
    let! _ := bucket_Put b (itob (MediaProducer_ID mp)) buf in
    ret mp).

(** The error of decoding the old value is overwritten before it is looked
    at: [old] is whatever [json.Unmarshal] left in it. *)
Definition MediaProducerUpdate (mp : MediaProducer) : M DB MediaProducer :=
  DB_Update (
    let! tx := get_tx in
    let '(b, err) := bucket mediaProducerBucketName tx in
    let! _ := check err in
    let! o := get (MediaProducer_ID mp) b in
    let '(old, _) := json_Unmarshal (A := MediaProducer) o in
    let mp := mkMediaProducer (MediaProducer_ID mp) (MediaProducer_MediaID mp)
                (MediaProducer_ProducerID mp) (MediaProducer_Role mp)
                (int_add (MediaProducer_Version old) 1) in
    let! buf := lift (checked (json_Marshal mp)) in
    let! _ := bucket_Put b (itob (MediaProducer_ID mp)) buf in
    ret mp).

End engine.

(** ** [internal/data/main.go]: Quarter *)

Definition Winter : Quarter := 1.
Definition Spring : Quarter := 2.
Definition Summer : Quarter := 3.
Definition Fall : Quarter := 4.

Definition Quarter_IsValid (q : Quarter) : bool :=
  bool_decide (q ∈ [Winter; Spring; Summer; Fall]).

(** [String]: the name of a named quarter, else the number in decimal
    ([fmt.Sprintf] with the verb d). *)
Definition Quarter_String (q : Quarter) : string :=
  if decide (q = Winter) then "Winter"
  else if decide (q = Spring) then "Spring"
  else if decide (q = Summer) then "Summer"
  else if decide (q = Fall) then "Fall"
  else pretty q.

(** A value of the empty interface as [UnmarshalGQL] looks at it: a string
    or something else. *)
Inductive GoValue : Type :=
  | GoString (s : string)
  | GoOther.

(** [UnmarshalGQL]: the receiver [q] is assigned only on success; the error
    is its message. *)
Definition Quarter_UnmarshalGQL (q : Quarter) (v : GoValue) : Quarter * option string :=
  match v with
  | GoOther => (q, Some "invalid Quarter"%string)
  | GoString str =>
      if decide (str = "Winter"%string) then (Winter, None)
      else if decide (str = "Spring"%string) then (Spring, None)
      else if decide (str = "Summer"%string) then (Summer, None)
      else if decide (str = "Fall"%string) then (Fall, None)
      else (q, Some (str +:+ " is not a valid Quarter"))
  end.

(** [Bucket.ForEach] with a callback whose captured variables are kept when
    it returns an error: the result is their final state and the error that
    stopped the scan, if one did. *)
Fixpoint for_each_captured {A} (fn : bytes -> bytes -> A -> A * option error)
    (l : list (bytes * bytes)) (acc : A) : A * option error :=
  match l with
  | [] => (acc, None)
  | (k, v) :: l' =>
      match fn k v acc with
      | (acc', None) => for_each_captured fn l' acc'
      | (acc', Some e) => (acc', Some e)
      end
  end.

Definition bucket_ForEach_captured {A} (b : option BucketHandle)
    (fn : bytes -> bytes -> A -> A * option error) (init : A)
    : M TxState (A * option error) :=
  with_bucket b (fun name bd =>
    let! _ := log (fun t => EvForEach t name) in
    ret (for_each_captured fn (entries bd) init)).

Section typed_services.
Context {O : Opaque} {L : Library}.

(** ** [internal/data/main.go]: the typed methods of MediaService *)

Fixpoint MediaService_mapFromModel (vlist : list Model) : outcome (list Media) :=
  match vlist with
  | [] => Ok []
  | v :: rest =>
      let? md := MediaService_AssertType v in
      let? l := MediaService_mapFromModel rest in
      Ok (md :: l)
  end.

Definition MediaService_GetAll : M DB (list Media) :=
  let! vlist := GetAll MediaService in
  lift (MediaService_mapFromModel vlist).

Definition MediaService_GetFilter (keep : Media -> bool) : M DB (list Media) :=
  let! vlist :=
    GetFilter MediaService (fun m =>
      match MediaService_AssertType m with
      | Ok md => keep md
      | _ => false
      end) in
  lift (MediaService_mapFromModel vlist).

Definition MediaService_GetByID (id : int) : M DB Media :=
  let! m := GetByID id MediaService in
  lift (MediaService_AssertType m).

(** ** [internal/data/person.go]: the typed methods of PersonService *)

Fixpoint PersonService_mapFromModel (vlist : list Model) : outcome (list Person) :=
  match vlist with
  | [] => Ok []
  | v :: rest =>
      let? p := PersonService_assertType v in
      let? l := PersonService_mapFromModel rest in
      Ok (p :: l)
  end.

Definition PersonService_GetAll : M DB (list Person) :=
  let! vlist := GetAll PersonService in
  lift (PersonService_mapFromModel vlist).

Definition PersonService_GetFilter (keep : Person -> bool) : M DB (list Person) :=
  let! vlist :=
    GetFilter PersonService (fun m =>
      match PersonService_assertType m with
      | Ok p => keep p
      | _ => false
      end) in
  lift (PersonService_mapFromModel vlist).

Definition PersonService_GetByID (id : int) : M DB Person :=
  let! m := GetByID id PersonService in
  lift (PersonService_assertType m).

(** ** [internal/data/media_relation.go]: the typed methods *)

Fixpoint MediaRelationService_mapFromModel (vlist : list Model)
    : outcome (list MediaRelation) :=
  match vlist with
  | [] => Ok []
  | v :: rest =>
      let? mr := MediaRelationService_assertType v in
      let? l := MediaRelationService_mapFromModel rest in
      Ok (mr :: l)
  end.

Definition MediaRelationService_GetAll : M DB (list MediaRelation) :=
  let! vlist := GetAll MediaRelationService in
  lift (MediaRelationService_mapFromModel vlist).

Definition MediaRelationService_GetFilter (keep : MediaRelation -> bool)
    : M DB (list MediaRelation) :=
  let! vlist :=
    GetFilter MediaRelationService (fun m =>
      match MediaRelationService_assertType m with
      | Ok mr => keep mr
      | _ => false
      end) in
  lift (MediaRelationService_mapFromModel vlist).

Definition MediaRelationService_GetByID (id : int) : M DB MediaRelation :=
  let! m := GetByID id MediaRelationService in
  lift (MediaRelationService_assertType m).

Definition MediaRelationService_GetByOwner (mID : int) : M DB (list MediaRelation) :=
  MediaRelationService_GetFilter (fun mr => bool_decide (MediaRelation_OwnerID mr = mID)).

Definition MediaRelationService_GetByRelated (mID : int) : M DB (list MediaRelation) :=
  MediaRelationService_GetFilter (fun mr => bool_decide (MediaRelation_RelatedID mr = mID)).

Definition MediaRelationService_GetByRelationship (relationship : string)
    : M DB (list MediaRelation) :=
  MediaRelationService_GetFilter (fun mr =>
    bool_decide (MediaRelation_Relationship mr = relationship)).

(** ** [internal/data/user_media.go]: the typed methods *)

Fixpoint UserMediaService_mapFromModel (vlist : list Model) : outcome (list UserMedia) :=
  match vlist with
  | [] => Ok []
  | v :: rest =>
      let? um := UserMediaService_assertType v in
      let? l := UserMediaService_mapFromModel rest in
      Ok (um :: l)
  end.

Definition UserMediaService_GetAll : M DB (list UserMedia) :=
  let! vlist := GetAll UserMediaService in
  lift (UserMediaService_mapFromModel vlist).

Definition UserMediaService_GetFilter (keep : UserMedia -> bool) : M DB (list UserMedia) :=
  let! vlist :=
    GetFilter UserMediaService (fun m =>
      match UserMediaService_assertType m with
      | Ok um => keep um
      | _ => false
      end) in
  lift (UserMediaService_mapFromModel vlist).

Definition UserMediaService_GetByID (id : int) : M DB UserMedia :=
  let! m := GetByID id UserMediaService in
  lift (UserMediaService_assertType m).

Definition UserMediaService_GetByUser (uID : int) : M DB (list UserMedia) :=
  UserMediaService_GetFilter (fun um => bool_decide (UserMedia_UserID um = uID)).

Definition UserMediaService_GetByMedia (mID : int) : M DB (list UserMedia) :=
  UserMediaService_GetFilter (fun um => bool_decide (UserMedia_MediaID um = mID)).

(** ** [pkg/data]: reading Episode and MediaProducer

    Of a function's named results, the value returned beside an error is
    left out. *)

Definition EpisodeGet (ID : int) : M DB Episode :=
  DB_View (
    let! tx := get_tx in
    let '(b, err) := bucket episodeBucketName tx in
    let! _ := check err in
    let! v := get ID b in
    lift (checked (json_Unmarshal v))).

Definition EpisodeGetFilter (filter : Episode -> bool) : M DB (list Episode) :=
  DB_View (
    let! tx := get_tx in
    let '(b, err) := bucket episodeBucketName tx in
    let! _ := check err in
    bucket_ForEach b (fun k v list =>
      let? ep := checked (json_Unmarshal v) in
      Ok (if filter ep then list ++ [ep] else list)) []).

Definition EpisodeGetAll : M DB (list Episode) :=
  EpisodeGetFilter (fun ep => true).

Definition EpisodeGetByMedia (mID : int) : M DB (list Episode) :=
  DB_View (
    let! tx := get_tx in
    let '(b, err) := bucket episodeBucketName tx in
    let! _ := check err in
    bucket_ForEach b (fun k v list =>
      let? ep := checked (json_Unmarshal v) in
      Ok (if bool_decide (Episode_MediaID ep = mID) then list ++ [ep] else list)) []).

Definition MediaProducerGet (ID : int) : M DB MediaProducer :=
  DB_View (
    let! tx := get_tx in
    let '(b, err) := bucket mediaProducerBucketName tx in
    let! _ := check err in
    let! v := get ID b in
    lift (checked (json_Unmarshal v))).

(** The error [ForEach] returns is dropped and the body returns nil: the
    list is what the callback had collected when the scan ended. *)
Definition MediaProducerGetFilter (filter : MediaProducer -> bool)
    : M DB (list MediaProducer) :=
  DB_View (
    let! tx := get_tx in
    let '(b, err) := bucket mediaProducerBucketName tx in
    let! _ := check err in
    let! r := bucket_ForEach_captured b (fun k v list =>
      let '(mp, err) := json_Unmarshal (A := MediaProducer) v in
      match err with
      | Some e => (list, Some e)
      | None => (if filter mp then list ++ [mp] else list, None)
      end) [] in
    ret r.1).

Definition MediaProducerGetAll : M DB (list MediaProducer) :=
  MediaProducerGetFilter (fun mp => true).

Definition MediaProducerGetByMedia (mID : int) : M DB (list MediaProducer) :=
  MediaProducerGetFilter (fun mp => bool_decide (MediaProducer_MediaID mp = mID)).

Definition MediaProducerGetByProducer (pID : int) : M DB (list MediaProducer) :=
  MediaProducerGetFilter (fun mp => bool_decide (MediaProducer_ProducerID mp = pID)).

End typed_services.

(** ** A stand-in library to run the examples

    Not json-iterator: a fixed layout of 8-byte big-endian integers (then the
    bytes of the one string, where there is one) that keeps the integer
    fields of each struct, so that the engine can be run on concrete
    databases.  [infoListClean] changes nothing and reports no error. *)

Definition example_opaque : Opaque := {| Time := Z; Info := string |}.

Definition put_ints (l : list Z) : bytes := concat (itob <$> l).

Definition get_int (n : nat) (buf : bytes) : Z :=
  to_int (be_val (take 8 (drop (8 * n) buf))).

Fixpoint bytes_of_string (s : string) : bytes :=
  match s with
  | String c s' => byte_of_ascii c :: bytes_of_string s'
  | EmptyString => []
  end.

Fixpoint string_of_bytes (l : bytes) : string :=
  match l with
  | b :: l' => String (ascii_of_byte b) (string_of_bytes l')
  | [] => EmptyString
  end.

Definition decode_ints {A} (fields : nat) (zero : A) (mk : bytes -> A) (buf : bytes)
    : A * option error :=
  if decide (length buf < 8 * fields)%nat
  then (zero, Some (ErrLibrary "unexpected end of input"))
  else (mk buf, None).

Definition example_json_MediaRelation : Json MediaRelation := {|
  json_Marshal mr :=
    (put_ints [MediaRelation_ID mr; MediaRelation_OwnerID mr;
               MediaRelation_RelatedID mr; MediaRelation_Version mr]
       ++ bytes_of_string (MediaRelation_Relationship mr), None);
  json_Unmarshal :=
    decode_ints 4 (mkMediaRelation 0 0 0 "" 0) (fun buf =>
      mkMediaRelation (get_int 0 buf) (get_int 1 buf) (get_int 2 buf)
        (string_of_bytes (drop 32 buf)) (get_int 3 buf));
|}.

Definition example_json_MediaProducer : Json MediaProducer := {|
  json_Marshal mp :=
    (put_ints [MediaProducer_ID mp; MediaProducer_MediaID mp;
               MediaProducer_ProducerID mp; MediaProducer_Version mp]
       ++ bytes_of_string (MediaProducer_Role mp), None);
  json_Unmarshal :=
    decode_ints 4 (mkMediaProducer 0 0 0 "" 0) (fun buf =>
      mkMediaProducer (get_int 0 buf) (get_int 1 buf) (get_int 2 buf)
        (string_of_bytes (drop 32 buf)) (get_int 3 buf));
|}.

Definition example_json_Media : Json (Media (O := example_opaque)) := {|
  json_Marshal md := (put_ints [Media_ID md; Media_Version md], None);
  json_Unmarshal :=
    decode_ints 2 (mkMedia 0 ∅ ∅ ∅ None None (mkSeason None None) None None 0)
      (fun buf =>
         mkMedia (get_int 0 buf) ∅ ∅ ∅ None None (mkSeason None None) None None
           (get_int 1 buf));
|}.

Definition example_json_Person : Json (Person (O := example_opaque)) := {|
  json_Marshal p := (put_ints [Person_ID p; Person_Version p], None);
  json_Unmarshal :=
    decode_ints 2 (mkPerson 0 [] [] 0)
      (fun buf => mkPerson (get_int 0 buf) [] [] (get_int 1 buf));
|}.

Definition example_json_UserMedia : Json (UserMedia (O := example_opaque)) := {|
  json_Marshal um :=
    (put_ints [UserMedia_ID um; UserMedia_UserID um; UserMedia_MediaID um;
               UserMedia_Version um], None);
  json_Unmarshal :=
    decode_ints 4 (mkUserMedia 0 0 0 None None None None [] [] [] 0)
      (fun buf =>
         mkUserMedia (get_int 0 buf) (get_int 1 buf) (get_int 2 buf)
           None None None None [] [] [] (get_int 3 buf));
|}.

Definition example_json_Episode : Json (Episode (O := example_opaque)) := {|
  json_Marshal ep :=
    (put_ints [Episode_ID ep; Episode_MediaID ep; Episode_Duration ep], None);
  json_Unmarshal :=
    decode_ints 3 (mkEpisode 0 0 [] None [] 0 false false)
      (fun buf =>
         mkEpisode (get_int 0 buf) (get_int 1 buf) [] None [] (get_int 2 buf)
           false false);
|}.

Definition example_json_string : Json string := {|
  json_Marshal s := (bytes_of_string s, None);
  json_Unmarshal buf := (string_of_bytes buf, None);
|}.

Definition example_library : Library (O := example_opaque) := {|
  infoListClean l := (l, None);
  json_Media := example_json_Media;
  json_Person := example_json_Person;
  json_MediaRelation := example_json_MediaRelation;
  json_UserMedia := example_json_UserMedia;
  json_Episode := example_json_Episode;
  json_MediaProducer := example_json_MediaProducer;
  json_string := example_json_string;
|}.

(** The databases of the examples: every bucket of [Buckets] created and
    empty, then with one Media and one Producer. *)
Definition example_empty_db : DB :=
  (ConnectDatabase_create (mkDB ∅ 0 [])).2.

Definition example_media : Media (O := example_opaque) :=
  mkMedia 0 {[ "en"%string := "Show A"%string ]} ∅ ∅ None None
    (mkSeason None None) None None 0.

Definition example_db : DB :=
  let d1 := (Create (Some (EMedia example_media)) (MediaService (L := example_library))
               example_empty_db).2 in
  mkDB (<[ProducerBucket := mkBucketData {[ itob 1 := put_ints [1; 0] ]} 1]> (committed d1))
    (tx_count d1) (trace d1).

Definition example_relation : MediaRelation := mkMediaRelation 0 1 1 " sequel " 7.

Definition example_producer_link : MediaProducer := mkMediaProducer 0 1 1 "Studio" 5.

Definition example_episode : Episode (O := example_opaque) :=
  mkEpisode 1 1 [] None [] 24 false false.

(** ** The properties stated about the engine *)

(** What a transaction body does to the database it runs on.  [tx_local]:
    the committed buckets, the transaction's number and mode and the
    transaction counter stay; every event is of this transaction, and a
    read-only transaction records no put.  [tx_step] also allows
    transactions opened from inside the body, with later numbers. *)
Definition own_event (tx : Tx) (e : Event) : Prop :=
  tx_of e = tx_id tx /\ (tx_writable tx = false -> is_put e = false).

Definition tx_local (st st' : TxState) : Prop :=
  committed (db st') = committed (db st)
  /\ tx_id (cur st') = tx_id (cur st)
  /\ tx_writable (cur st') = tx_writable (cur st)
  /\ tx_count (db st') = tx_count (db st)
  /\ exists evs, trace (db st') = trace (db st) ++ evs /\ Forall (own_event (cur st)) evs.

Definition tx_step (st st' : TxState) : Prop :=
  committed (db st') = committed (db st)
  /\ tx_id (cur st') = tx_id (cur st)
  /\ (tx_count (db st) <= tx_count (db st'))%nat
  /\ exists evs, trace (db st') = trace (db st) ++ evs
       /\ Forall (fun e => tx_of e = tx_id (cur st)
                    \/ (tx_count (db st) <= tx_of e < tx_count (db st'))%nat) evs.

Definition local {A} (fn : M TxState A) : Prop :=
  forall st r st', fn st = (r, st') -> tx_local st st'.

Definition nested {A} (fn : M TxState A) : Prop :=
  forall st r st', fn st = (r, st') -> tx_step st st'.

(** A database call that leaves the committed buckets alone; its events
    belong to transactions it opened. *)
Definition grows (d d' : DB) : Prop :=
  (tx_count d <= tx_count d')%nat
  /\ exists evs, trace d' = trace d ++ evs
       /\ Forall (fun e => (tx_count d <= tx_of e < tx_count d')%nat) evs.

Definition reads {A} (m : M DB A) : Prop :=
  forall d r d', m d = (r, d') -> committed d' = committed d /\ grows d d'.

(** The events of a read-only transaction: all in one transaction, opened
    first and closed last, and no put among them. *)
Definition view_events (n : nat) (evs : list Event) : Prop :=
  exists body, evs = EvBegin n false :: body ++ [EvRollback n]
    /\ Forall (fun e => tx_of e = n /\ is_put e = false) body.

(** A call of [Validate]: the committed buckets stay, and either nothing
    was recorded or exactly one read-only transaction ran. *)
Definition validate_step (d d' : DB) : Prop :=
  committed d' = committed d
  /\ exists evs, trace d' = trace d ++ evs
       /\ ((evs = [] /\ tx_count d' = tx_count d)
           \/ (view_events (tx_count d) evs /\ tx_count d' = S (tx_count d))).

Definition in_one_transaction (d d' : DB) : Prop :=
  exists evs, trace d' = trace d ++ evs
    /\ Forall (fun e => tx_of e = tx_count d) evs.

(** The value committed under the key of [id] in the named bucket. *)
Definition stored (d : DB) (name : string) (id : int) : option bytes :=
  match committed d !! name with
  | Some bd => kv bd !! itob id
  | None => None
  end.

(** A way to read a Version off stored values that a write from [d] to
    [d'] has incremented at [id]. *)
Definition version_incremented (version : bytes -> Z) (name : string) (id : int)
    (d d' : DB) : Prop :=
  forall old new,
    stored d name id = Some old -> stored d' name id = Some new ->
    version new = version old + 1.

(** The events a call has added to the trace of [d]. *)
Definition new_events (d d' : DB) : list Event := drop (length (trace d)) (trace d').

(** C1 as stated: every lookup and every put of the call are in the same
    transaction. *)
Definition lookups_share_the_put_transaction (evs : list Event) : Prop :=
  forall e1 e2, e1 ∈ evs -> e2 ∈ evs -> is_get e1 = true -> is_put e2 = true ->
    tx_of e1 = tx_of e2.

Section properties.
Context {O : Opaque}.

(** The shape shared by [Create] and [Update]: clean, validate, then one
    write transaction. *)
Definition guarded {A} (ser : Service) (fn : Model -> M TxState A) (m : Model) : M DB A :=
  let! m := lift (Clean ser m) in
  let! _ := Validate ser m in
  DB_Update (fn m).

(** The trace of a guarded write from [d] to [d']: the events of [Validate]
    first, all in the transaction numbered [tx_count d] (when there are
    any) and no put among them, then the events of the write, all in later
    transactions. *)
Definition validated_apart (ser : Service) (m : Model) (d d' : DB) : Prop :=
  exists evs_v evs_w,
    trace d' = trace d ++ evs_v ++ evs_w
    /\ (forall m1, Clean ser m = Ok m1 ->
          trace (Validate ser m1 d).2 = trace d ++ evs_v)
    /\ (evs_v = [] \/ view_events (tx_count d) evs_v)
    /\ Forall (fun e => tx_of e = tx_count d /\ is_put e = false) evs_v
    /\ Forall (fun e => forall e', e' ∈ evs_v -> (tx_of e' < tx_of e)%nat) evs_w.

End properties.

(** ** The write transaction of a guarded write *)

(** An event that stores a value or moves a sequence counter: a put or a
    sequence increment. *)
Definition writes (e : Event) : Prop := is_put e = true \/ is_next_sequence e = true.

(** A transaction body that only looks values up: it keeps its transaction
    and records nothing but gets. *)
Definition lookups_only {A} (fn : M TxState A) : Prop :=
  forall st r st', fn st = (r, st') ->
    tx_id (cur st') = tx_id (cur st)
    /\ exists evs, trace (db st') = trace (db st) ++ evs
         /\ Forall (fun e => is_get e = true) evs.

(** A transaction body whose puts and sequence increments are all its
    own transaction's, whatever transactions it opens on the way. *)
Definition writes_own {A} (fn : M TxState A) : Prop :=
  forall st r st', fn st = (r, st') ->
    tx_id (cur st') = tx_id (cur st)
    /\ exists evs, trace (db st') = trace (db st) ++ evs
         /\ Forall (fun e => writes e -> tx_of e = tx_id (cur st)) evs.

Section write_transaction.
Context {O : Opaque}.

(** The one write transaction of a guarded write from [d] to [d']: the
    events of [Validate] come first, all in transactions before the one
    numbered [n], and none of them writes; what follows, if anything, is
    the transaction [n], opened for writing and closed by its commit or its
    rollback, and every put and every sequence increment of the call is in
    transaction [n]. *)
Definition one_write_transaction (ser : Service) (m : Model) (d d' : DB) : Prop :=
  exists evs_v evs_w n,
    trace d' = trace d ++ evs_v ++ evs_w
    /\ (forall m1, Clean ser m = Ok m1 ->
          trace (Validate ser m1 d).2 = trace d ++ evs_v)
    /\ Forall (fun e => (tx_of e < n)%nat /\ ~ writes e) evs_v
    /\ (evs_w = []
        \/ exists body last,
             evs_w = EvBegin n true :: body ++ [last]
             /\ (last = EvCommit n \/ last = EvRollback n))
    /\ Forall (fun e => writes e -> tx_of e = n) evs_w.

End write_transaction.

(** The write transaction [n] of a [Create] that succeeds. *)
Definition Create_events (n : nat) (name : string) (key value : bytes) : list Event :=
  [EvBegin n true; EvNextSequence n name; EvPut n name key value; EvCommit n].

(** The write transaction [n] of an [Update] that succeeds; the old value
    is read in the transaction [S n], opened and closed while [n] is
    open. *)
Definition Update_events (n : nat) (name : string) (key value : bytes) : list Event :=
  [EvBegin n true;
   EvBegin (S n) false; EvGet (S n) name key; EvRollback (S n);
   EvPut n name key value; EvCommit n].

(** The round-trip law of a library codec: what it has encoded without
    error it decodes, without error, to the value encoded. *)
Definition Json_round_trips (A : Type) {J : Json A} : Prop :=
  forall (x : A) (buf : bytes),
    json_Marshal x = (buf, None) -> json_Unmarshal buf = (x, None).

(** Histories of engine calls, to state that an identifier was never in
    use before.  [keys_below]: every key of the bucket is the key of a
    number that its sequence has already handed out.  [within n]: every
    bucket is so, and its sequence can still grow by [n] without wrapping
    around. *)
Definition keys_below (bd : BucketData) : Prop :=
  0 <= sequence bd
  /\ forall key v, kv bd !! key = Some v ->
       exists i, 1 <= i <= sequence bd /\ key = PutUint64 i.

Definition within (n : Z) (d : DB) : Prop :=
  forall name bd, committed d !! name = Some bd ->
    keys_below bd /\ sequence bd + n < 2 ^ 64.

Definition sequences_grow (d d' : DB) : Prop :=
  forall name bd, committed d !! name = Some bd ->
    exists bd', committed d' !! name = Some bd' /\ sequence bd <= sequence bd'.

Inductive bucket_change (bd : BucketData) : BucketData -> Prop :=
  | change_put_existing key buf v :
      kv bd !! key = Some v ->
      bucket_change bd (mkBucketData (<[key := buf]> (kv bd)) (sequence bd))
  | change_delete key :
      bucket_change bd (mkBucketData (delete key (kv bd)) (sequence bd))
  | change_create buf :
      bucket_change bd
        (mkBucketData
           (<[itob (to_int ((sequence bd + 1) mod 2 ^ 64)) := buf]> (kv bd))
           ((sequence bd + 1) mod 2 ^ 64)).

Section histories.
Context {O : Opaque} {L : Library}.

Inductive Op : Type :=
  | OpCreate (k : ServiceKind) (m : Model)
  | OpUpdate (k : ServiceKind) (m : Model)
  | OpDelete (k : ServiceKind) (id : int).

Definition exec (op : Op) (d : DB) : DB :=
  match op with
  | OpCreate k m => (Create m (service_of k) d).2
  | OpUpdate k m => (Update m (service_of k) d).2
  | OpDelete k id => (Delete id (service_of k) d).2
  end.

Definition run (ops : list Op) (d : DB) : DB := foldl (fun d op => exec op d) d ops.

End histories.

(** The example database with Episode 1 stored by EpisodeCreate. *)
Definition example_episode_db : DB :=
  (EpisodeCreate (L := example_library) example_episode example_db).2.

(** The example database with a MediaRelation stored at the largest
    Version an int can hold. *)
Definition example_overflow_db : DB :=
  mkDB
    (<[MediaRelationBucket
         := mkBucketData
              {[ itob 1 := (json_Marshal (Json := example_json_MediaRelation)
                              (mkMediaRelation 1 1 1 "sequel" int_max)).1 ]} 1]>
       (committed example_db))
    (tx_count example_db) (trace example_db).

Definition example_media_bucket : BucketData :=
  default empty_bucket (committed example_db !! MediaBucket).

(** ** The properties stated about the rest of the code *)

(** What [strings.Trim] with the cutset of one space is to achieve: a
    string with no space at either end, the argument less a run of spaces
    at each end. *)
Definition starts_with_space (s : string) : bool :=
  match s with
  | String c _ => is_space c
  | EmptyString => false
  end.

Fixpoint ends_with_space (s : string) : bool :=
  match s with
  | EmptyString => false
  | String c EmptyString => is_space c
  | String _ s' => ends_with_space s'
  end.

Fixpoint spaces (n : nat) : string :=
  match n with
  | O => EmptyString
  | S n' => String (Ascii.ascii_of_nat 32) (spaces n')
  end.

(** A call that only reads: the committed buckets stay, and exactly one
    transaction ran, read-only, with no put among its events. *)
Definition read_only_call (d d' : DB) : Prop :=
  committed d' = committed d
  /\ tx_count d' = S (tx_count d)
  /\ exists evs, trace d' = trace d ++ evs /\ view_events (tx_count d) evs.

(** Decoding a list of stored values with a library codec: all of them,
    failing with the first error, and the values before the first one
    that does not decode. *)
Fixpoint decode_all {A} {J : Json A} (vs : list bytes) : outcome (list A) :=
  match vs with
  | [] => Ok []
  | v :: rest =>
      let? a := checked (json_Unmarshal v) in
      let? l := decode_all rest in
      Ok (a :: l)
  end.

Fixpoint decoded_prefix {A} {J : Json A} (vs : list bytes) : list A :=
  match vs with
  | [] => []
  | v :: rest =>
      match json_Unmarshal v with
      | (a, None) => a :: decoded_prefix rest
      | (_, Some _) => []
      end
  end.

(** The example database's MediaRelation bucket, and a database that holds
    one empty Media bucket and nothing else. *)
Definition example_relation_bucket : BucketData :=
  default empty_bucket (committed example_db !! MediaRelationBucket).

Definition example_single_db : DB := mkDB {[ MediaBucket := empty_bucket ]} 0 [].

(** * Proofs *)

(** ** Facts about the key encoding *)

Lemma byte_of_Z_val z : Z.of_N (Byte.to_N (byte_of_Z z)) = z mod 256.
Proof.
  unfold byte_of_Z.
  change 255 with (Z.ones 8). rewrite Z.land_ones by lia.
  change (2 ^ 8) with 256.
  assert (Hr : 0 <= z mod 256 < 256) by (apply Z.mod_pos_bound; lia).
  destruct (Byte.of_N (Z.to_N (z mod 256))) as [b|] eqn:E; simpl.
  - apply Byte.to_of_N in E. rewrite E. lia.
  - apply Byte.of_N_None_iff in E. lia.
Qed.

Lemma be_val_bound l : 0 <= be_val l < 256 ^ Z.of_nat (length l).
Proof.
  induction l as [|x l IH]; simpl length; simpl be_val; [lia|].
  pose proof (Byte.to_N_bounded x) as Hx.
  rewrite Nat2Z.inj_succ, Z.pow_succ_r by lia.
  assert (0 < 256 ^ Z.of_nat (length l)) by (apply Z.pow_pos_nonneg; lia).
  nia.
Qed.

Lemma bytes_lt_be_val a b :
  length a = length b -> (bytes_lt a b = true <-> be_val a < be_val b).
Proof.
  revert b. induction a as [|x a IH]; intros [|y b] Hlen; simpl in Hlen; try discriminate.
  - simpl. split; [discriminate | lia].
  - injection Hlen as Hlen. simpl bytes_lt. simpl be_val.
    pose proof (be_val_bound a) as Ha. pose proof (be_val_bound b) as Hb.
    rewrite <- Hlen in *.
    set (p := 256 ^ Z.of_nat (length a)) in *.
    destruct (N.ltb_spec (Byte.to_N x) (Byte.to_N y)) as [Hxy|Hxy].
    + split; [intros _; nia | reflexivity].
    + destruct (N.ltb_spec (Byte.to_N y) (Byte.to_N x)) as [Hyx|Hyx].
      * split; [discriminate | nia].
      * assert (Byte.to_N x = Byte.to_N y) as -> by lia.
        rewrite (IH b Hlen). lia.
Qed.

Lemma be_val_PutUint64 u : 0 <= u < 2 ^ 64 -> be_val (PutUint64 u) = u.
Proof.
  intros Hu. unfold PutUint64. cbn [be_val length].
  rewrite !byte_of_Z_val, !Z.shiftr_div_pow2 by lia.
  change (Z.of_nat 7) with 7. change (Z.of_nat 6) with 6.
  change (Z.of_nat 5) with 5. change (Z.of_nat 4) with 4.
  change (Z.of_nat 3) with 3. change (Z.of_nat 2) with 2.
  change (Z.of_nat 1) with 1. change (Z.of_nat 0) with 0.
  pose proof (Z.div_mod u 256 ltac:(lia)) as E0.
  assert (D1 : u / 2 ^ 8 = u / 256) by reflexivity.
  assert (D2 : u / 2 ^ 16 = u / 256 / 256) by (rewrite Z.div_div by lia; reflexivity).
  assert (D3 : u / 2 ^ 24 = u / 2 ^ 16 / 256) by (rewrite Z.div_div by lia; reflexivity).
  assert (D4 : u / 2 ^ 32 = u / 2 ^ 24 / 256) by (rewrite Z.div_div by lia; reflexivity).
  assert (D5 : u / 2 ^ 40 = u / 2 ^ 32 / 256) by (rewrite Z.div_div by lia; reflexivity).
  assert (D6 : u / 2 ^ 48 = u / 2 ^ 40 / 256) by (rewrite Z.div_div by lia; reflexivity).
  assert (D7 : u / 2 ^ 56 = u / 2 ^ 48 / 256) by (rewrite Z.div_div by lia; reflexivity).
  assert (D8 : u / 2 ^ 56 / 256 = 0).
  { rewrite Z.div_div by lia. apply Z.div_small. change (2 ^ 56 * 256) with (2 ^ 64). lia. }
  pose proof (Z.div_mod (u / 2 ^ 8) 256 ltac:(lia)) as E1.
  pose proof (Z.div_mod (u / 2 ^ 16) 256 ltac:(lia)) as E2.
  pose proof (Z.div_mod (u / 2 ^ 24) 256 ltac:(lia)) as E3.
  pose proof (Z.div_mod (u / 2 ^ 32) 256 ltac:(lia)) as E4.
  pose proof (Z.div_mod (u / 2 ^ 40) 256 ltac:(lia)) as E5.
  pose proof (Z.div_mod (u / 2 ^ 48) 256 ltac:(lia)) as E6.
  pose proof (Z.div_mod (u / 2 ^ 56) 256 ltac:(lia)) as E7.
  rewrite D8 in E7. rewrite <- D7 in E6. rewrite <- D6 in E5.
  rewrite <- D5 in E4. rewrite <- D4 in E3. rewrite <- D3 in E2.
  rewrite D1 in E1 |- *. rewrite <- D2 in E1.
  change (256 ^ 7) with 72057594037927936. change (256 ^ 6) with 281474976710656.
  change (256 ^ 5) with 1099511627776. change (256 ^ 4) with 4294967296.
  change (256 ^ 3) with 16777216. change (256 ^ 2) with 65536.
  change (256 ^ 1) with 256. change (256 ^ 0) with 1.
  lia.
Qed.

Lemma uint64_range v : 0 <= uint64 v < 2 ^ 64.
Proof. unfold uint64. apply Z.mod_pos_bound. lia. Qed.

Lemma be_val_itob v : be_val (itob v) = uint64 v.
Proof. unfold itob. apply be_val_PutUint64, uint64_range. Qed.

Lemma itob_length v : length (itob v) = 8%nat.
Proof. reflexivity. Qed.

Lemma bytes_lt_itob a b :
  bytes_lt (itob a) (itob b) = true <-> uint64 a < uint64 b.
Proof. rewrite bytes_lt_be_val by reflexivity. by rewrite !be_val_itob. Qed.

Lemma itob_inj_uint64 a b : itob a = itob b -> uint64 a = uint64 b.
Proof. intros H. rewrite <- !be_val_itob. by rewrite H. Qed.

Lemma uint64_nonneg v : 0 <= v <= int_max -> uint64 v = v.
Proof. unfold uint64, int_max. intros H. apply Z.mod_small. lia. Qed.

Lemma uint64_neg v : int_min <= v < 0 -> uint64 v = v + 2 ^ 64.
Proof.
  unfold uint64, int_min. intros H.
  rewrite <- (Z.mod_add v 1 (2 ^ 64)) by lia.
  apply Z.mod_small. lia.
Qed.

Lemma to_int_uint64 u : 0 <= u < 2 ^ 64 -> uint64 (to_int u) = u.
Proof.
  intros Hu. unfold uint64, to_int.
  rewrite Zminus_mod_idemp_l.
  replace (u + 2 ^ 63 - 2 ^ 63) with u by lia.
  apply Z.mod_small. lia.
Qed.

Lemma itob_to_int u : 0 <= u < 2 ^ 64 -> itob (to_int u) = PutUint64 u.
Proof. intros Hu. unfold itob. by rewrite to_int_uint64. Qed.

Lemma int_add_small a : is_int a -> a < int_max -> int_add a 1 = a + 1.
Proof.
  unfold is_int, int_min, int_max, int_add, to_int. intros Ha Hlt.
  rewrite Z.mod_small by lia. lia.
Qed.

(** ** The state monad *)

Lemma bindM_Ok_inv {S A B} (m : M S A) (k : A -> M S B) s b s' :
  bindM m k s = (Ok b, s') ->
  exists a s1, m s = (Ok a, s1) /\ k a s1 = (Ok b, s').
Proof.
  unfold bindM. destruct (m s) as [[a|e|] s1]; intros E; [eauto | discriminate..].
Qed.

Lemma bindM_inv {S A B} (m : M S A) (k : A -> M S B) s r s' :
  bindM m k s = (r, s') ->
  (exists a s1, m s = (Ok a, s1) /\ k a s1 = (r, s'))
  \/ (is_Ok r = false /\ exists r1, is_Ok r1 = false /\ m s = (r1, s')).
Proof.
  unfold bindM. destruct (m s) as [[a|e|] s1] eqn:E; intros E1.
  - left. eauto.
  - right. injection E1 as <- <-. split; [done|]. by exists (Err e).
  - right. injection E1 as <- <-. split; [done|]. by exists Panic.
Qed.

Lemma lift_inv {S A} (o : outcome A) (s : S) r s' :
  lift o s = (r, s') -> o = r /\ s' = s.
Proof. unfold lift. by intros [= <- <-]. Qed.

Lemma bindO_Ok_inv {A B} (o : outcome A) (k : A -> outcome B) b :
  bindO o k = Ok b -> exists a, o = Ok a /\ k a = Ok b.
Proof. destruct o; simpl; intros E; [eauto | discriminate..]. Qed.

(** ** What a transaction body does to the database it runs on *)

Lemma tx_local_refl st : tx_local st st.
Proof.
  repeat split. exists []. split; [by rewrite app_nil_r | constructor].
Qed.

Lemma own_event_eq tx tx' e :
  tx_id tx' = tx_id tx -> tx_writable tx' = tx_writable tx ->
  own_event tx' e -> own_event tx e.
Proof. unfold own_event. intros -> ->. done. Qed.

Lemma tx_local_trans st1 st2 st3 :
  tx_local st1 st2 -> tx_local st2 st3 -> tx_local st1 st3.
Proof.
  intros (C1 & I1 & W1 & N1 & evs1 & T1 & F1) (C2 & I2 & W2 & N2 & evs2 & T2 & F2).
  repeat split; try congruence.
  exists (evs1 ++ evs2). split.
  - by rewrite T2, T1, app_assoc.
  - apply Forall_app. split; [done|].
    eapply Forall_impl; [exact F2|]. intros e. by apply own_event_eq.
Qed.

Lemma tx_local_step st st' : tx_local st st' -> tx_step st st'.
Proof.
  intros (C & I & W & N & evs & T & F). repeat split; try done.
  - lia.
  - exists evs. split; [done|].
    eapply Forall_impl; [exact F|]. intros e [E _]. by left.
Qed.

Lemma tx_step_trans st1 st2 st3 :
  tx_step st1 st2 -> tx_step st2 st3 -> tx_step st1 st3.
Proof.
  intros (C1 & I1 & N1 & evs1 & T1 & F1) (C2 & I2 & N2 & evs2 & T2 & F2).
  repeat split; try congruence; try lia.
  exists (evs1 ++ evs2). split.
  - by rewrite T2, T1, app_assoc.
  - apply Forall_app. split.
    + eapply Forall_impl; [exact F1|]. intros e [E|E]; [by left | right; lia].
    + eapply Forall_impl; [exact F2|]. intros e [E|E]; [left; congruence | right; lia].
Qed.

Lemma local_nested {A} (fn : M TxState A) : local fn -> nested fn.
Proof. intros Hl st r st' E. eapply tx_local_step, Hl, E. Qed.

Lemma local_bind {A B} (m : M TxState A) (k : A -> M TxState B) :
  local m -> (forall a, local (k a)) -> local (bindM m k).
Proof.
  intros Hm Hk st r st' E. apply bindM_inv in E as [(a & s1 & E1 & E2)|(_ & r1 & _ & E1)].
  - eapply tx_local_trans; [eapply Hm, E1 | eapply Hk, E2].
  - eapply Hm, E1.
Qed.

Lemma nested_bind {A B} (m : M TxState A) (k : A -> M TxState B) :
  nested m -> (forall a, nested (k a)) -> nested (bindM m k).
Proof.
  intros Hm Hk st r st' E. apply bindM_inv in E as [(a & s1 & E1 & E2)|(_ & r1 & _ & E1)].
  - eapply tx_step_trans; [eapply Hm, E1 | eapply Hk, E2].
  - eapply Hm, E1.
Qed.

Lemma local_ret {A} (a : A) : local (ret a).
Proof. intros st r st' [= <- <-]. apply tx_local_refl. Qed.

Lemma local_fail {A} e : local (fail (A := A) e).
Proof. intros st r st' [= <- <-]. apply tx_local_refl. Qed.

Lemma local_panic {A} : local (panic (A := A)).
Proof. intros st r st' [= <- <-]. apply tx_local_refl. Qed.

Lemma local_lift {A} (o : outcome A) : local (lift o).
Proof. intros st r st' [= <- <-]. apply tx_local_refl. Qed.

Lemma local_check err : local (check err).
Proof. destruct err; [apply local_fail | apply local_ret]. Qed.

Lemma local_get_tx : local get_tx.
Proof. intros st r st' [= <- <-]. apply tx_local_refl. Qed.

Lemma local_set_bucket name bd : local (set_bucket name bd).
Proof.
  intros st r st' [= <- <-]. repeat split. exists []. simpl.
  split; [by rewrite app_nil_r | constructor].
Qed.

Lemma local_with_bucket {A} b (f : string -> BucketData -> M TxState A) :
  (forall name bd, local (f name bd)) -> local (with_bucket b f).
Proof.
  intros Hf. destruct b as [name|]; [|apply local_panic].
  intros st r st'. simpl. destruct (tx_root (cur st) !! name) as [bd|].
  - apply Hf.
  - intros [= <- <-]. apply tx_local_refl.
Qed.

Lemma local_log_get name key : local (log (fun t => EvGet t name key)).
Proof.
  intros st r st' [= <- <-]. repeat split. simpl. eexists. split; [done|].
  by repeat constructor.
Qed.

Lemma local_log_foreach name : local (log (fun t => EvForEach t name)).
Proof.
  intros st r st' [= <- <-]. repeat split. simpl. eexists. split; [done|].
  by repeat constructor.
Qed.

(** The writing methods check that the transaction is writable before they
    record anything. *)
Lemma local_writing {A} (ev : nat -> Event) (k : M TxState A) :
  (forall t, tx_of (ev t) = t) -> local k ->
  local (let! _ := require_writable in let! _ := log ev in k).
Proof.
  intros Hev Hk st r st'. unfold bindM at 1, require_writable.
  destruct (tx_writable (cur st)) eqn:W; [|intros [= <- <-]; apply tx_local_refl].
  unfold bindM, log. intros E. apply Hk in E.
  eapply tx_local_trans; [|exact E].
  repeat split. simpl. eexists. split; [done|].
  repeat constructor; [apply Hev | congruence].
Qed.

Lemma local_bucket_Get b key : local (bucket_Get b key).
Proof.
  apply local_with_bucket. intros name bd.
  apply local_bind; [apply local_log_get | intros; apply local_ret].
Qed.

Lemma local_bucket_Put b key value : local (bucket_Put b key value).
Proof.
  apply local_with_bucket. intros name bd.
  intros st r st'. unfold bindM at 1, require_writable.
  destruct (tx_writable (cur st)) eqn:W; [|intros [= <- <-]; apply tx_local_refl].
  repeat case_decide; try (intros [= <- <-]; apply tx_local_refl).
  unfold bindM, log, set_bucket. intros [= <- <-].
  repeat split. simpl. eexists. split; [done|].
  repeat constructor. simpl. congruence.
Qed.

Lemma local_bucket_Delete b key : local (bucket_Delete b key).
Proof.
  apply local_with_bucket. intros name bd.
  apply local_writing; [done | apply local_set_bucket].
Qed.

Lemma local_bucket_NextSequence b : local (bucket_NextSequence b).
Proof.
  apply local_with_bucket. intros name bd.
  apply local_writing; [done|].
  apply local_bind; [apply local_set_bucket | intros; apply local_ret].
Qed.

Lemma local_bucket_ForEach {A} b (fn : bytes -> bytes -> A -> outcome A) init :
  local (bucket_ForEach b fn init).
Proof.
  apply local_with_bucket. intros name bd.
  apply local_bind; [apply local_log_foreach | intros; apply local_lift].
Qed.

Lemma local_get ID b : local (get ID b).
Proof.
  destruct b as [name|]; [|apply local_fail].
  apply local_bind; [apply local_bucket_Get|].
  intros [v|]; [apply local_ret | apply local_fail].
Qed.

Lemma local_get_each ids b : local (get_each ids b).
Proof.
  induction ids as [|id ids IH]; simpl; [apply local_ret|].
  apply local_bind; [apply local_get | intros; apply IH].
Qed.

Create HintDb txdb.

#[local] Hint Resolve local_ret local_fail local_panic local_lift local_check
  local_get_tx local_set_bucket local_bucket_Get local_bucket_Put
  local_bucket_Delete local_bucket_NextSequence local_bucket_ForEach
  local_get local_get_each : txdb.

Ltac local_tac :=
  repeat first
    [ progress cbn [Bucket bucket]
    | apply local_bind; [| intros ?]
    | solve [auto with txdb] ].

(** ** Transactions *)

Lemma view_events_all n evs :
  view_events n evs -> Forall (fun e => tx_of e = n /\ is_put e = false) evs.
Proof.
  intros (body & -> & F). constructor; [done|].
  apply Forall_app. split; [done | by repeat constructor].
Qed.

Lemma DB_View_local {A} (fn : M TxState A) d r d' :
  local fn -> DB_View fn d = (r, d') ->
  committed d' = committed d
  /\ tx_count d' = S (tx_count d)
  /\ exists evs, trace d' = trace d ++ evs /\ view_events (tx_count d) evs.
Proof.
  intros Hl. unfold DB_View.
  destruct (fn (begin false d)) as [r0 st] eqn:E. intros [= <- <-].
  apply Hl in E as (C & I & W & N & evs & T & F). simpl in *.
  repeat split; try done.
  exists (EvBegin (tx_count d) false :: evs ++ [EvRollback (tx_count d)]). split.
  - rewrite T, I. by rewrite <- !app_assoc.
  - exists evs. split; [done|].
    eapply Forall_impl; [exact F|]. intros e [E1 E2]. auto.
Qed.

Lemma view_grows d d' :
  tx_count d' = S (tx_count d) ->
  (exists evs, trace d' = trace d ++ evs /\ view_events (tx_count d) evs) ->
  grows d d'.
Proof.
  intros N (evs & T & V). split; [lia|]. exists evs. split; [done|].
  eapply Forall_impl; [apply view_events_all, V|]. intros e [E _]. simpl in E. lia.
Qed.

Lemma DB_View_reads {A} (fn : M TxState A) : local fn -> reads (DB_View fn).
Proof.
  intros Hl d r d' E. destruct (DB_View_local _ _ _ _ Hl E) as (C & N & T).
  split; [done | by apply view_grows].
Qed.

Lemma DB_Update_nested {A} (fn : M TxState A) d r d' :
  nested fn -> DB_Update fn d = (r, d') ->
  grows d d' /\ (is_Ok r = false -> committed d' = committed d).
Proof.
  intros Hn. unfold DB_Update.
  destruct (fn (begin true d)) as [r0 st] eqn:E.
  apply Hn in E as (C & I & N & evs & T & F). simpl in *.
  assert (G : forall root ev, tx_of ev = tx_count d ->
            grows d (close st root ev)).
  { intros root ev Hev. split; [simpl; lia|].
    exists (EvBegin (tx_count d) true :: evs ++ [ev]). split.
    - simpl. rewrite T. by rewrite <- !app_assoc.
    - simpl. constructor; [simpl; lia|]. apply Forall_app. split.
      + eapply Forall_impl; [exact F|]. intros e [E|E]; lia.
      + repeat constructor; lia. }
  destruct r0; intros [= <- <-]; (split; [apply G; simpl; congruence | simpl; done]).
Qed.

Lemma grows_refl d : grows d d.
Proof. split; [lia|]. exists []. split; [by rewrite app_nil_r | constructor]. Qed.

Lemma grows_trans d1 d2 d3 : grows d1 d2 -> grows d2 d3 -> grows d1 d3.
Proof.
  intros (N1 & evs1 & T1 & F1) (N2 & evs2 & T2 & F2). split; [lia|].
  exists (evs1 ++ evs2). split.
  - by rewrite T2, T1, app_assoc.
  - apply Forall_app. split; (eapply Forall_impl; [eassumption|]); intros e E; simpl in E; lia.
Qed.

Lemma nested_on_db {A} (m : M DB A) : reads m -> nested (on_db m).
Proof.
  intros Hr st r st'. unfold on_db.
  destruct (m (db st)) as [r0 d1] eqn:E. intros [= <- <-].
  apply Hr in E as (C & N & evs & T & F). simpl.
  repeat split; try done. exists evs. split; [done|].
  eapply Forall_impl; [exact F|]. intros e E. by right.
Qed.

Lemma reads_GetRawByID ID bucketName : reads (GetRawByID ID bucketName).
Proof. apply DB_View_reads. local_tac. Qed.

Lemma reads_GetRawAll bucketName : reads (GetRawAll bucketName).
Proof. apply DB_View_reads. local_tac. Qed.

(** What [GetRawByID] returns, from the committed buckets. *)
Lemma GetRawByID_result ID bucketName d :
  (GetRawByID ID bucketName d).1 =
    match committed d !! bucketName with
    | None => Err ErrBucketNil
    | Some bd =>
        match kv bd !! itob ID with
        | None => Err (ErrNotFound ID)
        | Some v => Ok v
        end
    end.
Proof.
  unfold GetRawByID, DB_View, bindM, get_tx, Bucket, tx_Bucket, check, get,
    bucket_Get, with_bucket, bindM, log, ret, fail. cbn.
  destruct (committed d !! bucketName) as [bd|] eqn:E; cbn; rewrite ?E; cbn; [|done].
  by destruct (kv bd !! itob ID).
Qed.

(** ** The hooks of the four services *)

Section service_facts.
Context {O : Opaque} {L : Library}.

Lemma validate_step_refl d : validate_step d d.
Proof. split; [done|]. exists []. split; [by rewrite app_nil_r | by left]. Qed.

Lemma validate_step_view {A} (fn : M TxState A) d r d' :
  local fn -> DB_View fn d = (r, d') -> validate_step d d'.
Proof.
  intros Hl E. destruct (DB_View_local _ _ _ _ Hl E) as (C & N & evs & T & V).
  split; [done|]. exists evs. split; [done|]. by right.
Qed.

Lemma Validate_step k m d r d' :
  Validate (service_of k) m d = (r, d') -> validate_step d d'.
Proof.
  destruct k; simpl.
  - intros [_ ->]%lift_inv. apply validate_step_refl.
  - intros [_ ->]%lift_inv. apply validate_step_refl.
  - unfold MediaRelationService_Validate. intros E.
    apply bindM_inv in E as [(e & s1 & [_ ->]%lift_inv & E)|(_ & r1 & _ & [_ ->]%lift_inv)].
    + eapply validate_step_view; [|exact E]. local_tac.
    + apply validate_step_refl.
  - unfold UserMediaService_Validate. intros E.
    apply bindM_inv in E as [(e & s1 & [_ ->]%lift_inv & E)|(_ & r1 & _ & [_ ->]%lift_inv)].
    + eapply validate_step_view; [|exact E]. local_tac.
    + apply validate_step_refl.
Qed.

Lemma validate_step_grows d d' : validate_step d d' -> grows d d'.
Proof.
  intros (C & evs & T & [[-> N]|[V N]]).
  - split; [lia|]. exists []. split; [done | constructor].
  - apply view_grows; eauto.
Qed.

Lemma Clean_Iden k m m1 : Clean (service_of k) m = Ok m1 -> Iden m1 = Iden m.
Proof.
  destruct k; simpl; intros E.
  - destruct m as [[]|]; try discriminate. by injection E as <-.
  - destruct m as [[]|]; try discriminate. cbn in E.
    destruct (infoListClean (Person_Names p)) as [? [?|]]; cbn in E; try discriminate.
    destruct (infoListClean (Person_Information p)) as [? [?|]]; cbn in E; try discriminate.
    by injection E as <-.
  - destruct m as [[]|]; try discriminate. by injection E as <-.
  - destruct m as [[]|]; try discriminate. cbn in E.
    destruct (infoListClean (UserMedia_Comments um)) as [? [?|]]; cbn in E; try discriminate.
    destruct (WatchedInstances_Clean (UserMedia_WatchedInstances um)); cbn in E; try discriminate.
    by injection E as <-.
Qed.

Lemma Initialize_spec k m id m' :
  Initialize (service_of k) m id = Ok m' ->
  exists e', m' = Some e' /\ Entity_Iden e' = id /\ Entity_Version e' = 0.
Proof.
  destruct k; simpl; intros E; destruct m as [[]|]; try discriminate;
    injection E as <-; eauto.
Qed.

Lemma PersistOldProperties_spec k n o m' :
  PersistOldProperties (service_of k) n o = Ok m' ->
  exists en eo e', n = Some en /\ o = Some eo /\ m' = Some e'
    /\ Entity_Iden e' = Entity_Iden en
    /\ Entity_Version e' = int_add (Entity_Version eo) 1.
Proof.
  destruct k; simpl; intros E; destruct n as [[]|]; try discriminate;
    destruct o as [[]|]; try discriminate; injection E as <-;
    do 3 eexists; repeat split.
Qed.

End service_facts.

(** ** Reading a successful run of a transaction body *)

Lemma get_Ok ID b st v st' :
  get ID b st = (Ok v, st') ->
  exists name bd, b = Some name /\ tx_root (cur st) !! name = Some bd
    /\ kv bd !! itob ID = Some v /\ cur st' = cur st.
Proof.
  destruct b as [name|]; [|discriminate].
  unfold get, bucket_Get, with_bucket, bindM, log, ret, fail. cbn.
  destruct (tx_root (cur st) !! name) as [bd|] eqn:E; [|discriminate].
  destruct (kv bd !! itob ID) as [v'|] eqn:Ev; intros [= <- <-].
  exists name, bd. done.
Qed.

Lemma bucket_Put_Ok b key value st u st' :
  bucket_Put b key value st = (Ok u, st') ->
  exists name bd, b = Some name /\ tx_root (cur st) !! name = Some bd
    /\ tx_root (cur st')
       = <[name := mkBucketData (<[key := value]> (kv bd)) (sequence bd)]> (tx_root (cur st)).
Proof.
  destruct b as [name|]; [|discriminate].
  unfold bucket_Put, with_bucket, bindM, require_writable, log, set_bucket, fail. cbn.
  destruct (tx_root (cur st) !! name) as [bd|] eqn:E; [|discriminate].
  destruct (tx_writable (cur st)); [|discriminate].
  repeat case_decide; try discriminate. intros [= <- <-].
  exists name, bd. done.
Qed.

Lemma bucket_NextSequence_Ok b st s st' :
  bucket_NextSequence b st = (Ok s, st') ->
  exists name bd, b = Some name /\ tx_root (cur st) !! name = Some bd
    /\ s = (sequence bd + 1) mod 2 ^ 64
    /\ tx_root (cur st') = <[name := mkBucketData (kv bd) s]> (tx_root (cur st)).
Proof.
  destruct b as [name|]; [|discriminate].
  unfold bucket_NextSequence, with_bucket, bindM, require_writable, log, set_bucket, ret. cbn.
  destruct (tx_root (cur st) !! name) as [bd|] eqn:E; [|discriminate].
  destruct (tx_writable (cur st)); [|discriminate].
  intros [= <- <-]. exists name, bd. done.
Qed.

Lemma tx_Bucket_Some tx name name' :
  tx_Bucket tx name = Some name' -> name' = name.
Proof. unfold tx_Bucket. destruct (tx_root tx !! name); by intros [= <-]. Qed.

Lemma DB_Update_Ok {A} (fn : M TxState A) d a d' :
  DB_Update fn d = (Ok a, d') ->
  exists st, fn (begin true d) = (Ok a, st) /\ committed d' = tx_root (cur st).
Proof.
  unfold DB_Update. destruct (fn (begin true d)) as [[a'|e|] st] eqn:E;
    intros [= <- <-]. by exists st.
Qed.

Tactic Notation "bind_ok" hyp(H) "as" simple_intropattern(a) ident(E1) :=
  let s := fresh "s" in
  apply bindM_Ok_inv in H as (a & s & E1 & H).

Lemma fst_bindM_fail {S A B} (m : M S A) (k : A -> M S B) s :
  is_Ok (m s).1 = false -> (bindM m k s).1 = match (m s).1 with
                                             | Ok _ => Panic
                                             | Err e => Err e
                                             | Panic => Panic
                                             end.
Proof. unfold bindM. by destruct (m s) as [[a|e|] s1]. Qed.

(** * The claims *)

(** C8, amended.  The 8-byte big-endian key of [itob] orders identifiers by
    their unsigned 64-bit view: the key of [a] is lexicographically smaller
    than the key of [b] exactly when [uint64 a < uint64 b].  For two
    identifiers of the same sign, in particular two non-negative ones, this
    is the numeric order [a < b]. *)
Theorem itob_order_unsigned (a b : int) :
  is_int a -> is_int b ->
  (bytes_lt (itob a) (itob b) = true <-> uint64 a < uint64 b)
  /\ ((0 <= a <-> 0 <= b) -> (a < b <-> bytes_lt (itob a) (itob b) = true)).
Proof.
  intros Ha Hb. split; [apply bytes_lt_itob|].
  intros Hsign. rewrite bytes_lt_itob.
  unfold is_int in *.
  destruct (Z_lt_le_dec a 0) as [Na|Pa].
  - assert (b < 0) by lia.
    rewrite (uint64_neg a), (uint64_neg b) by lia. lia.
  - assert (0 <= b) by lia.
    rewrite (uint64_nonneg a), (uint64_nonneg b) by lia. lia.
Qed.

(** The keys of 1 and 2. *)
Lemma itob_order_unsigned_witness :
  is_int 1 /\ is_int 2 /\ (1 < 2 <-> bytes_lt (itob 1) (itob 2) = true).
Proof.
  assert (H1 : is_int 1) by (unfold is_int, int_min, int_max; lia).
  assert (H2 : is_int 2) by (unfold is_int, int_min, int_max; lia).
  refine (conj H1 (conj H2 (proj2 (itob_order_unsigned 1 2 H1 H2) _))). lia.
Defined.

(** C8 as stated fails on a negative identifier: -1 is less than 0 and its
    key, eight bytes 0xff, is the greatest key. *)
Lemma itob_order_counterexample :
  ~ ((-1 < 0) <-> bytes_lt (itob (-1)) (itob 0) = true).
Proof.
  intros [H _]. specialize (H ltac:(lia)). vm_compute in H. discriminate.
Qed.

Section claims.
Context {O : Opaque} {L : Library}.

(** C10.  [Validate] of MediaService and of PersonService returns no error
    on every non-nil value of its own type, whatever the fields of the
    value and whatever the database holds; it reads nothing and records
    nothing.  The type assertion is all it does: only the nil model and a
    value of another type are refused. *)
Theorem Validate_accepts_every_Media_and_Person (d : DB) :
  (forall md : Media, MediaService_Validate (Some (EMedia md)) d = (Ok tt, d))
  /\ (forall p : Person, PersonService_Validate (Some (EPerson p)) d = (Ok tt, d))
  /\ (forall m r d', MediaService_Validate m d = (r, d') ->
        d' = d
        /\ (r = Ok tt <-> exists md, m = Some (EMedia md))
        /\ (m = None -> r = Err ErrModelNil))
  /\ (forall m r d', PersonService_Validate m d = (r, d') ->
        d' = d
        /\ (r = Ok tt <-> exists p, m = Some (EPerson p))
        /\ (m = None -> r = Err ErrModelNil)).
Proof.
  repeat apply conj; try reflexivity.
  - intros m r d' [<- ->]%lift_inv. split; [done|].
    destruct m as [[]|]; simpl; (split; [split|]);
      first [ discriminate | by eauto | by intros (? & [=]) ].
  - intros m r d' [<- ->]%lift_inv. split; [done|].
    destruct m as [[]|]; simpl; (split; [split|]);
      first [ discriminate | by eauto | by intros (? & [=]) ].
Qed.

Lemma Delete_bucket_missing id ser d :
  committed d !! Service_Bucket ser = None -> (Delete id ser d).1 = Panic.
Proof.
  intros E. unfold Delete, DB_Update, bindM, get_tx, Bucket, tx_Bucket. cbn.
  by rewrite E.
Qed.

Lemma Delete_bucket_present id ser d bd :
  committed d !! Service_Bucket ser = Some bd ->
  exists d', Delete id ser d = (Ok tt, d')
    /\ committed d'
       = <[Service_Bucket ser := mkBucketData (delete (itob id) (kv bd)) (sequence bd)]>
           (committed d).
Proof.
  intros E.
  unfold Delete, DB_Update, bindM, get_tx, Bucket, tx_Bucket, check, ret,
    bucket_Delete, with_bucket, bindM, require_writable, log, set_bucket.
  cbn. rewrite E. cbn. rewrite E. cbn. eexists. split; reflexivity.
Qed.

(** C9.  [Bucket] never returns an error, and returns the nil handle when
    the bucket does not exist.  [get] answers a nil handle with the error
    "bucket must not be nil" (so does [GetRawByID]); [Delete], the scan of
    [GetRawAll] and [Create] call a method on the nil handle and panic. *)
Theorem Bucket_never_returns_an_error :
  (forall name tx, (Bucket name tx).2 = None)
  /\ (forall name tx, tx_root tx !! name = None -> (Bucket name tx).1 = None)
  /\ (forall ID st, get ID None st = (Err ErrBucketNil, st))
  /\ (forall ID name d, committed d !! name = None ->
        (GetRawByID ID name d).1 = Err ErrBucketNil)
  /\ (forall id ser d, committed d !! Service_Bucket ser = None ->
        (Delete id ser d).1 = Panic)
  /\ (forall name d, committed d !! name = None -> (GetRawAll name d).1 = Panic)
  /\ (forall md d, committed d !! MediaBucket = None ->
        (Create (Some (EMedia md)) MediaService d).1 = Panic).
Proof.
  repeat split.
  - intros name tx E. unfold Bucket, tx_Bucket. simpl. by rewrite E.
  - intros ID name d E. by rewrite GetRawByID_result, E.
  - intros id ser d E. by apply Delete_bucket_missing.
  - intros name d E.
    unfold GetRawAll, DB_View, bindM, get_tx, Bucket, tx_Bucket. cbn. by rewrite E.
  - intros md d E.
    unfold Create, Create_body, DB_Update, bindM, get_tx, Bucket, tx_Bucket. cbn.
    by rewrite E.
Qed.

(** C5.  When the service's bucket exists, [Delete] of any id returns no
    error, whether or not the key is there; afterwards the bucket has no
    value under the key of that id, a lookup of the id reports not found,
    and a second [Delete] returns no error and changes nothing.  When the
    key was absent the first [Delete] changes nothing either. *)
Theorem Delete_is_idempotent (id : int) (ser : Service) (d : DB) (bd : BucketData) :
  committed d !! Service_Bucket ser = Some bd ->
  exists d',
    Delete id ser d = (Ok tt, d')
    /\ committed d'
       = <[Service_Bucket ser := mkBucketData (delete (itob id) (kv bd)) (sequence bd)]>
           (committed d)
    /\ (forall bd', committed d' !! Service_Bucket ser = Some bd' ->
          kv bd' !! itob id = None)
    /\ (GetRawByID id (Service_Bucket ser) d').1 = Err (ErrNotFound id)
    /\ (kv bd !! itob id = None -> committed d' = committed d)
    /\ exists d'', Delete id ser d' = (Ok tt, d'') /\ committed d'' = committed d'.
Proof.
  intros E.
  destruct (Delete_bucket_present id ser d bd E) as (d' & E1 & C1).
  exists d'. split; [done|]. split; [done|].
  assert (E' : committed d' !! Service_Bucket ser
               = Some (mkBucketData (delete (itob id) (kv bd)) (sequence bd))).
  { rewrite C1. apply lookup_insert_eq. }
  repeat split.
  - intros bd' Hbd'. rewrite E' in Hbd'. injection Hbd' as <-. simpl.
    apply lookup_delete_eq.
  - rewrite GetRawByID_result, E'. simpl. by rewrite lookup_delete_eq.
  - intros Habs. rewrite C1. apply insert_id. rewrite E. f_equal.
    destruct bd as [m s]. simpl in *. by rewrite delete_id.
  - destruct (Delete_bucket_present id ser d' _ E') as (d'' & E2 & C2).
    exists d''. split; [done|]. rewrite C2. simpl.
    apply insert_id. rewrite E'. simpl.
    by rewrite delete_delete_eq.
Qed.


(** ** The shape shared by [Create] and [Update]: clean, validate, then one
    write transaction *)

Lemma Create_guarded m ser : Create m ser = guarded ser (Create_body ser) m.
Proof. reflexivity. Qed.

Lemma Update_guarded m ser : Update m ser = guarded ser (Update_body ser) m.
Proof. reflexivity. Qed.

Lemma local_Create_body ser m : local (Create_body ser m).
Proof. unfold Create_body. local_tac. Qed.

Lemma nested_Update_body ser m : nested (Update_body ser m).
Proof.
  unfold Update_body.
  apply nested_bind; [apply local_nested, local_lift | intros k].
  apply nested_bind; [apply nested_on_db, reads_GetRawByID | intros v].
  apply local_nested. local_tac.
Qed.

Lemma guarded_inv {A} k (fn : Model -> M TxState A) m d r d' :
  guarded (service_of k) fn m d = (r, d') ->
  (is_Ok (Clean (service_of k) m) = false /\ is_Ok r = false /\ d' = d)
  \/ exists m1 rv dv,
       Clean (service_of k) m = Ok m1
       /\ Validate (service_of k) m1 d = (rv, dv)
       /\ validate_step d dv
       /\ ((is_Ok rv = false /\ is_Ok r = false /\ d' = dv)
           \/ (rv = Ok tt /\ DB_Update (fn m1) dv = (r, d'))).
Proof.
  unfold guarded. intros E.
  apply bindM_inv in E as [(m1 & s1 & [E1 ->]%lift_inv & E)|(Hr & r1 & Hr1 & [<- ->]%lift_inv)];
    [|left; done].
  right. exists m1.
  destruct (Validate (service_of k) m1 d) as [rv dv] eqn:Ev.
  exists rv, dv. split; [done|]. split; [done|].
  split; [eapply Validate_step, Ev|].
  apply bindM_inv in E as [(u & s2 & E2 & E)|(Hr & r1 & Hr1 & E2)].
  - right. rewrite Ev in E2. injection E2 as -> ->. by destruct u.
  - left. rewrite Ev in E2. injection E2 as -> ->. done.
Qed.

Lemma guarded_fail {A} k (fn : Model -> M TxState A) m d r d' :
  (forall m1, nested (fn m1)) ->
  guarded (service_of k) fn m d = (r, d') ->
  is_Ok r = false -> committed d' = committed d.
Proof.
  intros Hn E Hr.
  apply guarded_inv in E
    as [(_ & _ & ->)|(m1 & rv & dv & _ & _ & [C _] & [(_ & _ & ->)|[_ E]])]; try done.
  apply DB_Update_nested in E as [_ E]; [|apply Hn]. rewrite E; done.
Qed.

(** C4.  A [Create] or an [Update] of the generic engine that does not end
    well (an error of [Clean], of [Validate], a missing old value, an error
    of a hook inside the transaction or of [Put], or a panic) leaves the
    committed buckets as they were, keys, values and sequence counters.  So
    do the per-entity functions of pkg/data, whose whole body is one write
    transaction.  A MediaRelation whose OwnerID addresses no stored Media is
    such a failing call. *)
Theorem failed_write_leaves_the_store_unchanged (d : DB) :
  (forall k m, is_Ok (Create m (service_of k) d).1 = false ->
     committed (Create m (service_of k) d).2 = committed d)
  /\ (forall k m, is_Ok (Update m (service_of k) d).1 = false ->
        committed (Update m (service_of k) d).2 = committed d)
  /\ (forall mp, is_Ok (MediaProducerCreate mp d).1 = false ->
        committed (MediaProducerCreate mp d).2 = committed d)
  /\ (forall mp, is_Ok (MediaProducerUpdate mp d).1 = false ->
        committed (MediaProducerUpdate mp d).2 = committed d)
  /\ (forall ep, is_Ok (EpisodeCreate ep d).1 = false ->
        committed (EpisodeCreate ep d).2 = committed d)
  /\ (forall ep, is_Ok (EpisodeUpdate ep d).1 = false ->
        committed (EpisodeUpdate ep d).2 = committed d)
  /\ (forall mr mb, committed d !! MediaBucket = Some mb ->
        kv mb !! itob (MediaRelation_OwnerID mr) = None ->
        (Create (Some (EMediaRelation mr)) MediaRelationService d).1
          = Err (ErrNotFound (MediaRelation_OwnerID mr))
        /\ (Update (Some (EMediaRelation mr)) MediaRelationService d).1
          = Err (ErrNotFound (MediaRelation_OwnerID mr))).
Proof.
  assert (Hup : forall A (fn : M TxState A), nested fn ->
            is_Ok (DB_Update fn d).1 = false ->
            committed (DB_Update fn d).2 = committed d).
  { intros A fn Hn Hr. destruct (DB_Update fn d) as [r d'] eqn:E.
    apply DB_Update_nested in E as [_ E]; auto. }
  repeat apply conj.
  - intros k m Hr. rewrite Create_guarded in *.
    destruct (guarded _ _ m d) as [r d'] eqn:E.
    eapply guarded_fail; [|exact E|exact Hr].
    intros m1. apply local_nested, local_Create_body.
  - intros k m Hr. rewrite Update_guarded in *.
    destruct (guarded _ _ m d) as [r d'] eqn:E.
    eapply guarded_fail; [|exact E|exact Hr].
    intros m1. apply nested_Update_body.
  - intros mp. apply Hup, local_nested. local_tac.
  - intros mp. apply Hup, local_nested. local_tac.
    match goal with
    | |- context [json_Unmarshal ?x] => destruct (json_Unmarshal x) as [old e]
    end. local_tac.
  - intros ep. apply Hup, local_nested. local_tac.
  - intros ep. apply Hup, local_nested. local_tac.
  - intros mr mb Hmb Habs.
    assert (Hv : forall m1, (MediaRelationService_Validate
                  (Some (EMediaRelation
                     (mkMediaRelation (MediaRelation_ID mr) (MediaRelation_OwnerID mr)
                        (MediaRelation_RelatedID mr) m1 (MediaRelation_Version mr)))) d).1
                = Err (ErrNotFound (MediaRelation_OwnerID mr))).
    { intros m1.
      unfold MediaRelationService_Validate, DB_View, bindM, lift, get_tx, Bucket,
        tx_Bucket, check, get, bucket_Get, with_bucket, bindM, log, ret, fail.
      cbn. rewrite Hmb. cbn. rewrite Hmb. cbn. by rewrite Habs. }
    split.
    + unfold Create. unfold bindM at 1. cbn -[bindM MediaRelationService_Validate].
      rewrite fst_bindM_fail; by rewrite Hv.
    + unfold Update. unfold bindM at 1. cbn -[bindM MediaRelationService_Validate].
      rewrite fst_bindM_fail; by rewrite Hv.
Qed.




(** ** The trace of a guarded write *)

Lemma guarded_validated_apart {A} k (fn : Model -> M TxState A) m d :
  (forall m1, nested (fn m1)) ->
  validated_apart (service_of k) m d (guarded (service_of k) fn m d).2.
Proof.
  intros Hn. destruct (guarded _ _ m d) as [r d'] eqn:E. simpl.
  apply guarded_inv in E
    as [(Hc & Hr & ->)|(m1 & rv & dv & Hc & Hv & (C & evs & T & Hevs) & Hw)].
  { exists [], []. rewrite !app_nil_r. repeat split; auto.
    intros m1 Hc1. rewrite Hc1 in Hc. discriminate. }
  assert (Hall : Forall (fun e => tx_of e = tx_count d /\ is_put e = false) evs).
  { destruct Hevs as [[-> _]|[V _]]; [constructor | by apply view_events_all]. }
  assert (Hshape : evs = [] \/ view_events (tx_count d) evs).
  { destruct Hevs as [[-> _]|[V _]]; auto. }
  assert (Hval : forall m2, Clean (service_of k) m = Ok m2 ->
            trace (Validate (service_of k) m2 d).2 = trace d ++ evs).
  { intros m2 Hc2. rewrite Hc2 in Hc. injection Hc as ->. by rewrite Hv. }
  destruct Hw as [(Hrv & Hr & ->)|[-> E]].
  { exists evs, []. rewrite app_nil_r. repeat split; auto. }
  apply DB_Update_nested in E as [(N & evs_w & Tw & Fw) _]; [|apply Hn].
  exists evs, evs_w. repeat split; auto.
  - by rewrite Tw, T, app_assoc.
  - eapply Forall_impl; [exact Fw|]. intros e He e' He'.
    rewrite Forall_forall in Hall. destruct (Hall e' He') as [-> _].
    destruct Hevs as [[-> _]|[_ N']]; [by apply elem_of_nil in He'|].
    simpl in He. lia.
Qed.

Lemma DB_Update_in_one_transaction {A} (fn : M TxState A) d :
  local fn -> in_one_transaction d (DB_Update fn d).2.
Proof.
  intros Hl. unfold DB_Update.
  destruct (fn (begin true d)) as [r st] eqn:E.
  apply Hl in E as (C & I & W & N & evs & T & F). simpl in *.
  assert (G : forall root ev, tx_of ev = tx_count d ->
            in_one_transaction d (close st root ev)).
  { intros root ev Hev. exists (EvBegin (tx_count d) true :: evs ++ [ev]). split.
    - simpl. rewrite T. by rewrite <- !app_assoc.
    - constructor; [done|]. apply Forall_app. split.
      + eapply Forall_impl; [exact F|]. by intros e [E _].
      + by repeat constructor. }
  destruct r; simpl; apply G; simpl; congruence.
Qed.

(** ** Where the writes of a call are recorded *)

Lemma get_not_writes e : is_get e = true -> ~ writes e.
Proof. destruct e; try discriminate. intros _ [H|H]; discriminate. Qed.

Lemma lookups_only_bind {A B} (m : M TxState A) (k : A -> M TxState B) :
  lookups_only m -> (forall a, lookups_only (k a)) -> lookups_only (bindM m k).
Proof.
  intros Hm Hk st r st' E. apply bindM_inv in E as [(a & s1 & E1 & E2)|(_ & r1 & _ & E1)].
  - destruct (Hm _ _ _ E1) as (I1 & evs1 & T1 & F1).
    destruct (Hk _ _ _ _ E2) as (I2 & evs2 & T2 & F2).
    split; [congruence|]. exists (evs1 ++ evs2). split.
    + by rewrite T2, T1, app_assoc.
    + by apply Forall_app.
  - eapply Hm, E1.
Qed.

Lemma lookups_only_pure {A} (fn : M TxState A) :
  (forall st, (fn st).2 = st) -> lookups_only fn.
Proof.
  intros H st r st' E. pose proof (H st) as H1. rewrite E in H1. simpl in H1. subst st'.
  split; [done|]. exists []. split; [by rewrite app_nil_r | constructor].
Qed.

Lemma lookups_only_get ID b : lookups_only (get ID b).
Proof.
  destruct b as [name|]; [|by apply lookups_only_pure].
  intros st r st'. unfold get, bucket_Get, with_bucket, bindM, log, ret, fail. cbn.
  destruct (tx_root (cur st) !! name) as [bd|]; [|intros [= <- <-]].
  - destruct (kv bd !! itob ID); intros [= <- <-]; (split; [done|]);
      eexists; (split; [reflexivity|]); by repeat constructor.
  - split; [done|]. exists []. split; [by rewrite app_nil_r | constructor].
Qed.

Lemma lookups_only_get_each ids b : lookups_only (get_each ids b).
Proof.
  induction ids as [|id ids IH]; simpl; [by apply lookups_only_pure|].
  apply lookups_only_bind; [apply lookups_only_get | intros; apply IH].
Qed.

Lemma DB_View_lookups {A} (fn : M TxState A) d r d' :
  lookups_only fn -> DB_View fn d = (r, d') ->
  exists evs, trace d' = trace d ++ evs /\ Forall (fun e => ~ writes e) evs.
Proof.
  intros Hl. unfold DB_View.
  destruct (fn (begin false d)) as [r0 st] eqn:E. intros [= <- <-].
  apply Hl in E as (I & evs & T & F). simpl in *.
  exists (EvBegin (tx_count d) false :: evs ++ [EvRollback (tx_id (cur st))]). split.
  - rewrite T. by rewrite <- !app_assoc.
  - constructor; [by intros [H|H]|]. apply Forall_app. split.
    + eapply Forall_impl; [exact F|]. intros e. apply get_not_writes.
    + repeat constructor. by intros [H|H].
Qed.

Lemma lookups_only_GetRawByID_body ID name :
  lookups_only (let! tx := get_tx in
                let '(b, err) := Bucket name tx in
                let! _ := check err in
                get ID b).
Proof.
  apply lookups_only_bind; [by apply lookups_only_pure | intros tx]. cbn [Bucket].
  apply lookups_only_bind; [by apply lookups_only_pure | intros _].
  apply lookups_only_get.
Qed.

Lemma local_writes_own {A} (fn : M TxState A) : local fn -> writes_own fn.
Proof.
  intros Hl st r st' E. apply Hl in E as (_ & I & _ & _ & evs & T & F).
  split; [done|]. exists evs. split; [done|].
  eapply Forall_impl; [exact F|]. by intros e [E _] _.
Qed.

Lemma writes_own_bind {A B} (m : M TxState A) (k : A -> M TxState B) :
  writes_own m -> (forall a, writes_own (k a)) -> writes_own (bindM m k).
Proof.
  intros Hm Hk st r st' E. apply bindM_inv in E as [(a & s1 & E1 & E2)|(_ & r1 & _ & E1)].
  - destruct (Hm _ _ _ E1) as (I1 & evs1 & T1 & F1).
    destruct (Hk _ _ _ _ E2) as (I2 & evs2 & T2 & F2).
    split; [congruence|]. exists (evs1 ++ evs2). split.
    + by rewrite T2, T1, app_assoc.
    + apply Forall_app. split; [done|].
      eapply Forall_impl; [exact F2|]. intros e He Hw. rewrite <- I1. by apply He.
  - eapply Hm, E1.
Qed.

Lemma writes_own_on_db_GetRawByID ID name : writes_own (on_db (GetRawByID ID name)).
Proof.
  intros st r st'. unfold on_db.
  destruct (GetRawByID ID name (db st)) as [r0 d1] eqn:E. intros [= <- <-].
  split; [done|]. simpl.
  apply DB_View_lookups in E as (evs & T & F); [|apply lookups_only_GetRawByID_body].
  exists evs. split; [done|].
  eapply Forall_impl; [exact F|]. by intros e He Hw.
Qed.

Lemma writes_own_Create_body ser m : writes_own (Create_body ser m).
Proof. apply local_writes_own, local_Create_body. Qed.

Lemma writes_own_Update_body ser m : writes_own (Update_body ser m).
Proof.
  unfold Update_body.
  apply writes_own_bind; [apply local_writes_own, local_lift | intros k].
  apply writes_own_bind; [apply writes_own_on_db_GetRawByID | intros v].
  apply local_writes_own. local_tac.
Qed.

Lemma Validate_lookups k m d r d' :
  Validate (service_of k) m d = (r, d') ->
  exists evs, trace d' = trace d ++ evs /\ Forall (fun e => ~ writes e) evs.
Proof.
  assert (Hrefl : forall d0 : DB,
            exists evs, trace d0 = trace d0 ++ evs /\ Forall (fun e => ~ writes e) evs).
  { intros d0. exists []. split; [by rewrite app_nil_r | constructor]. }
  destruct k; simpl.
  - intros [_ ->]%lift_inv. apply Hrefl.
  - intros [_ ->]%lift_inv. apply Hrefl.
  - unfold MediaRelationService_Validate. intros E.
    apply bindM_inv in E as [(e & s1 & [_ ->]%lift_inv & E)|(_ & r1 & _ & [_ ->]%lift_inv)];
      [|apply Hrefl].
    eapply DB_View_lookups; [|exact E].
    apply lookups_only_bind; [by apply lookups_only_pure | intros tx]. cbn [Bucket].
    apply lookups_only_bind; [by apply lookups_only_pure | intros _].
    apply lookups_only_bind; [apply lookups_only_get | intros _].
    apply lookups_only_bind; [apply lookups_only_get | intros _].
    by apply lookups_only_pure.
  - unfold UserMediaService_Validate. intros E.
    apply bindM_inv in E as [(e & s1 & [_ ->]%lift_inv & E)|(_ & r1 & _ & [_ ->]%lift_inv)];
      [|apply Hrefl].
    eapply DB_View_lookups; [|exact E].
    apply lookups_only_bind; [by apply lookups_only_pure | intros tx]. cbn [Bucket].
    apply lookups_only_bind; [by apply lookups_only_pure | intros _].
    apply lookups_only_bind; [apply lookups_only_get | intros _].
    apply lookups_only_bind; [by apply lookups_only_pure | intros _].
    apply lookups_only_bind; [apply lookups_only_get | intros _].
    apply lookups_only_bind; [by apply lookups_only_pure | intros _].
    apply lookups_only_get_each.
Qed.

(** The trace of a write transaction: opened, the events of the body,
    closed by the commit or the rollback. *)
Lemma DB_Update_writes_own {A} (fn : M TxState A) d r d' :
  writes_own fn -> DB_Update fn d = (r, d') ->
  exists body last,
    trace d' = trace d ++ EvBegin (tx_count d) true :: body ++ [last]
    /\ (last = EvCommit (tx_count d) \/ last = EvRollback (tx_count d))
    /\ Forall (fun e => writes e -> tx_of e = tx_count d) body.
Proof.
  intros Hw. unfold DB_Update.
  destruct (fn (begin true d)) as [r0 st] eqn:E.
  apply Hw in E as (I & evs & T & F). simpl in *.
  destruct r0; intros [= <- <-]; simpl; rewrite T, I;
    eexists evs, _; (split; [by rewrite <- !app_assoc|]); (split; [|done]); auto.
Qed.

Lemma guarded_one_write_transaction {A} k (fn : Model -> M TxState A) m d :
  (forall m1, writes_own (fn m1)) ->
  one_write_transaction (service_of k) m d (guarded (service_of k) fn m d).2.
Proof.
  intros Hw. destruct (guarded _ _ m d) as [r d'] eqn:E. simpl.
  apply guarded_inv in E
    as [(Hc & Hr & ->)|(m1 & rv & dv & Hc & Hv & (C & evs & T & Hevs) & Hrest)].
  { exists [], [], 0%nat. rewrite !app_nil_r. repeat split; auto.
    intros m1 Hc1. rewrite Hc1 in Hc. discriminate. }
  assert (Hval : forall m2, Clean (service_of k) m = Ok m2 ->
            trace (Validate (service_of k) m2 d).2 = trace d ++ evs).
  { intros m2 Hc2. rewrite Hc2 in Hc. injection Hc as ->. by rewrite Hv. }
  assert (Hquiet : Forall (fun e => ~ writes e) evs).
  { destruct (Validate_lookups _ _ _ _ _ Hv) as (evs' & T' & F').
    rewrite T in T'. by apply app_inv_head in T' as ->. }
  assert (Hbefore : forall n, (tx_count dv <= n)%nat ->
            Forall (fun e => (tx_of e < n)%nat /\ ~ writes e) evs).
  { intros n Hn. apply Forall_and. split; [|done].
    destruct Hevs as [[-> _]|[V N]]; [constructor|].
    eapply Forall_impl; [apply view_events_all, V|]. intros e [He _]. simpl in *. lia. }
  destruct Hrest as [(Hrv & Hr & ->)|[-> E]].
  { exists evs, [], (tx_count dv). rewrite app_nil_r. repeat split; auto. }
  destruct (DB_Update_writes_own _ _ _ _ (Hw m1) E) as (body & last & Tw & Hlast & Fw).
  exists evs, (EvBegin (tx_count dv) true :: body ++ [last]), (tx_count dv).
  split; [by rewrite Tw, T, <- app_assoc|]. split; [done|]. split; [by apply Hbefore|].
  split; [right; by exists body, last|].
  constructor; [done|]. apply Forall_app. split; [done|].
  repeat constructor. by destruct Hlast as [-> | ->].
Qed.

Lemma guarded_Create_in_one_transaction k m m1 d dv :
  Clean (service_of k) m = Ok m1 ->
  Validate (service_of k) m1 d = (Ok tt, dv) ->
  in_one_transaction dv (Create m (service_of k) d).2.
Proof.
  intros Hc Hv. unfold Create, bindM at 1. unfold lift at 1. rewrite Hc.
  unfold bindM. rewrite Hv.
  apply DB_Update_in_one_transaction, local_Create_body.
Qed.

Lemma bucket_NextSequence_events b st id st' :
  bucket_NextSequence b st = (Ok id, st') ->
  exists name, b = Some name /\ tx_id (cur st') = tx_id (cur st)
    /\ tx_count (db st') = tx_count (db st)
    /\ trace (db st') = trace (db st) ++ [EvNextSequence (tx_id (cur st)) name].
Proof.
  destruct b as [name|]; [|discriminate].
  unfold bucket_NextSequence, with_bucket, bindM, require_writable, log, set_bucket, ret.
  destruct (tx_root (cur st) !! name); [|discriminate].
  destruct (tx_writable (cur st)); [|discriminate].
  cbn. intros [= <- <-]. by exists name.
Qed.

Lemma bucket_Put_events b key value st u st' :
  bucket_Put b key value st = (Ok u, st') ->
  exists name, b = Some name /\ tx_id (cur st') = tx_id (cur st)
    /\ trace (db st') = trace (db st) ++ [EvPut (tx_id (cur st)) name key value].
Proof.
  destruct b as [name|]; [|discriminate].
  unfold bucket_Put, with_bucket, bindM, require_writable, log, set_bucket, fail.
  destruct (tx_root (cur st) !! name); [|discriminate].
  destruct (tx_writable (cur st)); [|discriminate].
  repeat (destruct (decide _); [discriminate|]).
  cbn. intros [= <- <-]. by exists name.
Qed.

Lemma on_db_GetRawByID_events ID name st v st' :
  on_db (GetRawByID ID name) st = (Ok v, st') ->
  cur st' = cur st
  /\ trace (db st')
     = trace (db st)
       ++ [EvBegin (tx_count (db st)) false; EvGet (tx_count (db st)) name (itob ID);
           EvRollback (tx_count (db st))].
Proof.
  unfold on_db, GetRawByID, DB_View, begin, close, bindM, get_tx. cbn.
  unfold tx_Bucket. cbn.
  destruct (committed (db st) !! name) as [bd|] eqn:Hbd; cbn; [|discriminate].
  unfold bindM, log, ret, fail. cbn. rewrite Hbd. cbn.
  destruct (kv bd !! itob ID); cbn; [|discriminate].
  intros [= <- <-]. cbn. by rewrite <- !app_assoc.
Qed.

Lemma Create_body_events ser m st m' st' :
  Create_body ser m st = (Ok m', st') ->
  tx_id (cur st') = tx_id (cur st)
  /\ exists k value,
       Iden m' = Ok k /\ Marshal ser m' = Ok value
       /\ trace (db st')
          = trace (db st)
            ++ [EvNextSequence (tx_id (cur st)) (Service_Bucket ser);
                EvPut (tx_id (cur st)) (Service_Bucket ser) (itob k) value].
Proof.
  unfold Create_body. intros E.
  bind_ok E as tx Htx. injection Htx as <- <-.
  cbn [Bucket] in E.
  bind_ok E as u Hu. injection Hu as <- <-.
  bind_ok E as id Hseq.
  apply bucket_NextSequence_events in Hseq as (name & Hname & I1 & _ & T1).
  bind_ok E as m2 Hi. apply lift_inv in Hi as [Hi ->].
  bind_ok E as buf Hm. apply lift_inv in Hm as [Hm ->].
  bind_ok E as k2 Hid2. apply lift_inv in Hid2 as [Hid2 ->].
  bind_ok E as u Hput. apply bucket_Put_events in Hput as (name' & Hname' & I2 & T2).
  injection E as <- <-.
  rewrite Hname in Hname'. injection Hname' as <-.
  apply tx_Bucket_Some in Hname as ->.
  split; [congruence|]. exists k2, buf. repeat split; try done.
  by rewrite T2, T1, I1, <- app_assoc.
Qed.

Lemma Update_body_events kd m st m' st' :
  Update_body (service_of kd) m st = (Ok m', st') ->
  tx_id (cur st') = tx_id (cur st)
  /\ exists k value,
       Iden m = Ok k /\ Iden m' = Ok k /\ Marshal (service_of kd) m' = Ok value
       /\ trace (db st')
          = trace (db st)
            ++ [EvBegin (tx_count (db st)) false;
                EvGet (tx_count (db st)) (Service_Bucket (service_of kd)) (itob k);
                EvRollback (tx_count (db st));
                EvPut (tx_id (cur st)) (Service_Bucket (service_of kd)) (itob k) value].
Proof.
  unfold Update_body. intros E.
  bind_ok E as k0 Hid. apply lift_inv in Hid as [Hid ->].
  bind_ok E as v Hv. apply on_db_GetRawByID_events in Hv as (Hcur & T1).
  bind_ok E as o Ho. apply lift_inv in Ho as [Ho ->].
  bind_ok E as tx Htx. injection Htx as <- <-.
  cbn [Bucket] in E.
  bind_ok E as u Hu. injection Hu as <- <-.
  bind_ok E as m2 Hp. apply lift_inv in Hp as [Hp ->].
  bind_ok E as buf Hm. apply lift_inv in Hm as [Hm ->].
  bind_ok E as k2 Hid2. apply lift_inv in Hid2 as [Hid2 ->].
  bind_ok E as u Hput. apply bucket_Put_events in Hput as (name & Hname & I2 & T2).
  injection E as <- <-.
  apply tx_Bucket_Some in Hname as ->.
  assert (k2 = k0) as ->.
  { apply PersistOldProperties_spec in Hp as (en & eo & e' & -> & -> & -> & Hi & Hver).
    simpl in Hid, Hid2. congruence. }
  split; [congruence|]. exists k0, buf. repeat split; try done.
  rewrite T2, T1, Hcur, <- app_assoc. done.
Qed.

Lemma guarded_Ok_events {A} k (fn : Model -> M TxState A) m d a :
  (guarded (service_of k) fn m d).1 = Ok a ->
  exists m1 st,
    Clean (service_of k) m = Ok m1
    /\ (Validate (service_of k) m1 d).1 = Ok tt
    /\ fn m1 (begin true (Validate (service_of k) m1 d).2) = (Ok a, st)
    /\ trace (guarded (service_of k) fn m d).2
       = trace (db st) ++ [EvCommit (tx_id (cur st))].
Proof.
  destruct (guarded _ _ m d) as [r d'] eqn:E. simpl. intros ->.
  apply guarded_inv in E
    as [(_ & Hr & _)|(m1 & rv & dv & Hc & Hv & _ & [(_ & Hr & _)|[-> E]])];
    try discriminate.
  exists m1. rewrite Hv. simpl.
  unfold DB_Update in E. destruct (fn m1 (begin true dv)) as [[a'|e|] st] eqn:Ef;
    try discriminate.
  injection E as <- <-. by exists st.
Qed.

(** C1, amended.  In the generic engine the lookups of a [Validate] hook
    run in one read-only transaction that the hook opens itself; that
    transaction is closed before the write transaction of the enclosing
    [Create] or [Update] is opened, so no lookup of the hook shares a
    transaction with the put, and the hook's transaction records no put.
    (MediaService and PersonService look nothing up.)  The older
    MediaProducerCreate of pkg/data does its lookups and its put in one and
    the same write transaction.

    The put and, for [Create], the sequence increment happen in the single
    write transaction of the call: after the events of [Validate], none of
    which is a put or a sequence increment, the call opens at most one
    write transaction, and every put and every sequence increment it
    records is in that transaction; once [Clean] and [Validate] have
    accepted, every event of [Create] is in it.  A [Create] that succeeds
    records exactly the opening of the write transaction, the sequence
    increment, the put and the commit; an [Update] that succeeds records
    the opening, the read of the old value in a read-only transaction of
    its own, the put and the commit. *)
Theorem validate_runs_in_a_transaction_of_its_own (k : ServiceKind) (m : Model) (d : DB) :
  validated_apart (service_of k) m d (Create m (service_of k) d).2
  /\ validated_apart (service_of k) m d (Update m (service_of k) d).2
  /\ (forall mp, in_one_transaction d (MediaProducerCreate mp d).2)
  /\ one_write_transaction (service_of k) m d (Create m (service_of k) d).2
  /\ one_write_transaction (service_of k) m d (Update m (service_of k) d).2
  /\ (forall m1 dv,
        Clean (service_of k) m = Ok m1 ->
        Validate (service_of k) m1 d = (Ok tt, dv) ->
        in_one_transaction dv (Create m (service_of k) d).2)
  /\ (forall m',
        (Create m (service_of k) d).1 = Ok m' ->
        exists m1 id value,
          Clean (service_of k) m = Ok m1
          /\ Iden m' = Ok id /\ Marshal (service_of k) m' = Ok value
          /\ let dv := (Validate (service_of k) m1 d).2 in
             trace (Create m (service_of k) d).2
             = trace dv
               ++ Create_events (tx_count dv) (Service_Bucket (service_of k)) (itob id) value)
  /\ (forall m',
        (Update m (service_of k) d).1 = Ok m' ->
        exists m1 id value,
          Clean (service_of k) m = Ok m1
          /\ Iden m' = Ok id /\ Marshal (service_of k) m' = Ok value
          /\ let dv := (Validate (service_of k) m1 d).2 in
             trace (Update m (service_of k) d).2
             = trace dv
               ++ Update_events (tx_count dv) (Service_Bucket (service_of k)) (itob id) value).
Proof.
  repeat apply conj.
  - rewrite Create_guarded. apply guarded_validated_apart.
    intros m1. apply local_nested, local_Create_body.
  - rewrite Update_guarded. apply guarded_validated_apart.
    intros m1. apply nested_Update_body.
  - intros mp. apply DB_Update_in_one_transaction. local_tac.
  - rewrite Create_guarded. apply guarded_one_write_transaction.
    intros m1. apply writes_own_Create_body.
  - rewrite Update_guarded. apply guarded_one_write_transaction.
    intros m1. apply writes_own_Update_body.
  - intros m1 dv. apply guarded_Create_in_one_transaction.
  - intros m'. rewrite Create_guarded. intros E.
    apply guarded_Ok_events in E as (m1 & st & Hc & _ & E & T).
    apply Create_body_events in E as (I & id & value & Hid & Hm & Tb).
    exists m1, id, value. repeat split; try done.
    cbv zeta. rewrite T, Tb, I. simpl. by rewrite <- !app_assoc.
  - intros m'. rewrite Update_guarded. intros E.
    apply guarded_Ok_events in E as (m1 & st & Hc & _ & E & T).
    apply Update_body_events in E as (I & id & value & _ & Hid & Hm & Tb).
    exists m1, id, value. repeat split; try done.
    cbv zeta. rewrite T, Tb, I. simpl. by rewrite <- !app_assoc.
Qed.

(** ** Successful writes *)

Lemma guarded_Ok {A} k (fn : Model -> M TxState A) m d a d' :
  guarded (service_of k) fn m d = (Ok a, d') ->
  exists m1 dv st,
    Clean (service_of k) m = Ok m1
    /\ committed dv = committed d
    /\ fn m1 (begin true dv) = (Ok a, st)
    /\ committed d' = tx_root (cur st).
Proof.
  intros E. apply guarded_inv in E
    as [(_ & Hr & _)|(m1 & rv & dv & Hc & Hv & [C _] & [(_ & Hr & _)|[-> E]])];
    try discriminate.
  apply DB_Update_Ok in E as (st & E & Cd). by exists m1, dv, st.
Qed.

Lemma on_db_GetRawByID_Ok ID name st v st' :
  on_db (GetRawByID ID name) st = (Ok v, st') ->
  cur st' = cur st
  /\ exists bd, committed (db st) !! name = Some bd /\ kv bd !! itob ID = Some v.
Proof.
  unfold on_db. pose proof (GetRawByID_result ID name (db st)) as R.
  destruct (GetRawByID ID name (db st)) as [r1 d1]. intros [= -> <-]. simpl in R.
  split; [done|].
  destruct (committed (db st) !! name) as [bd|]; [|discriminate].
  exists bd. split; [done|].
  destruct (kv bd !! itob ID); [by injection R as -> | discriminate].
Qed.

Lemma Update_Ok k m d m' d' :
  Update m (service_of k) d = (Ok m', d') ->
  exists bd v eo e' buf,
    committed d !! Service_Bucket (service_of k) = Some bd
    /\ Iden m = Ok (Entity_Iden e')
    /\ kv bd !! itob (Entity_Iden e') = Some v
    /\ Unmarshal (service_of k) v = Ok (Some eo)
    /\ m' = Some e'
    /\ Entity_Version e' = int_add (Entity_Version eo) 1
    /\ Marshal (service_of k) m' = Ok buf
    /\ committed d'
       = <[Service_Bucket (service_of k)
             := mkBucketData (<[itob (Entity_Iden e') := buf]> (kv bd)) (sequence bd)]>
           (committed d).
Proof.
  rewrite Update_guarded. intros E.
  apply guarded_Ok in E as (m1 & dv & st & Hc & C & E & Cd).
  unfold Update_body in E.
  bind_ok E as k0 Hid. apply lift_inv in Hid as [Hid ->].
  bind_ok E as v Hv. apply on_db_GetRawByID_Ok in Hv as (Hcur & bd & Hbd & Hv).
  bind_ok E as o Ho. apply lift_inv in Ho as [Ho ->].
  bind_ok E as tx Htx. injection Htx as <- <-.
  cbn [Bucket] in E.
  bind_ok E as u Hu. injection Hu as <- <-.
  bind_ok E as m2 Hp. apply lift_inv in Hp as [Hp ->].
  bind_ok E as buf Hm. apply lift_inv in Hm as [Hm ->].
  bind_ok E as k2 Hid2. apply lift_inv in Hid2 as [Hid2 ->].
  bind_ok E as u Hput. apply bucket_Put_Ok in Hput as (name & bd0 & Hname & Hbd0 & Hroot).
  injection E as <- <-.
  apply tx_Bucket_Some in Hname as ->.
  rewrite Hcur in Hbd0, Hroot. simpl in Hbd, Hbd0, Hroot.
  rewrite Hbd in Hbd0. injection Hbd0 as <-.
  apply PersistOldProperties_spec in Hp as (en & eo & e' & -> & -> & -> & Hi & Hver).
  simpl in Hid2. injection Hid2 as <-.
  exists bd, v, eo, e', buf.
  rewrite <- C. repeat split; try done.
  - rewrite <- (Clean_Iden _ _ _ Hc). simpl. by rewrite Hi.
  - rewrite Hi. simpl in Hid. by injection Hid as ->.
  - by rewrite Cd, Hroot.
Qed.

Lemma checked_Ok {A} (r : A * option error) a : checked r = Ok a -> r = (a, None).
Proof. destruct r as [a' [e|]]; simpl; [discriminate | by intros [= ->]]. Qed.

Lemma Create_Ok k m d m' d' :
  Create m (service_of k) d = (Ok m', d') ->
  exists bd e' buf,
    committed d !! Service_Bucket (service_of k) = Some bd
    /\ m' = Some e'
    /\ Entity_Iden e' = to_int ((sequence bd + 1) mod 2 ^ 64)
    /\ Entity_Version e' = 0
    /\ Marshal (service_of k) m' = Ok buf
    /\ committed d'
       = <[Service_Bucket (service_of k)
             := mkBucketData (<[itob (Entity_Iden e') := buf]> (kv bd))
                  ((sequence bd + 1) mod 2 ^ 64)]>
           (committed d).
Proof.
  rewrite Create_guarded. intros E.
  apply guarded_Ok in E as (m1 & dv & st & Hc & C & E & Cd).
  unfold Create_body in E.
  bind_ok E as tx Htx. injection Htx as <- <-.
  cbn [Bucket] in E.
  bind_ok E as u Hu. injection Hu as <- <-.
  bind_ok E as id Hseq.
  apply bucket_NextSequence_Ok in Hseq as (name & bd & Hname & Hbd & -> & Hroot).
  bind_ok E as m2 Hi. apply lift_inv in Hi as [Hi ->].
  bind_ok E as buf Hm. apply lift_inv in Hm as [Hm ->].
  bind_ok E as k2 Hid2. apply lift_inv in Hid2 as [Hid2 ->].
  bind_ok E as u Hput. apply bucket_Put_Ok in Hput as (name' & bd0 & Hname' & Hbd0 & Hroot').
  injection E as <- <-.
  rewrite Hname in Hname'. injection Hname' as <-.
  apply tx_Bucket_Some in Hname as ->.
  rewrite Hroot in Hbd0, Hroot'. rewrite lookup_insert_eq in Hbd0. injection Hbd0 as <-.
  rewrite insert_insert_eq in Hroot'. simpl in Hbd, Hroot'.
  apply Initialize_spec in Hi as (e' & -> & Hi & Hver).
  simpl in Hid2. injection Hid2 as <-.
  exists bd, e', buf. rewrite <- C. repeat split; try done.
  rewrite Cd, Hroot'. simpl. by rewrite Hi.
Qed.

Lemma MediaProducerUpdate_Ok mp d mp' d' :
  MediaProducerUpdate mp d = (Ok mp', d') ->
  exists bd v buf,
    committed d !! mediaProducerBucketName = Some bd
    /\ kv bd !! itob (MediaProducer_ID mp) = Some v
    /\ mp' = mkMediaProducer (MediaProducer_ID mp) (MediaProducer_MediaID mp)
               (MediaProducer_ProducerID mp) (MediaProducer_Role mp)
               (int_add (MediaProducer_Version (json_Unmarshal (A := MediaProducer) v).1) 1)
    /\ json_Marshal mp' = (buf, None)
    /\ committed d'
       = <[mediaProducerBucketName
             := mkBucketData (<[itob (MediaProducer_ID mp) := buf]> (kv bd)) (sequence bd)]>
           (committed d).
Proof.
  unfold MediaProducerUpdate. intros E.
  apply DB_Update_Ok in E as (st & E & Cd).
  bind_ok E as tx Htx. injection Htx as <- <-.
  cbn [bucket Bucket] in E.
  bind_ok E as u Hu. injection Hu as <- <-.
  bind_ok E as o Hget. apply get_Ok in Hget as (name & bd & Hname & Hbd & Hv & Hcur).
  destruct (json_Unmarshal o) as [old e] eqn:Hold.
  bind_ok E as buf Hm. apply lift_inv in Hm as [Hm ->]. apply checked_Ok in Hm.
  bind_ok E as u Hput. apply bucket_Put_Ok in Hput as (name' & bd0 & Hname' & Hbd0 & Hroot).
  injection E as <- <-.
  rewrite Hname in Hname'. injection Hname' as <-.
  apply tx_Bucket_Some in Hname as ->.
  rewrite Hcur in Hbd0, Hroot. simpl in Hbd, Hbd0, Hroot.
  rewrite Hbd in Hbd0. injection Hbd0 as <-.
  exists bd, o, buf. rewrite Hold. simpl. repeat split; try done.
  by rewrite Cd, Hroot.
Qed.

Lemma EpisodeUpdate_Ok ep d ep' d' :
  EpisodeUpdate ep d = (Ok ep', d') ->
  exists bd v buf,
    committed d !! episodeBucketName = Some bd
    /\ kv bd !! itob (Episode_ID ep) = Some v
    /\ ep' = ep
    /\ json_Marshal ep = (buf, None)
    /\ committed d'
       = <[episodeBucketName
             := mkBucketData (<[itob (Episode_ID ep) := buf]> (kv bd)) (sequence bd)]>
           (committed d).
Proof.
  unfold EpisodeUpdate. intros E.
  apply DB_Update_Ok in E as (st & E & Cd).
  bind_ok E as tx Htx. injection Htx as <- <-.
  cbn [bucket Bucket] in E.
  bind_ok E as u Hu. injection Hu as <- <-.
  bind_ok E as o Hget. apply get_Ok in Hget as (name & bd & Hname & Hbd & Hv & Hcur).
  bind_ok E as buf Hm. apply lift_inv in Hm as [Hm ->]. apply checked_Ok in Hm.
  bind_ok E as u Hput. apply bucket_Put_Ok in Hput as (name' & bd0 & Hname' & Hbd0 & Hroot).
  injection E as <- <-.
  rewrite Hname in Hname'. injection Hname' as <-.
  apply tx_Bucket_Some in Hname as ->.
  rewrite Hcur in Hbd0, Hroot. simpl in Hbd, Hbd0, Hroot.
  rewrite Hbd in Hbd0. injection Hbd0 as <-.
  exists bd, o, buf. repeat split; try done. by rewrite Cd, Hroot.
Qed.

Lemma MediaProducerCreate_Ok mp d mp' d' :
  MediaProducerCreate mp d = (Ok mp', d') ->
  exists bd buf,
    committed d !! mediaProducerBucketName = Some bd
    /\ mp' = mkMediaProducer (to_int ((sequence bd + 1) mod 2 ^ 64))
               (MediaProducer_MediaID mp) (MediaProducer_ProducerID mp)
               (MediaProducer_Role mp) (MediaProducer_Version mp)
    /\ json_Marshal mp' = (buf, None)
    /\ committed d'
       = <[mediaProducerBucketName
             := mkBucketData (<[itob (MediaProducer_ID mp') := buf]> (kv bd))
                  ((sequence bd + 1) mod 2 ^ 64)]>
           (committed d).
Proof.
  unfold MediaProducerCreate. intros E.
  apply DB_Update_Ok in E as (st & E & Cd).
  bind_ok E as tx Htx. injection Htx as <- <-.
  cbn [bucket Bucket] in E.
  bind_ok E as u Hu. injection Hu as <- <-.
  bind_ok E as u Hu. injection Hu as <- <-.
  bind_ok E as o1 Hget1. apply get_Ok in Hget1 as (_ & _ & _ & _ & _ & Hcur1).
  bind_ok E as u Hu. injection Hu as <- <-.
  bind_ok E as o2 Hget2. apply get_Ok in Hget2 as (_ & _ & _ & _ & _ & Hcur2).
  bind_ok E as id Hseq.
  apply bucket_NextSequence_Ok in Hseq as (name & bd & Hname & Hbd & -> & Hroot).
  bind_ok E as buf Hm. apply lift_inv in Hm as [Hm ->]. apply checked_Ok in Hm.
  bind_ok E as u Hput. apply bucket_Put_Ok in Hput as (name' & bd0 & Hname' & Hbd0 & Hroot').
  injection E as <- <-.
  rewrite Hname in Hname'. injection Hname' as <-.
  apply tx_Bucket_Some in Hname as ->.
  rewrite Hroot in Hbd0, Hroot'. rewrite lookup_insert_eq in Hbd0. injection Hbd0 as <-.
  rewrite insert_insert_eq in Hroot'.
  rewrite Hcur2, Hcur1 in Hbd, Hroot'. simpl in Hbd, Hroot'.
  exists bd, buf. repeat split; try done. by rewrite Cd, Hroot'.
Qed.

Lemma stored_insert d d' name id bd buf :
  committed d'
    = <[name := mkBucketData (<[itob id := buf]> (kv bd)) (sequence bd)]> (committed d) ->
  stored d' name id = Some buf.
Proof.
  intros C. unfold stored. rewrite C, lookup_insert_eq. simpl. apply lookup_insert_eq.
Qed.

(** C2, amended.  For the entity types that have a Version field: a
    successful [Update] of the generic engine (Media, Person, MediaRelation,
    UserMedia) and a successful MediaProducerUpdate of pkg/data store, under
    the entity's identifier, a value whose Version is the Version decoded
    from the value stored before plus 1 in Go's int arithmetic, which is
    exactly plus 1 below the largest int; the Version the caller passed
    plays no part.  Episode of pkg/data has no Version field: a successful
    EpisodeUpdate stores the encoding of the caller's value as it is. *)
Theorem Update_stamps_the_stored_Version_plus_one :
  (forall k m d m' d',
     Update m (service_of k) d = (Ok m', d') ->
     exists v eo e' buf,
       Iden m = Ok (Entity_Iden e')
       /\ stored d (Service_Bucket (service_of k)) (Entity_Iden e') = Some v
       /\ Unmarshal (service_of k) v = Ok (Some eo)
       /\ m' = Some e'
       /\ Entity_Version e' = int_add (Entity_Version eo) 1
       /\ Marshal (service_of k) m' = Ok buf
       /\ stored d' (Service_Bucket (service_of k)) (Entity_Iden e') = Some buf)
  /\ (forall mp d mp' d',
        MediaProducerUpdate mp d = (Ok mp', d') ->
        exists v buf,
          stored d mediaProducerBucketName (MediaProducer_ID mp) = Some v
          /\ MediaProducer_ID mp' = MediaProducer_ID mp
          /\ MediaProducer_Version mp'
             = int_add (MediaProducer_Version (json_Unmarshal (A := MediaProducer) v).1) 1
          /\ json_Marshal mp' = (buf, None)
          /\ stored d' mediaProducerBucketName (MediaProducer_ID mp) = Some buf)
  /\ (forall ep d ep' d',
        EpisodeUpdate ep d = (Ok ep', d') ->
        exists buf,
          json_Marshal ep = (buf, None)
          /\ stored d' episodeBucketName (Episode_ID ep) = Some buf)
  /\ (forall a, is_int a -> a < int_max -> int_add a 1 = a + 1).
Proof.
  repeat apply conj.
  - intros k m d m' d' E.
    apply Update_Ok in E as (bd & v & eo & e' & buf & Hbd & Hid & Hv & Ho & -> & Hver & Hm & C).
    exists v, eo, e', buf. repeat split; try done.
    + unfold stored. by rewrite Hbd.
    + eapply stored_insert, C.
  - intros mp d mp' d' E.
    apply MediaProducerUpdate_Ok in E as (bd & v & buf & Hbd & Hv & -> & Hm & C).
    exists v, buf. repeat split; try done.
    + unfold stored. by rewrite Hbd.
    + eapply stored_insert, C.
  - intros ep d ep' d' E.
    apply EpisodeUpdate_Ok in E as (bd & v & buf & Hbd & Hv & -> & Hm & C).
    exists buf. split; [done|]. eapply stored_insert, C.
  - apply int_add_small.
Qed.

(** ** The codec of WatchStatus

    The part of the entity codec that the package writes itself: [MarshalJSON]
    encodes exactly the four named values, as the JSON of their names, and
    [UnmarshalJSON] reads each name back to its value, provided the
    library's string codec returns the name it was given. *)
(** X26.  For each of the four named values, [UnmarshalJSON] reads what
    [MarshalJSON] wrote back to the value, whatever the receiver held,
    provided the library's string codec decodes what it has encoded. *)
Lemma WatchStatus_round_trip (ws ws0 : WatchStatus) (name : string) :
  WatchStatus_names !! ws = Some name ->
  Json_round_trips string ->
  forall buf, WatchStatus_MarshalJSON ws = (buf, None) ->
    WatchStatus_UnmarshalJSON ws0 buf = (ws, None).
Proof.
  intros Hname Hlib buf. unfold WatchStatus_MarshalJSON, WatchStatus_UnmarshalJSON.
  rewrite Hname. intros Hm. rewrite (Hlib name buf Hm).
  assert (Hcases : (ws = Completed /\ name = "Completed"%string)
                   \/ (ws = Planning /\ name = "Planning"%string)
                   \/ (ws = Dropped /\ name = "Dropped"%string)
                   \/ (ws = Hold /\ name = "Hold"%string)).
  { unfold WatchStatus_names in Hname. simpl in Hname.
    repeat (rewrite lookup_insert in Hname; case_decide;
            [injection Hname as <-; subst ws; tauto|]).
    by rewrite lookup_empty in Hname. }
  destruct Hcases as [[-> ->]|[[-> ->]|[[-> ->]|[-> ->]]]]; reflexivity.
Qed.

Lemma WatchStatus_MarshalJSON_out_of_range (ws : WatchStatus) :
  ~ (Completed <= ws <= Hold) ->
  WatchStatus_MarshalJSON ws = ([], Some ErrWatchStatusValue).
Proof.
  intros Hr. unfold WatchStatus_MarshalJSON, WatchStatus_names. simpl.
  unfold Completed, Planning, Dropped, Hold in *.
  repeat (rewrite lookup_insert; case_decide; [lia|]).
  by rewrite lookup_empty.
Qed.

(** [Marshal] and [Unmarshal] of a service add the type assertion and the
    interface wrapping to the library's codec: they round-trip on the values
    of the service's type as far as the library does. *)
Lemma Service_round_trip k m buf :
  Json_round_trips Media -> Json_round_trips Person ->
  Json_round_trips MediaRelation -> Json_round_trips UserMedia ->
  Marshal (service_of k) m = Ok buf -> Unmarshal (service_of k) buf = Ok m.
Proof.
  intros H1 H2 H3 H4.
  destruct k; simpl; intros E; destruct m as [[]|]; try discriminate;
    simpl in E; apply checked_Ok in E.
  - unfold MediaService_Unmarshal. by rewrite (H1 _ _ E).
  - unfold PersonService_Unmarshal. by rewrite (H2 _ _ E).
  - unfold MediaRelationService_Unmarshal. by rewrite (H3 _ _ E).
  - unfold UserMediaService_Unmarshal. by rewrite (H4 _ _ E).
Qed.

(** ** Identifiers along a history of calls *)

Lemma Delete_change k id d :
  committed (Delete id (service_of k) d).2 = committed d
  \/ exists bd, committed d !! Service_Bucket (service_of k) = Some bd
       /\ committed (Delete id (service_of k) d).2
          = <[Service_Bucket (service_of k)
                := mkBucketData (delete (itob id) (kv bd)) (sequence bd)]> (committed d).
Proof.
  destruct (committed d !! Service_Bucket (service_of k)) as [bd|] eqn:E.
  - right. exists bd. split; [done|].
    destruct (Delete_bucket_present id (service_of k) d bd E) as (d' & E1 & C).
    by rewrite E1.
  - left. pose proof (Delete_bucket_missing id (service_of k) d E) as R.
    destruct (Delete id (service_of k) d) as [r d'] eqn:E1.
    simpl in R. subst r.
    unfold Delete in E1. apply DB_Update_nested in E1 as [_ E1]; [by apply E1|].
    apply local_nested. local_tac.
Qed.

Lemma exec_change op d :
  committed (exec op d) = committed d
  \/ exists name bd bd',
       committed d !! name = Some bd /\ bucket_change bd bd'
       /\ committed (exec op d) = <[name := bd']> (committed d).
Proof.
  destruct op as [k m|k m|k id]; simpl.
  - destruct (Create m (service_of k) d) as [r d'] eqn:E. simpl.
    destruct r as [m'| |].
    + right. apply Create_Ok in E as (bd & e' & buf & Hbd & -> & Hid & _ & _ & C).
      exists (Service_Bucket (service_of k)), bd. eexists. split; [done|].
      split; [|rewrite C, Hid; reflexivity]. constructor.
    + left. rewrite Create_guarded in E. eapply guarded_fail; [|exact E|done].
      intros ?. apply local_nested, local_Create_body.
    + left. rewrite Create_guarded in E. eapply guarded_fail; [|exact E|done].
      intros ?. apply local_nested, local_Create_body.
  - destruct (Update m (service_of k) d) as [r d'] eqn:E. simpl.
    destruct r as [m'| |].
    + right. apply Update_Ok in E as (bd & v & eo & e' & buf & Hbd & _ & Hv & _ & _ & _ & _ & C).
      exists (Service_Bucket (service_of k)), bd. eexists. split; [done|].
      split; [|exact C]. econstructor. exact Hv.
    + left. rewrite Update_guarded in E. eapply guarded_fail; [|exact E|done].
      intros ?. apply nested_Update_body.
    + left. rewrite Update_guarded in E. eapply guarded_fail; [|exact E|done].
      intros ?. apply nested_Update_body.
  - destruct (Delete_change k id d) as [C|(bd & Hbd & C)]; [by left|].
    right. exists (Service_Bucket (service_of k)), bd. eexists. split; [done|].
    split; [|exact C]. constructor.
Qed.

Lemma bucket_change_keys bd bd' n :
  0 <= n -> keys_below bd -> sequence bd + (n + 1) < 2 ^ 64 -> bucket_change bd bd' ->
  keys_below bd' /\ sequence bd' + n < 2 ^ 64 /\ sequence bd <= sequence bd'.
Proof.
  intros Hn [H0 Hk] Hb Hc. destruct Hc as [key buf v Hv|key|buf]; simpl.
  - split; [split; [simpl; lia|] | lia]. simpl. intros key' v'.
    rewrite lookup_insert. case_decide as Hd; [|apply Hk].
    subst key'. intros _. eapply Hk, Hv.
  - split; [split; [simpl; lia|] | lia]. simpl. intros key' v'.
    rewrite lookup_delete. case_decide; [discriminate | apply Hk].
  - rewrite Z.mod_small by lia.
    split; [split; [simpl; lia|] | lia]. simpl. intros key' v'.
    rewrite lookup_insert. case_decide as Hd.
    + subst key'. intros _. exists (sequence bd + 1). split; [lia|].
      apply itob_to_int. lia.
    + intros Hv. destruct (Hk _ _ Hv) as (i & Hi & ->). exists i. split; [lia | done].
Qed.

Lemma exec_within op d n :
  0 <= n -> within (n + 1) d -> within n (exec op d) /\ sequences_grow d (exec op d).
Proof.
  intros Hn Hw. unfold within, sequences_grow in *.
  destruct (exec_change op d) as [C|(name & bd & bd' & Hbd & Hc & C)]; rewrite C.
  { split.
    - intros name bd Hbd. destruct (Hw name bd Hbd). split; [done | lia].
    - intros name bd Hbd. exists bd. split; [done | lia]. }
  destruct (Hw name bd Hbd) as [Hk Hb].
  destruct (bucket_change_keys bd bd' n Hn Hk Hb Hc) as (Hk' & Hb' & Hle).
  split.
  - intros name0 bd0. rewrite lookup_insert. case_decide as Hd.
    + intros [= <-]. done.
    + intros Hbd0. destruct (Hw name0 bd0 Hbd0). split; [done | lia].
  - intros name0 bd0 Hbd0. rewrite lookup_insert. case_decide as Hd.
    + subst name0. rewrite Hbd in Hbd0. injection Hbd0 as <-. by exists bd'.
    + exists bd0. split; [done | lia].
Qed.

Lemma run_within ops d n :
  0 <= n -> within (n + Z.of_nat (length ops)) d ->
  within n (run ops d) /\ sequences_grow d (run ops d).
Proof.
  revert d. induction ops as [|op ops IH]; intros d Hn Hw.
  - simpl in *. rewrite Z.add_0_r in Hw. split; [done|].
    intros name bd Hbd. exists bd. split; [done | lia].
  - simpl length in Hw. rewrite Nat2Z.inj_succ in Hw.
    destruct (exec_within op d (n + Z.of_nat (length ops))) as [W1 G1]; [lia| |].
    { intros name bd Hbd. destruct (Hw name bd Hbd). split; [done | lia]. }
    destruct (IH (exec op d) Hn W1) as [W2 G2].
    split; [exact W2|].
    intros name bd Hbd. destruct (G1 name bd Hbd) as (bd1 & Hbd1 & Hle1).
    destruct (G2 name bd1 Hbd1) as (bd2 & Hbd2 & Hle2).
    exists bd2. split; [exact Hbd2 | lia].
Qed.

(** X27.  The identifier of a successful [Create] is the bucket's next
    sequence number, the stored value has Version 0, and at no earlier
    point of the history of engine calls (from a database whose keys all
    came from the sequences, such as a fresh one) did the bucket hold a
    value under that identifier. *)
Lemma Create_identifier_was_never_in_use ops1 ops2 d0 k m m' d' :
  within (1 + Z.of_nat (length (ops1 ++ ops2))) d0 ->
  Create m (service_of k) (run (ops1 ++ ops2) d0) = (Ok m', d') ->
  exists e' buf,
    m' = Some e' /\ Entity_Version e' = 0
    /\ Marshal (service_of k) m' = Ok buf
    /\ stored d' (Service_Bucket (service_of k)) (Entity_Iden e') = Some buf
    /\ stored (run ops1 d0) (Service_Bucket (service_of k)) (Entity_Iden e') = None.
Proof.
  intros Hw E. rewrite length_app, Nat2Z.inj_add in Hw.
  destruct (run_within ops1 d0 (1 + Z.of_nat (length ops2))) as [W1 _];
    [lia | by replace (1 + Z.of_nat (length ops2) + Z.of_nat (length ops1))
              with (1 + (Z.of_nat (length ops1) + Z.of_nat (length ops2))) by lia |].
  destruct (run_within ops2 (run ops1 d0) 1) as [W2 G2]; [lia | exact W1 |].
  unfold run in E. rewrite foldl_app in E. fold (run ops1 d0) in E.
  fold (run ops2 (run ops1 d0)) in E.
  apply Create_Ok in E as (bd & e' & buf & Hbd & -> & Hid & Hver & Hm & C).
  exists e', buf. repeat split; try done.
  { unfold stored. rewrite C, lookup_insert_eq. simpl. apply lookup_insert_eq. }
  destruct (W2 _ _ Hbd) as [_ Hb].
  rewrite Z.mod_small in Hid by (destruct (W2 _ _ Hbd) as [[? _] _]; lia).
  unfold stored.
  destruct (committed (run ops1 d0) !! Service_Bucket (service_of k)) as [bd1|] eqn:Hbd1;
    [|done].
  destruct (kv bd1 !! itob (Entity_Iden e')) as [v|] eqn:Hv; [|done].
  exfalso.
  destruct (W1 _ _ Hbd1) as [[H0 Hk] _].
  destruct (Hk _ _ Hv) as (i & Hi & Hkey).
  destruct (G2 _ _ Hbd1) as (bd2 & Hbd2 & Hle).
  rewrite Hbd in Hbd2. injection Hbd2 as <-.
  assert (Hval : be_val (itob (Entity_Iden e')) = be_val (PutUint64 i)) by by rewrite Hkey.
  rewrite Hid, itob_to_int, !be_val_PutUint64 in Hval by lia. lia.
Qed.

End claims.

(** C3, at the failing input.  MediaProducerCreate of pkg/data assigns the
    next sequence number as identifier and stores the value with the
    Version its caller passed, whatever library encodes it.  On the example
    database (one Media, one Producer, no MediaProducer yet) a value whose
    Version the caller has set to 5 is stored under identifier 1 with
    Version 5. *)
Theorem MediaProducerCreate_keeps_the_callers_Version :
  (forall (O : Opaque) (L : Library) mp d mp' d',
     MediaProducerCreate mp d = (Ok mp', d') ->
     MediaProducer_Version mp' = MediaProducer_Version mp
     /\ exists buf, json_Marshal mp' = (buf, None)
          /\ stored d' mediaProducerBucketName (MediaProducer_ID mp') = Some buf)
  /\ (MediaProducerCreate (L := example_library) example_producer_link example_db).1
     = Ok (mkMediaProducer 1 1 1 "Studio" 5)
  /\ json_Unmarshal (Json := example_json_MediaProducer)
       <$> stored
             (MediaProducerCreate (L := example_library) example_producer_link example_db).2
             mediaProducerBucketName 1
     = Some (mkMediaProducer 1 1 1 "Studio" 5, None).
Proof.
  repeat apply conj.
  - intros O L mp d mp' d' E.
    apply MediaProducerCreate_Ok in E as (bd & buf & Hbd & -> & Hm & C).
    split; [done|]. exists buf. split; [done|].
    unfold stored. rewrite C, lookup_insert_eq. simpl. apply lookup_insert_eq.
  - vm_compute. reflexivity.
  - vm_compute. reflexivity.
Qed.

(** * Examples *)

(** C2 as stated fails on Episode: a successful EpisodeUpdate leaves under
    the identifier the very bytes that were there, so however a Version is
    read off stored values, it has not gone up by one.  It also fails at
    the largest int: the update of a MediaRelation stored with Version
    2^63 - 1 is stored with Version -2^63. *)
Lemma Update_Version_counterexample :
  (is_Ok (EpisodeUpdate (L := example_library) example_episode example_episode_db).1 = true
   /\ ~ exists version : bytes -> Z,
          version_incremented version episodeBucketName 1 example_episode_db
            (EpisodeUpdate (L := example_library) example_episode example_episode_db).2)
  /\ (json_Unmarshal (Json := example_json_MediaRelation)
         <$> stored example_overflow_db MediaRelationBucket 1
       = Some (mkMediaRelation 1 1 1 "sequel" int_max, None)
      /\ (Update (Some (EMediaRelation (mkMediaRelation 1 1 1 "sequel" 0)))
            (MediaRelationService (L := example_library)) example_overflow_db).1
         = Ok (Some (EMediaRelation (mkMediaRelation 1 1 1 "sequel" int_min)))
      /\ int_min <> int_max + 1).
Proof.
  split; [split; [vm_compute; reflexivity|] | repeat split; vm_compute; congruence].
  intros (version & H).
  specialize (H (put_ints [1; 1; 24]) (put_ints [1; 1; 24])).
  assert (version (put_ints [1; 1; 24]) = version (put_ints [1; 1; 24]) + 1);
    [|lia].
  apply H; vm_compute; reflexivity.
Qed.

(** C1 as stated fails on [Create] of a MediaRelation: the two lookups of
    the Media run in transaction 2, the put in transaction 3. *)
Lemma Create_MediaRelation_counterexample :
  ~ lookups_share_the_put_transaction
      (new_events example_db
         (Create (Some (EMediaRelation example_relation))
            (MediaRelationService (L := example_library)) example_db).2).
Proof.
  intros H.
  specialize (H (EvGet 2 "Media" (itob 1))
                (EvPut 3 "MediaRelation" (itob 1)
                   (put_ints [1; 1; 1; 0] ++ bytes_of_string "sequel"))).
  assert (2 = 3)%nat; [|lia].
  apply H; [| |reflexivity|reflexivity].
  - vm_compute. apply list_elem_of_further, list_elem_of_here.
  - vm_compute. do 6 apply list_elem_of_further. apply list_elem_of_here.
Qed.

(** The events of that [Create]: the lookups of [Validate] in the
    read-only transaction 2, then the write transaction 3 with the sequence
    increment and the put. *)
Example Create_MediaRelation_events :
  new_events example_db
    (Create (Some (EMediaRelation example_relation))
       (MediaRelationService (L := example_library)) example_db).2
  = [EvBegin 2 false; EvGet 2 "Media" (itob 1); EvGet 2 "Media" (itob 1); EvRollback 2]
    ++ Create_events 3 "MediaRelation" (itob 1)
         (put_ints [1; 1; 1; 0] ++ bytes_of_string "sequel").
Proof. vm_compute. reflexivity. Qed.

(** The events of an [Update] of the stored Media: [Validate] looks
    nothing up, and the old value is read in transaction 3 while the write
    transaction 2 is open. *)
Example Update_Media_events :
  exists value,
    new_events example_db
      (Update (Some (EMedia (mkMedia 1 ∅ ∅ ∅ None None (mkSeason None None) None None 42)))
         (MediaService (L := example_library)) example_db).2
    = Update_events 2 "Media" (itob 1) value.
Proof. eexists. vm_compute. reflexivity. Qed.

(** [Delete] of the one stored Media on the example database. *)
Lemma Delete_is_idempotent_witness :
  committed example_db !! Service_Bucket (MediaService (L := example_library))
    = Some example_media_bucket
  /\ exists d', Delete 1 (MediaService (L := example_library)) example_db = (Ok tt, d')
       /\ stored d' MediaBucket 1 = None.
Proof.
  split; [vm_compute; reflexivity|].
  destruct (Delete_is_idempotent 1 (MediaService (L := example_library)) example_db
              example_media_bucket) as (d' & E & C & Hk & _);
    [vm_compute; reflexivity|].
  exists d'. split; [exact E|].
  unfold stored. simpl in C. rewrite C. rewrite lookup_insert_eq. simpl.
  apply lookup_delete_eq.
Defined.


(** [Update] of the stored Media by a caller who passes Version 42: Version
    1 is stored. *)
Lemma Update_stamps_the_stored_Version_plus_one_witness :
  let ser := MediaService (L := example_library) in
  let m := Some (EMedia (mkMedia 1 ∅ ∅ ∅ None None (mkSeason None None) None None 42)) in
  let m' := Some (EMedia (mkMedia 1 ∅ ∅ ∅ None None (mkSeason None None) None None 1)) in
  Update m ser example_db = (Ok m', (Update m ser example_db).2)
  /\ exists v eo e' buf,
       Iden m = Ok (Entity_Iden e')
       /\ stored example_db (Service_Bucket ser) (Entity_Iden e') = Some v
       /\ Unmarshal ser v = Ok (Some eo)
       /\ m' = Some e'
       /\ Entity_Version e' = int_add (Entity_Version eo) 1
       /\ Marshal ser m' = Ok buf
       /\ stored (Update m ser example_db).2 (Service_Bucket ser) (Entity_Iden e') = Some buf.
Proof.
  intros ser m m'.
  assert (E : Update m ser example_db = (Ok m', (Update m ser example_db).2)).
  { apply injective_projections; [vm_compute; reflexivity | reflexivity]. }
  split; [exact E|].
  exact (proj1 (Update_stamps_the_stored_Version_plus_one (L := example_library))
           KMedia m example_db m' _ E).
Defined.

(** [Create] of a MediaRelation whose owner, Media 99, does not exist. *)
Lemma failed_write_leaves_the_store_unchanged_witness :
  let m := Some (EMediaRelation (mkMediaRelation 0 99 1 "sequel" 0)) in
  is_Ok (Create m (service_of (L := example_library) KMediaRelation) example_db).1 = false
  /\ committed (Create m (service_of (L := example_library) KMediaRelation) example_db).2
     = committed example_db.
Proof.
  intros m. split; [vm_compute; reflexivity|].
  apply (proj1 (failed_write_leaves_the_store_unchanged (L := example_library) example_db)
           KMediaRelation m).
  vm_compute. reflexivity.
Defined.

(** [Delete] on a database that has no bucket at all. *)
Lemma Bucket_never_returns_an_error_witness :
  committed (mkDB ∅ 0 []) !! Service_Bucket (MediaService (L := example_library)) = None
  /\ (Delete 1 (MediaService (L := example_library)) (mkDB ∅ 0 [])).1 = Panic.
Proof.
  split; [reflexivity|].
  apply (proj1 (proj2 (proj2 (proj2 (proj2
           (Bucket_never_returns_an_error (L := example_library))))))).
  reflexivity.
Defined.

(** A run of the engine on the example database: a MediaRelation between
    existing Media is created with identifier 1 and Version 0 whatever the
    caller put there, and an update of it is stored with Version 1. *)
Example Create_then_Update_MediaRelation :
  let ser := MediaRelationService (L := example_library) in
  let d1 := (Create (Some (EMediaRelation example_relation)) ser example_db).2 in
  (Create (Some (EMediaRelation example_relation)) ser example_db).1
    = Ok (Some (EMediaRelation (mkMediaRelation 1 1 1 "sequel" 0)))
  /\ (Update (Some (EMediaRelation (mkMediaRelation 1 1 1 "prequel" 9))) ser d1).1
    = Ok (Some (EMediaRelation (mkMediaRelation 1 1 1 "prequel" 1)))
  /\ (GetByID 1 ser (Update (Some (EMediaRelation (mkMediaRelation 1 1 1 "prequel" 9))) ser d1).2).1
    = Ok (Some (EMediaRelation (mkMediaRelation 1 1 1 "prequel" 1))).
Proof. repeat split; vm_compute; reflexivity. Qed.

(** * Further properties of the code *)

(** ** Keys *)

Lemma to_int_range u : is_int (to_int u).
Proof.
  unfold is_int, to_int, int_min, int_max.
  pose proof (Z.mod_pos_bound (u + 2 ^ 63) (2 ^ 64)). lia.
Qed.

Lemma to_int_of_uint64 v : is_int v -> to_int (uint64 v) = v.
Proof.
  unfold is_int, int_min, int_max, to_int, uint64. intros H.
  rewrite Zplus_mod_idemp_l. rewrite Z.mod_small by lia. lia.
Qed.

Lemma itob_inj a b : is_int a -> is_int b -> itob a = itob b -> a = b.
Proof.
  intros Ha Hb E. apply itob_inj_uint64 in E.
  rewrite <- (to_int_of_uint64 a Ha), <- (to_int_of_uint64 b Hb). by rewrite E.
Qed.

(** X1.  [itob] gives every identifier an 8-byte key from which the
    identifier is read back (big-endian, as a signed 64-bit number), so two
    identifiers have the same key only when they are equal. *)
Theorem itob_is_injective (a b : int) :
  is_int a -> is_int b ->
  length (itob a) = 8%nat
  /\ to_int (be_val (itob a)) = a
  /\ (itob a = itob b <-> a = b).
Proof.
  intros Ha Hb. split; [reflexivity|]. split.
  - rewrite be_val_itob. by apply to_int_of_uint64.
  - split; [by apply itob_inj | by intros ->].
Qed.

(** The keys of -1 and of 255 differ. *)
Lemma itob_is_injective_witness :
  is_int (-1) /\ is_int 255 /\ itob (-1) <> itob 255.
Proof.
  assert (H1 : is_int (-1)) by (unfold is_int, int_min, int_max; lia).
  assert (H2 : is_int 255) by (unfold is_int, int_min, int_max; lia).
  refine (conj H1 (conj H2 _)).
  intros E. apply (proj2 (proj2 (itob_is_injective (-1) 255 H1 H2))) in E. lia.
Defined.

(** ** Order of keys *)

Lemma Byte_to_N_inj x y : Byte.to_N x = Byte.to_N y -> x = y.
Proof.
  intros H. apply (f_equal Byte.of_N) in H. rewrite !Byte.of_to_N in H. congruence.
Qed.

Lemma bytes_lt_trichotomy a b : bytes_lt a b = false -> bytes_lt b a = false -> a = b.
Proof.
  revert b. induction a as [|x a IH]; intros [|y b]; simpl; try done.
  destruct (N.ltb_spec (Byte.to_N x) (Byte.to_N y)); [done|].
  destruct (N.ltb_spec (Byte.to_N y) (Byte.to_N x)); [done|].
  intros H1 H2. f_equal; [apply Byte_to_N_inj; lia | by apply IH].
Qed.

Lemma bytes_lt_asym a b : bytes_lt a b = true -> bytes_lt b a = false.
Proof.
  revert b. induction a as [|x a IH]; intros [|y b]; simpl; try done.
  destruct (N.ltb_spec (Byte.to_N x) (Byte.to_N y));
    destruct (N.ltb_spec (Byte.to_N y) (Byte.to_N x)); try done; try lia.
  apply IH.
Qed.

Lemma bytes_lt_trans a b c :
  bytes_lt a b = true -> bytes_lt b c = true -> bytes_lt a c = true.
Proof.
  revert b c. induction a as [|x a IH]; intros [|y b] [|z c]; simpl; try done.
  destruct (N.ltb_spec (Byte.to_N x) (Byte.to_N y));
    destruct (N.ltb_spec (Byte.to_N y) (Byte.to_N x));
    destruct (N.ltb_spec (Byte.to_N y) (Byte.to_N z));
    destruct (N.ltb_spec (Byte.to_N z) (Byte.to_N y));
    destruct (N.ltb_spec (Byte.to_N x) (Byte.to_N z));
    destruct (N.ltb_spec (Byte.to_N z) (Byte.to_N x));
    try done; try lia.
  apply IH.
Qed.

Lemma key_le_total : Total key_le.
Proof.
  intros x y. unfold key_le.
  destruct (bytes_lt y.1 x.1) eqn:E; [right; by apply bytes_lt_asym | by left].
Qed.

Lemma key_le_trans : Transitive key_le.
Proof.
  intros x y z. unfold key_le. intros H1 H2.
  destruct (bytes_lt z.1 x.1) eqn:E; [exfalso|done].
  destruct (bytes_lt x.1 y.1) eqn:E2.
  - rewrite (bytes_lt_trans _ _ _ E E2) in H2. discriminate.
  - rewrite <- (bytes_lt_trichotomy _ _ E2 H1) in H2. congruence.
Qed.

Lemma entries_Permutation bd : entries bd ≡ₚ map_to_list (kv bd).
Proof. apply merge_sort_Permutation. Qed.

Lemma entries_sorted bd :
  StronglySorted (fun x y => bytes_lt x.1 y.1 = true) (entries bd).
Proof.
  pose proof key_le_total as Htotal. pose proof key_le_trans as Htrans.
  assert (Hs : StronglySorted key_le (entries bd)) by apply (StronglySorted_merge_sort _).
  assert (Hn : NoDup (entries bd).*1).
  { rewrite entries_Permutation. apply NoDup_fst_map_to_list. }
  induction Hs as [|x l Hs IH Hx]; [constructor|].
  simpl in Hn. apply NoDup_cons in Hn as [Hx1 Hn].
  constructor; [by apply IH|].
  rewrite Forall_forall in *. intros y Hy.
  specialize (Hx y Hy). unfold key_le in Hx.
  destruct (bytes_lt x.1 y.1) eqn:E; [done|]. exfalso. apply Hx1.
  rewrite (bytes_lt_trichotomy _ _ E Hx). by apply list_elem_of_fmap_2.
Qed.

Lemma for_each_collect (es : list (bytes * bytes)) (acc : list bytes) :
  for_each (fun k v l => Ok (l ++ [v])) es acc = Ok (acc ++ es.*2).
Proof.
  revert acc. induction es as [|[k v] es IH]; intros acc; simpl.
  - by rewrite app_nil_r.
  - rewrite IH. by rewrite <- app_assoc.
Qed.

Lemma GetRawAll_result name d :
  (GetRawAll name d).1 =
    match committed d !! name with
    | None => Panic
    | Some bd => Ok ((entries bd).*2)
    end.
Proof.
  unfold GetRawAll, DB_View, bindM, get_tx, Bucket, tx_Bucket, check,
    bucket_ForEach, with_bucket, bindM, log, ret, lift. cbn.
  destruct (committed d !! name) as [bd|] eqn:E; cbn; rewrite ?E; cbn; [|done].
  by rewrite for_each_collect.
Qed.

(** X2.  On a bucket that exists, [GetRawAll] returns the value of every
    key of the bucket, one per key, in ascending order of the keys (each
    key is lexicographically smaller than all that follow), and commits
    nothing. *)
Theorem GetRawAll_lists_the_values_in_key_order (name : string) (d : DB) (bd : BucketData) :
  committed d !! name = Some bd ->
  exists es,
    (GetRawAll name d).1 = Ok (es.*2)
    /\ es ≡ₚ map_to_list (kv bd)
    /\ StronglySorted (fun x y => bytes_lt x.1 y.1 = true) es
    /\ committed (GetRawAll name d).2 = committed d.
Proof.
  intros E. exists (entries bd). repeat split.
  - by rewrite GetRawAll_result, E.
  - apply entries_Permutation.
  - apply entries_sorted.
  - destruct (GetRawAll name d) as [r d'] eqn:E1.
    by apply reads_GetRawAll in E1 as [C _].
Qed.

(** ** [GetFilter] and [GetAll] *)

Section engine_reads.
Context {O : Opaque} {L : Library}.

Lemma filter_models_acc ser keep vl acc :
  filter_models ser keep vl acc
  = let? ms := filter_models ser keep vl [] in Ok (acc ++ ms).
Proof.
  revert acc. induction vl as [|v vl IH]; intros acc; simpl.
  - by rewrite app_nil_r.
  - destruct (Unmarshal ser v) as [m| |]; simpl; try done.
    destruct (keep m).
    + rewrite (IH (acc ++ [m])), (IH [m]).
      destruct (filter_models ser keep vl []); simpl; try done.
      by rewrite <- app_assoc.
    + apply IH.
Qed.

Lemma filter_models_filter ser keep vl :
  filter_models ser keep vl []
  = let? ms := filter_models ser (fun _ => true) vl [] in Ok (List.filter keep ms).
Proof.
  induction vl as [|v vl IH]; simpl; [done|].
  destruct (Unmarshal ser v) as [m| |]; simpl; try done.
  rewrite (filter_models_acc ser (fun _ => true) vl [m]).
  destruct (keep m) eqn:Hk.
  - rewrite (filter_models_acc ser keep vl [m]), IH.
    destruct (filter_models ser (fun _ => true) vl []); simpl; try done.
    by rewrite Hk.
  - rewrite IH.
    destruct (filter_models ser (fun _ => true) vl []); simpl; try done.
    by rewrite Hk.
Qed.

Lemma filter_models_all ser vl ms :
  filter_models ser (fun _ => true) vl [] = Ok ms
  <-> Forall2 (fun v m => Unmarshal ser v = Ok m) vl ms.
Proof.
  revert ms. induction vl as [|v vl IH]; intros ms; simpl.
  - split; [intros [= <-]; constructor | by intros ->%Forall2_nil_inv_l].
  - split.
    + destruct (Unmarshal ser v) as [m| |] eqn:Hm; simpl; try done.
      rewrite filter_models_acc.
      destruct (filter_models ser (fun _ => true) vl []) as [ms'| |] eqn:E; simpl; try done.
      intros [= <-]. constructor; [done | by apply IH].
    + intros (m & ms' & Hm & H & ->)%Forall2_cons_inv_l.
      rewrite Hm. simpl. apply IH in H. rewrite filter_models_acc, H. done.
Qed.

Lemma GetFilter_as_filter ser keep d :
  GetFilter ser keep d
  = (let? ms := (GetAll ser d).1 in Ok (List.filter keep ms), (GetAll ser d).2).
Proof.
  unfold GetAll, GetFilter, bindM.
  destruct (GetRawAll (Service_Bucket ser) d) as [[vl|e|] d1]; simpl; try done.
  unfold lift. by rewrite filter_models_filter.
Qed.

Lemma GetAll_Ok_iff ser d ms :
  (GetAll ser d).1 = Ok ms <->
  exists vs, (GetRawAll (Service_Bucket ser) d).1 = Ok vs
    /\ Forall2 (fun v m => Unmarshal ser v = Ok m) vs ms.
Proof.
  unfold GetAll, GetFilter, bindM.
  destruct (GetRawAll (Service_Bucket ser) d) as [[vl|e|] d1]; simpl.
  - unfold lift. simpl. rewrite filter_models_all. split; [by exists vl|].
    by intros (vs & [= <-] & H).
  - split; [done | by intros (vs & [=] & _)].
  - split; [done | by intros (vs & [=] & _)].
Qed.

Lemma reads_GetFilter ser keep : reads (GetFilter ser keep).
Proof.
  intros d r d'. unfold GetFilter, bindM.
  destruct (GetRawAll (Service_Bucket ser) d) as [[vl|e|] d1] eqn:E; simpl;
    intros [= <- <-]; by apply reads_GetRawAll in E.
Qed.

(** X3.  [GetFilter] returns the models of [GetAll] that pass the filter,
    in the same order, and fails exactly when [GetAll] fails, with its
    error: a value that does not decode fails the call whatever the filter
    would have said of it.  [GetAll] succeeds exactly when every value of
    the bucket decodes, and returns the decoded values in the order of
    [GetRawAll].  Neither changes the committed buckets. *)
Theorem GetFilter_filters_what_GetAll_returns (ser : Service) (d : DB) :
  (forall keep, GetFilter ser keep d
     = (let? ms := (GetAll ser d).1 in Ok (List.filter keep ms), (GetAll ser d).2))
  /\ (forall ms, (GetAll ser d).1 = Ok ms <->
        exists vs, (GetRawAll (Service_Bucket ser) d).1 = Ok vs
          /\ Forall2 (fun v m => Unmarshal ser v = Ok m) vs ms)
  /\ (forall keep, committed (GetFilter ser keep d).2 = committed d).
Proof.
  repeat apply conj.
  - intros keep. apply GetFilter_as_filter.
  - intros ms. apply GetAll_Ok_iff.
  - intros keep. destruct (GetFilter ser keep d) as [r d'] eqn:E.
    by apply reads_GetFilter in E as [C _].
Qed.

(** ** The typed methods *)

Lemma MediaRelation_decoded vl ms :
  Forall2 (fun v m => Unmarshal MediaRelationService v = Ok m) vl ms ->
  exists l, ms = (fun mr => Some (EMediaRelation mr)) <$> l.
Proof.
  induction 1 as [|v m vl ms Hm _ (l & ->)]; [by exists []|].
  simpl in Hm. unfold MediaRelationService_Unmarshal in Hm.
  destruct (checked (json_Unmarshal v)) as [mr| |]; simpl in Hm; try done.
  injection Hm as <-. by exists (mr :: l).
Qed.

Lemma MediaRelation_mapFromModel_wrap l :
  MediaRelationService_mapFromModel ((fun mr => Some (EMediaRelation mr)) <$> l) = Ok l.
Proof. induction l as [|mr l IH]; csimpl; [done|]. by rewrite IH. Qed.

Lemma MediaRelation_mapFromModel_inv ms l :
  MediaRelationService_mapFromModel ms = Ok l ->
  ms = (fun mr => Some (EMediaRelation mr)) <$> l.
Proof.
  revert l. induction ms as [|m ms IH]; intros l; simpl; [by intros [= <-]|].
  destruct m as [[]|]; simpl; try done.
  destruct (MediaRelationService_mapFromModel ms) as [l'| |]; simpl; try done.
  intros [= <-]. simpl. by rewrite (IH l').
Qed.

Lemma MediaRelation_filter_wrap (keep : MediaRelation -> bool) l :
  List.filter (fun m => match MediaRelationService_assertType m with
                        | Ok mr => keep mr
                        | _ => false
                        end)
    ((fun mr => Some (EMediaRelation mr)) <$> l)
  = (fun mr => Some (EMediaRelation mr)) <$> List.filter keep l.
Proof.
  induction l as [|mr l IH]; csimpl; [done|].
  destruct (keep mr); csimpl; by rewrite IH.
Qed.

Lemma UserMedia_decoded vl ms :
  Forall2 (fun v m => Unmarshal UserMediaService v = Ok m) vl ms ->
  exists l, ms = (fun um => Some (EUserMedia um)) <$> l.
Proof.
  induction 1 as [|v m vl ms Hm _ (l & ->)]; [by exists []|].
  simpl in Hm. unfold UserMediaService_Unmarshal in Hm.
  destruct (checked (json_Unmarshal v)) as [um| |]; simpl in Hm; try done.
  injection Hm as <-. by exists (um :: l).
Qed.

Lemma UserMedia_mapFromModel_wrap l :
  UserMediaService_mapFromModel ((fun um => Some (EUserMedia um)) <$> l) = Ok l.
Proof. induction l as [|um l IH]; csimpl; [done|]. by rewrite IH. Qed.

Lemma UserMedia_filter_wrap (keep : UserMedia -> bool) l :
  List.filter (fun m => match UserMediaService_assertType m with
                        | Ok um => keep um
                        | _ => false
                        end)
    ((fun um => Some (EUserMedia um)) <$> l)
  = (fun um => Some (EUserMedia um)) <$> List.filter keep l.
Proof.
  induction l as [|um l IH]; csimpl; [done|].
  destruct (keep um); csimpl; by rewrite IH.
Qed.

Lemma filter_Forall {A} (keep : A -> bool) l : Forall (fun x => keep x = true) (List.filter keep l).
Proof.
  induction l as [|x l IH]; simpl; [constructor|].
  destruct (keep x) eqn:E; [by constructor | done].
Qed.

Lemma GetAll_wrapped_MediaRelation d :
  match (GetAll MediaRelationService d).1 with
  | Ok ms => exists l, ms = (fun mr => Some (EMediaRelation mr)) <$> l
  | _ => True
  end.
Proof.
  destruct (GetAll MediaRelationService d).1 as [ms| |] eqn:E; try done.
  apply GetAll_Ok_iff in E as (vs & _ & H).
  eapply MediaRelation_decoded, H.
Qed.

Lemma GetAll_wrapped_UserMedia d :
  match (GetAll UserMediaService d).1 with
  | Ok ms => exists l, ms = (fun um => Some (EUserMedia um)) <$> l
  | _ => True
  end.
Proof.
  destruct (GetAll UserMediaService d).1 as [ms| |] eqn:E; try done.
  apply GetAll_Ok_iff in E as (vs & _ & H).
  eapply UserMedia_decoded, H.
Qed.

Lemma MediaRelationService_GetFilter_as_filter keep d :
  MediaRelationService_GetFilter keep d
  = (let? l := (MediaRelationService_GetAll d).1 in Ok (List.filter keep l),
     (MediaRelationService_GetAll d).2).
Proof.
  unfold MediaRelationService_GetFilter, MediaRelationService_GetAll, bindM.
  rewrite GetFilter_as_filter.
  pose proof (GetAll_wrapped_MediaRelation d) as Hw.
  destruct (GetAll MediaRelationService d) as [[ms|e|] d1]; simpl in *; try done.
  destruct Hw as (l & ->). unfold lift.
  by rewrite MediaRelation_filter_wrap, !MediaRelation_mapFromModel_wrap.
Qed.

Lemma UserMediaService_GetFilter_as_filter keep d :
  UserMediaService_GetFilter keep d
  = (let? l := (UserMediaService_GetAll d).1 in Ok (List.filter keep l),
     (UserMediaService_GetAll d).2).
Proof.
  unfold UserMediaService_GetFilter, UserMediaService_GetAll, bindM.
  rewrite GetFilter_as_filter.
  pose proof (GetAll_wrapped_UserMedia d) as Hw.
  destruct (GetAll UserMediaService d) as [[ms|e|] d1]; simpl in *; try done.
  destruct Hw as (l & ->). unfold lift.
  by rewrite UserMedia_filter_wrap, !UserMedia_mapFromModel_wrap.
Qed.

Lemma MediaRelationService_GetAll_Ok d ms :
  (GetAll MediaRelationService d).1 = Ok ms ->
  exists l, ms = (fun mr => Some (EMediaRelation mr)) <$> l
    /\ (MediaRelationService_GetAll d).1 = Ok l.
Proof.
  intros E. pose proof (GetAll_wrapped_MediaRelation d) as Hw.
  unfold MediaRelationService_GetAll, bindM.
  destruct (GetAll MediaRelationService d) as [r d1]; simpl in *. subst r.
  destruct Hw as (l & ->). exists l. split; [done|].
  unfold lift. simpl. apply MediaRelation_mapFromModel_wrap.
Qed.

Lemma UserMediaService_GetAll_Ok d ms :
  (GetAll UserMediaService d).1 = Ok ms ->
  exists l, ms = (fun um => Some (EUserMedia um)) <$> l
    /\ (UserMediaService_GetAll d).1 = Ok l.
Proof.
  intros E. pose proof (GetAll_wrapped_UserMedia d) as Hw.
  unfold UserMediaService_GetAll, bindM.
  destruct (GetAll UserMediaService d) as [r d1]; simpl in *. subst r.
  destruct Hw as (l & ->). exists l. split; [done|].
  unfold lift. simpl. apply UserMedia_mapFromModel_wrap.
Qed.

(** X4.  The typed reads of MediaRelationService and UserMediaService: the
    type assertion of [mapFromModel] never fails on what [GetAll] has
    decoded, [GetFilter] returns the values of the typed [GetAll] that pass
    the filter, and [GetByOwner], [GetByRelated], [GetByRelationship],
    [GetByUser] and [GetByMedia] return the values of [GetAll] whose field
    equals the argument. *)
Theorem typed_reads_filter_what_GetAll_returns (d : DB) :
  (forall ms, (GetAll MediaRelationService d).1 = Ok ms ->
     exists l, ms = (fun mr => Some (EMediaRelation mr)) <$> l
       /\ (MediaRelationService_GetAll d).1 = Ok l)
  /\ (forall keep, MediaRelationService_GetFilter keep d
        = (let? l := (MediaRelationService_GetAll d).1 in Ok (List.filter keep l),
           (MediaRelationService_GetAll d).2))
  /\ (forall mID, (MediaRelationService_GetByOwner mID d).1
        = let? l := (MediaRelationService_GetAll d).1 in
          Ok (List.filter (fun mr => bool_decide (MediaRelation_OwnerID mr = mID)) l))
  /\ (forall mID, (MediaRelationService_GetByRelated mID d).1
        = let? l := (MediaRelationService_GetAll d).1 in
          Ok (List.filter (fun mr => bool_decide (MediaRelation_RelatedID mr = mID)) l))
  /\ (forall rel, (MediaRelationService_GetByRelationship rel d).1
        = let? l := (MediaRelationService_GetAll d).1 in
          Ok (List.filter (fun mr => bool_decide (MediaRelation_Relationship mr = rel)) l))
  /\ (forall ms, (GetAll UserMediaService d).1 = Ok ms ->
        exists l, ms = (fun um => Some (EUserMedia um)) <$> l
          /\ (UserMediaService_GetAll d).1 = Ok l)
  /\ (forall keep, UserMediaService_GetFilter keep d
        = (let? l := (UserMediaService_GetAll d).1 in Ok (List.filter keep l),
           (UserMediaService_GetAll d).2))
  /\ (forall uID, (UserMediaService_GetByUser uID d).1
        = let? l := (UserMediaService_GetAll d).1 in
          Ok (List.filter (fun um => bool_decide (UserMedia_UserID um = uID)) l))
  /\ (forall mID, (UserMediaService_GetByMedia mID d).1
        = let? l := (UserMediaService_GetAll d).1 in
          Ok (List.filter (fun um => bool_decide (UserMedia_MediaID um = mID)) l)).
Proof.
  repeat apply conj.
  - intros ms. apply MediaRelationService_GetAll_Ok.
  - intros keep. apply MediaRelationService_GetFilter_as_filter.
  - intros mID. unfold MediaRelationService_GetByOwner.
    by rewrite MediaRelationService_GetFilter_as_filter.
  - intros mID. unfold MediaRelationService_GetByRelated.
    by rewrite MediaRelationService_GetFilter_as_filter.
  - intros rel. unfold MediaRelationService_GetByRelationship.
    by rewrite MediaRelationService_GetFilter_as_filter.
  - intros ms. apply UserMediaService_GetAll_Ok.
  - intros keep. apply UserMediaService_GetFilter_as_filter.
  - intros uID. unfold UserMediaService_GetByUser.
    by rewrite UserMediaService_GetFilter_as_filter.
  - intros mID. unfold UserMediaService_GetByMedia.
    by rewrite UserMediaService_GetFilter_as_filter.
Qed.

End engine_reads.

(** ** Creating and clearing the buckets *)

Lemma for_names_create names st :
  exists st',
    for_names tx_CreateBucketIfNotExists names st = (Ok tt, st')
    /\ db st' = db st /\ tx_id (cur st') = tx_id (cur st)
    /\ forall name, tx_root (cur st') !! name =
         match tx_root (cur st) !! name with
         | Some bd => Some bd
         | None => if bool_decide (name ∈ names) then Some empty_bucket else None
         end.
Proof.
  revert st. induction names as [|n names IH]; intros st.
  - exists st. repeat split. intros name. by destruct (tx_root (cur st) !! name).
  - simpl. unfold bindM.
    destruct (tx_CreateBucketIfNotExists n st) as [r st1] eqn:E0.
    unfold tx_CreateBucketIfNotExists, set_bucket in E0.
    destruct (tx_root (cur st) !! n) as [bd|] eqn:E; injection E0 as <- <-.
    + destruct (IH st) as (st' & -> & Hdb & Hid & Hroot).
      exists st'. repeat split; try done. intros name. rewrite Hroot.
      destruct (tx_root (cur st) !! name) eqn:E1; [done|].
      destruct (decide (name = n)) as [->|Hn]; [congruence|].
      apply (f_equal (fun b : bool => if b then Some empty_bucket else None)).
      apply bool_decide_ext. rewrite elem_of_cons. split; [by right | by intros [?|?]].
    + match goal with |- context [for_names _ names ?s] => destruct (IH s) as (st' & -> & Hdb & Hid & Hroot) end.
      exists st'. repeat split; try done. intros name. rewrite Hroot. simpl.
      destruct (decide (name = n)) as [->|Hn].
      * rewrite lookup_insert_eq, E. rewrite bool_decide_eq_true_2; [done | by left].
      * rewrite lookup_insert_ne by done.
        destruct (tx_root (cur st) !! name) eqn:E1; [done|].
        apply (f_equal (fun b : bool => if b then Some empty_bucket else None)).
        apply bool_decide_ext. rewrite elem_of_cons. split; [by right | by intros [?|?]].
Qed.

Lemma ConnectDatabase_create_result d :
  exists d',
    ConnectDatabase_create d = (Ok tt, d')
    /\ forall name, committed d' !! name =
         match committed d !! name with
         | Some bd => Some bd
         | None => if bool_decide (name ∈ Buckets) then Some empty_bucket else None
         end.
Proof.
  unfold ConnectDatabase_create, DB_Update.
  destruct (for_names_create Buckets (begin true d)) as (st' & -> & Hdb & Hid & Hroot).
  eexists. split; [reflexivity|]. simpl. exact Hroot.
Qed.

(** X5.  [ConnectDatabase] with [create] set returns no error; it keeps
    every bucket that exists with its contents, creates each bucket of
    [Buckets] that is missing, empty, and creates no other bucket.  Running
    it again changes nothing. *)
Theorem ConnectDatabase_creates_the_missing_buckets (d : DB) :
  (ConnectDatabase_create d).1 = Ok tt
  /\ (forall name, committed (ConnectDatabase_create d).2 !! name =
        match committed d !! name with
        | Some bd => Some bd
        | None => if bool_decide (name ∈ Buckets) then Some empty_bucket else None
        end)
  /\ committed (ConnectDatabase_create (ConnectDatabase_create d).2).2
     = committed (ConnectDatabase_create d).2.
Proof.
  destruct (ConnectDatabase_create_result d) as (d1 & E1 & H1). rewrite E1. simpl.
  destruct (ConnectDatabase_create_result d1) as (d2 & E2 & H2). rewrite E2. simpl.
  repeat split; [exact H1|].
  apply map_eq. intros name. rewrite H2, H1.
  destruct (committed d !! name); [done|]. by destruct (bool_decide _).
Qed.

Lemma local_tx_DeleteBucket name : local (tx_DeleteBucket name).
Proof.
  intros st r st'. unfold tx_DeleteBucket.
  destruct (tx_root (cur st) !! name); intros [= <- <-].
  - repeat split. exists []. simpl. split; [by rewrite app_nil_r | constructor].
  - apply tx_local_refl.
Qed.

Lemma local_for_names f names : (forall n, local (f n)) -> local (for_names f names).
Proof.
  intros Hf. induction names as [|n names IH]; simpl; [apply local_ret|].
  apply local_bind; [apply Hf | intros; apply IH].
Qed.


Lemma for_names_delete_all names st :
  NoDup names ->
  Forall (fun n => is_Some (tx_root (cur st) !! n)) names ->
  exists st',
    for_names tx_DeleteBucket names st = (Ok tt, st')
    /\ forall name, tx_root (cur st') !! name
         = if bool_decide (name ∈ names) then None else tx_root (cur st) !! name.
Proof.
  revert st. induction names as [|n names IH]; intros st Hnd Hall.
  - exists st. split; [done|]. intros name.
    rewrite bool_decide_eq_false_2; [done | apply not_elem_of_nil].
  - apply NoDup_cons in Hnd as [Hn Hnd]. apply Forall_cons in Hall as [[bd Hbd] Hall].
    simpl. unfold bindM.
    destruct (tx_DeleteBucket n st) as [r st1] eqn:E0.
    unfold tx_DeleteBucket in E0. rewrite Hbd in E0. injection E0 as <- <-.
    match goal with |- context [for_names _ names ?s] => destruct (IH s Hnd) as (st' & -> & Hroot) end.
    { simpl. rewrite Forall_forall in *. intros x Hx.
      rewrite lookup_delete_ne; [by apply Hall | by intros ->]. }
    exists st'. split; [done|]. intros name. rewrite Hroot. simpl.
    destruct (decide (name = n)) as [->|Hne].
    + rewrite lookup_delete_eq. rewrite (bool_decide_eq_true_2 (n ∈ n :: names)) by by left.
      by destruct (bool_decide _).
    + rewrite lookup_delete_ne by done.
      apply (f_equal (fun b : bool => if b then None else tx_root (cur st) !! name)).
      apply bool_decide_ext. rewrite elem_of_cons. split; [by right | by intros [?|?]].
Qed.

Lemma for_names_delete_missing names st :
  Exists (fun n => tx_root (cur st) !! n = None) names ->
  (for_names tx_DeleteBucket names st).1 = Err ErrBucketNotFound.
Proof.
  revert st. induction names as [|n names IH]; intros st Hex.
  - by apply Exists_nil in Hex.
  - simpl. unfold bindM.
    destruct (tx_DeleteBucket n st) as [r st1] eqn:E0.
    unfold tx_DeleteBucket in E0.
    destruct (tx_root (cur st) !! n) as [bd|] eqn:E; injection E0 as <- <-; [|done].
    apply IH. apply Exists_cons in Hex as [Hex|Hex]; [congruence|].
    eapply Exists_impl; [exact Hex|]. simpl. intros x Hx.
    destruct (decide (x = n)) as [->|Hne]; [congruence|].
    by rewrite lookup_delete_ne.
Qed.

Lemma Buckets_NoDup : NoDup Buckets.
Proof. apply (bool_decide_unpack _). vm_compute. exact I. Qed.

Lemma ClearDatabase_all d :
  (forall name, name ∈ Buckets -> is_Some (committed d !! name)) ->
  (ClearDatabase d).1 = Ok tt
  /\ forall name, committed (ClearDatabase d).2 !! name
       = if bool_decide (name ∈ Buckets) then None else committed d !! name.
Proof.
  intros Hall. unfold ClearDatabase, DB_Update.
  destruct (for_names_delete_all Buckets (begin true d) Buckets_NoDup) as (st' & -> & Hroot).
  { apply Forall_forall. intros n Hn. by apply Hall. }
  simpl. split; [done | exact Hroot].
Qed.

Lemma ClearDatabase_missing d :
  (exists name, name ∈ Buckets /\ committed d !! name = None) ->
  (ClearDatabase d).1 = Err ErrBucketNotFound
  /\ committed (ClearDatabase d).2 = committed d.
Proof.
  intros (name & Hn & Hm).
  assert (E : (ClearDatabase d).1 = Err ErrBucketNotFound).
  { unfold ClearDatabase, DB_Update.
    pose proof (for_names_delete_missing Buckets (begin true d)) as H.
    destruct (for_names tx_DeleteBucket Buckets (begin true d)) as [r st'].
    simpl in H. rewrite H; [done|]. apply Exists_exists. by exists name. }
  split; [done|].
  destruct (ClearDatabase d) as [r d'] eqn:E1. simpl in *. subst r.
  unfold ClearDatabase in E1. apply DB_Update_nested in E1 as [_ E1]; [by apply E1|].
  apply local_nested, local_for_names, local_tx_DeleteBucket.
Qed.

(** X6.  [ClearDatabase] removes every bucket of [Buckets] and nothing
    else when they all exist.  When one of them is missing it returns the
    store's bucket-not-found error and removes nothing, also not the buckets
    that come before the missing one in [Buckets].  So it succeeds after
    [ConnectDatabase], and a second run in a row fails. *)
Theorem ClearDatabase_removes_all_or_nothing (d : DB) :
  ((forall name, name ∈ Buckets -> is_Some (committed d !! name)) ->
     (ClearDatabase d).1 = Ok tt
     /\ forall name, committed (ClearDatabase d).2 !! name
          = if bool_decide (name ∈ Buckets) then None else committed d !! name)
  /\ ((exists name, name ∈ Buckets /\ committed d !! name = None) ->
        (ClearDatabase d).1 = Err ErrBucketNotFound
        /\ committed (ClearDatabase d).2 = committed d)
  /\ (ClearDatabase (ConnectDatabase_create d).2).1 = Ok tt
  /\ (ClearDatabase (ClearDatabase (ConnectDatabase_create d).2).2).1
     = Err ErrBucketNotFound.
Proof.
  split; [apply ClearDatabase_all|]. split; [apply ClearDatabase_missing|].
  destruct (ConnectDatabase_create_result d) as (d1 & E1 & H1). rewrite E1. simpl.
  assert (Hall : forall name, name ∈ Buckets -> is_Some (committed d1 !! name)).
  { intros name Hn. rewrite H1. destruct (committed d !! name); [done|].
    by rewrite bool_decide_eq_true_2. }
  destruct (ClearDatabase_all d1 Hall) as [E2 H2].
  split; [done|].
  apply ClearDatabase_missing. exists MediaBucket.
  assert (Hm : MediaBucket ∈ Buckets) by (unfold Buckets; left).
  split; [done|]. rewrite H2. by rewrite bool_decide_eq_true_2.
Qed.

(** ** Reading back what was written *)

Section read_your_writes.
Context {O : Opaque} {L : Library}.

Lemma GetByID_result id ser d :
  (GetByID id ser d).1
  = let? v := (GetRawByID id (Service_Bucket ser) d).1 in Unmarshal ser v.
Proof.
  unfold GetByID, bindM. by destruct (GetRawByID id (Service_Bucket ser) d) as [[v|e|] d1].
Qed.

(** What a put under the key of [i] does to later lookups. *)
Lemma put_frame d d' name bd i buf s :
  committed d !! name = Some bd ->
  committed d' = <[name := mkBucketData (<[itob i := buf]> (kv bd)) s]> (committed d) ->
  (GetRawByID i name d').1 = Ok buf
  /\ (forall id, is_int id -> is_int i -> id <> i ->
        (GetRawByID id name d').1 = (GetRawByID id name d).1)
  /\ (forall name' id, name' <> name ->
        (GetRawByID id name' d').1 = (GetRawByID id name' d).1).
Proof.
  intros Hbd C. repeat split.
  - rewrite GetRawByID_result, C, lookup_insert_eq. simpl. by rewrite lookup_insert_eq.
  - intros id Hid Hi Hne. rewrite !GetRawByID_result, C, lookup_insert_eq, Hbd. simpl.
    rewrite lookup_insert_ne; [done|]. intros E. apply Hne. symmetry. by apply itob_inj.
  - intros name' id Hne. rewrite !GetRawByID_result, C. by rewrite lookup_insert_ne.
Qed.

(** X7.  After a successful [Create], [GetByID] of the new identifier
    returns what [Unmarshal] makes of the bytes [Marshal] produced for the
    returned model, and [GetRawByID] returns those bytes; [GetByID] of any
    other identifier, and of any identifier of a service with another
    bucket, returns what it returned before. *)
Theorem Create_then_GetByID (k : ServiceKind) (m m' : Model) (d d' : DB) :
  Create m (service_of k) d = (Ok m', d') ->
  exists e' buf,
    m' = Some e' /\ is_int (Entity_Iden e')
    /\ Marshal (service_of k) m' = Ok buf
    /\ (GetRawByID (Entity_Iden e') (Service_Bucket (service_of k)) d').1 = Ok buf
    /\ (GetByID (Entity_Iden e') (service_of k) d').1 = Unmarshal (service_of k) buf
    /\ (forall id, is_int id -> id <> Entity_Iden e' ->
          (GetByID id (service_of k) d').1 = (GetByID id (service_of k) d).1)
    /\ (forall k' id, Service_Bucket (service_of k') <> Service_Bucket (service_of k) ->
          (GetByID id (service_of k') d').1 = (GetByID id (service_of k') d).1).
Proof.
  intros E. apply Create_Ok in E as (bd & e' & buf & Hbd & -> & Hid & _ & Hm & C).
  assert (Hint : is_int (Entity_Iden e')) by (rewrite Hid; apply to_int_range).
  destruct (put_frame _ _ _ _ _ _ _ Hbd C) as (R1 & R2 & R3).
  exists e', buf. do 4 (split; [done|]). split; [|split].
  - by rewrite GetByID_result, R1.
  - intros id Hi Hne. by rewrite !GetByID_result, R2.
  - intros k' id Hne. by rewrite !GetByID_result, R3.
Qed.

(** X8.  After a successful [Update], [GetByID] of the entity's
    identifier returns what [Unmarshal] makes of the bytes [Marshal]
    produced for the returned model; [GetByID] of any other identifier, and
    of any identifier of a service with another bucket, returns what it
    returned before. *)
Theorem Update_then_GetByID (k : ServiceKind) (m m' : Model) (d d' : DB) :
  Update m (service_of k) d = (Ok m', d') ->
  exists e' buf,
    m' = Some e' /\ Iden m = Ok (Entity_Iden e')
    /\ Marshal (service_of k) m' = Ok buf
    /\ (GetRawByID (Entity_Iden e') (Service_Bucket (service_of k)) d').1 = Ok buf
    /\ (GetByID (Entity_Iden e') (service_of k) d').1 = Unmarshal (service_of k) buf
    /\ (forall id, is_int id -> is_int (Entity_Iden e') -> id <> Entity_Iden e' ->
          (GetByID id (service_of k) d').1 = (GetByID id (service_of k) d).1)
    /\ (forall k' id, Service_Bucket (service_of k') <> Service_Bucket (service_of k) ->
          (GetByID id (service_of k') d').1 = (GetByID id (service_of k') d).1).
Proof.
  intros E.
  apply Update_Ok in E as (bd & v & eo & e' & buf & Hbd & Hid & Hv & Ho & -> & Hver & Hm & C).
  destruct (put_frame _ _ _ _ _ _ _ Hbd C) as (R1 & R2 & R3).
  exists e', buf. do 4 (split; [done|]). split; [|split].
  - by rewrite GetByID_result, R1.
  - intros id Hi Hi' Hne. by rewrite !GetByID_result, R2.
  - intros k' id Hne. by rewrite !GetByID_result, R3.
Qed.

(** What each kind of call does to the one bucket it changes. *)
Lemma exec_change_by_kind op d :
  committed (exec op d) = committed d
  \/ exists name bd bd',
       committed d !! name = Some bd
       /\ committed (exec op d) = <[name := bd']> (committed d)
       /\ match op with
          | OpCreate _ _ =>
              exists buf,
                bd' = mkBucketData
                        (<[itob (to_int ((sequence bd + 1) mod 2 ^ 64)) := buf]> (kv bd))
                        ((sequence bd + 1) mod 2 ^ 64)
          | OpUpdate _ m =>
              exists id buf v,
                Iden m = Ok id /\ kv bd !! itob id = Some v
                /\ bd' = mkBucketData (<[itob id := buf]> (kv bd)) (sequence bd)
          | OpDelete _ id => bd' = mkBucketData (delete (itob id) (kv bd)) (sequence bd)
          end.
Proof.
  destruct op as [k m|k m|k id]; simpl.
  - destruct (Create m (service_of k) d) as [r d'] eqn:E. simpl.
    destruct r as [m'| |].
    + right. apply Create_Ok in E as (bd & e' & buf & Hbd & -> & Hid & _ & _ & C).
      exists (Service_Bucket (service_of k)), bd. eexists. split; [done|].
      split; [rewrite C, Hid; reflexivity|]. by exists buf.
    + left. rewrite Create_guarded in E. eapply guarded_fail; [|exact E|done].
      intros ?. apply local_nested, local_Create_body.
    + left. rewrite Create_guarded in E. eapply guarded_fail; [|exact E|done].
      intros ?. apply local_nested, local_Create_body.
  - destruct (Update m (service_of k) d) as [r d'] eqn:E. simpl.
    destruct r as [m'| |].
    + right. apply Update_Ok in E as (bd & v & eo & e' & buf & Hbd & Hid & Hv & _ & _ & _ & _ & C).
      exists (Service_Bucket (service_of k)), bd. eexists. split; [done|].
      split; [exact C|]. by exists (Entity_Iden e'), buf, v.
    + left. rewrite Update_guarded in E. eapply guarded_fail; [|exact E|done].
      intros ?. apply nested_Update_body.
    + left. rewrite Update_guarded in E. eapply guarded_fail; [|exact E|done].
      intros ?. apply nested_Update_body.
  - destruct (Delete_change k id d) as [C|(bd & Hbd & C)]; [by left|].
    right. exists (Service_Bucket (service_of k)), bd. eexists. split; [done|].
    split; [exact C | done].
Qed.

(** X9.  A call of [Create], [Update] or [Delete], whatever its outcome,
    creates and removes no bucket and changes the value of at most one key
    of one bucket.  [Update] leaves the set of keys and the sequence counter
    of every bucket as they were; [Delete] adds no key and leaves the
    counters; [Create] removes no key, and moves at most the counter of its
    bucket, by one. *)
Theorem engine_call_changes_at_most_one_record (op : Op) (d : DB) :
  (forall name, is_Some (committed (exec op d) !! name) <-> is_Some (committed d !! name))
  /\ (exists name key, forall name' bd bd',
        committed d !! name' = Some bd -> committed (exec op d) !! name' = Some bd' ->
        (name' <> name -> bd' = bd)
        /\ (forall key', key' <> key -> kv bd' !! key' = kv bd !! key'))
  /\ (forall name bd bd',
        committed d !! name = Some bd -> committed (exec op d) !! name = Some bd' ->
        match op with
        | OpCreate _ _ =>
            dom (kv bd) ⊆ dom (kv bd')
            /\ (sequence bd' = sequence bd \/ sequence bd' = (sequence bd + 1) mod 2 ^ 64)
        | OpUpdate _ _ => dom (kv bd') = dom (kv bd) /\ sequence bd' = sequence bd
        | OpDelete _ _ => dom (kv bd') ⊆ dom (kv bd) /\ sequence bd' = sequence bd
        end).
Proof.
  destruct (exec_change_by_kind op d) as [C|(name & bd & bd' & Hbd & C & Hk)]; rewrite C.
  { repeat split; try tauto.
    - exists ""%string, []. intros name' bd bd' H1 H2. rewrite H1 in H2. by injection H2 as <-.
    - intros name bd bd' H1 H2. rewrite H1 in H2. injection H2 as <-.
      destruct op; repeat split; auto. }
  split; [|split].
  - intros name'. destruct (decide (name' = name)) as [->|Hne].
    + rewrite lookup_insert_eq, Hbd. split; eauto.
    + by rewrite lookup_insert_ne.
  - assert (Hkey : exists key, forall key', key' <> key -> kv bd' !! key' = kv bd !! key').
    { destruct op as [k m|k m|k id].
      - destruct Hk as (buf & ->). eexists. intros key' Hne. simpl.
        by rewrite lookup_insert_ne.
      - destruct Hk as (id & buf & v & _ & _ & ->). eexists. intros key' Hne. simpl.
        by rewrite lookup_insert_ne.
      - subst bd'. eexists. intros key' Hne. simpl. by rewrite lookup_delete_ne. }
    destruct Hkey as (key & Hkey). exists name, key. intros name' bd0 bd0' H1 H2.
    destruct (decide (name' = name)) as [->|Hne].
    + rewrite lookup_insert_eq in H2. injection H2 as <-.
      rewrite Hbd in H1. injection H1 as <-. split; [done | exact Hkey].
    + rewrite lookup_insert_ne in H2 by done. rewrite H1 in H2. injection H2 as <-.
      done.
  - intros name' bd0 bd0' H1 H2.
    destruct (decide (name' = name)) as [->|Hne].
    + rewrite lookup_insert_eq in H2. injection H2 as <-.
      rewrite Hbd in H1. injection H1 as <-.
      destruct op as [k m|k m|k id].
      * destruct Hk as (buf & ->). simpl. split; [|by right].
        apply dom_insert_subseteq.
      * destruct Hk as (id & buf & v & _ & Hv & ->). simpl. split; [|done].
        apply dom_insert_lookup_L. by rewrite Hv.
      * subst bd'. simpl. split; [|done]. rewrite dom_delete. by apply subseteq_difference_l.
    + rewrite lookup_insert_ne in H2 by done. rewrite H1 in H2. injection H2 as <-.
      destruct op; repeat split; auto.
Qed.

End read_your_writes.

(** ** The outcome of a write that was accepted *)

Section write_outcomes.
Context {O : Opaque} {L : Library}.

Lemma Validate_committed k m d : committed (Validate (service_of k) m d).2 = committed d.
Proof.
  destruct (Validate (service_of k) m d) as [r d'] eqn:E.
  by apply Validate_step in E as [C _].
Qed.

Lemma Clean_typed k m m1 :
  Clean (service_of k) m = Ok m1 -> forall id, is_Ok (Initialize (service_of k) m1 id) = true.
Proof.
  destruct k; simpl; intros E id.
  - destruct m as [[]|]; try discriminate. by injection E as <-.
  - destruct m as [[]|]; try discriminate. cbn in E.
    destruct (infoListClean (Person_Names p)) as [? [?|]]; cbn in E; try discriminate.
    destruct (infoListClean (Person_Information p)) as [? [?|]]; cbn in E; try discriminate.
    by injection E as <-.
  - destruct m as [[]|]; try discriminate. by injection E as <-.
  - destruct m as [[]|]; try discriminate. cbn in E.
    destruct (infoListClean (UserMedia_Comments um)) as [? [?|]]; cbn in E; try discriminate.
    destruct (WatchedInstances_Clean (UserMedia_WatchedInstances um)); cbn in E; try discriminate.
    by injection E as <-.
Qed.

Lemma Create_body_result ser m1 dv bd m2 :
  committed dv !! Service_Bucket ser = Some bd ->
  Initialize ser m1 (to_int ((sequence bd + 1) mod 2 ^ 64)) = Ok m2 ->
  (DB_Update (Create_body ser m1) dv).1
  = let? buf := Marshal ser m2 in
    let? k := Iden m2 in
    if decide (MaxValueSize < Z.of_nat (length buf)) then Err ErrValueTooLarge
    else Ok m2.
Proof.
  intros Hbd Hi.
  unfold DB_Update, Create_body, bindM, get_tx, Bucket, tx_Bucket, check, ret,
    bucket_NextSequence, with_bucket, bindM, require_writable, log, set_bucket, ret.
  cbn. rewrite Hbd. cbn. rewrite Hbd. cbn. rewrite Hi.
  destruct (Marshal ser m2) as [buf| |]; cbn; try done.
  destruct (Iden m2) as [k| |]; cbn; try done.
  rewrite lookup_insert_eq.
  destruct (decide (8%nat = 0%nat)) as [?|_]; [lia|].
  destruct (decide (MaxKeySize < Z.of_nat 8)) as [?|_]; [unfold MaxKeySize in *; lia|].
  by destruct (decide (MaxValueSize < Z.of_nat (length buf))).
Qed.

(** X10.  Once [Clean] and [Validate] have accepted the entity and the
    service's bucket exists, [Create] can only fail on the encoding: the
    entity is initialised with the next sequence number as identifier, and
    the call returns it unless [Marshal] fails (then with its error) or the
    encoding is longer than the store's value limit. *)
Theorem Create_succeeds_once_the_entity_is_accepted
    (k : ServiceKind) (m m1 : Model) (d : DB) (bd : BucketData) :
  Clean (service_of k) m = Ok m1 ->
  (Validate (service_of k) m1 d).1 = Ok tt ->
  committed d !! Service_Bucket (service_of k) = Some bd ->
  exists e2,
    Initialize (service_of k) m1 (to_int ((sequence bd + 1) mod 2 ^ 64)) = Ok (Some e2)
    /\ Entity_Iden e2 = to_int ((sequence bd + 1) mod 2 ^ 64)
    /\ (Create m (service_of k) d).1
       = let? buf := Marshal (service_of k) (Some e2) in
         if decide (MaxValueSize < Z.of_nat (length buf)) then Err ErrValueTooLarge
         else Ok (Some e2).
Proof.
  intros Hc Hv Hbd.
  pose proof (Clean_typed k m m1 Hc (to_int ((sequence bd + 1) mod 2 ^ 64))) as Hi.
  destruct (Initialize (service_of k) m1 (to_int ((sequence bd + 1) mod 2 ^ 64)))
    as [m2| |] eqn:Ei; try discriminate.
  destruct (Initialize_spec _ _ _ _ Ei) as (e2 & -> & Hid & _).
  exists e2. split; [done|]. split; [done|].
  unfold Create, bindM at 1. unfold lift at 1. rewrite Hc.
  unfold bindM. pose proof (Validate_committed k m1 d) as C.
  destruct (Validate (service_of k) m1 d) as [rv dv]. simpl in Hv, C. subst rv.
  rewrite <- C in Hbd.
  pose proof (Create_body_result (service_of k) m1 dv bd (Some e2) Hbd Ei) as R.
  simpl in R. rewrite R. done.
Qed.

Lemma GetRawByID_Ok_run ID name d bd v :
  committed d !! name = Some bd -> kv bd !! itob ID = Some v ->
  exists d', GetRawByID ID name d = (Ok v, d') /\ committed d' = committed d.
Proof.
  intros Hbd Hv. pose proof (GetRawByID_result ID name d) as R.
  rewrite Hbd, Hv in R.
  destruct (GetRawByID ID name d) as [r d'] eqn:E. simpl in R. subst r.
  exists d'. split; [done|]. by apply reads_GetRawByID in E as [C _].
Qed.

Lemma Update_body_result ser m1 dv bd id v :
  committed dv !! Service_Bucket ser = Some bd ->
  Iden m1 = Ok id -> kv bd !! itob id = Some v ->
  (DB_Update (Update_body ser m1) dv).1
  = let? o := Unmarshal ser v in
    let? m2 := PersistOldProperties ser m1 o in
    let? buf := Marshal ser m2 in
    let? k := Iden m2 in
    if decide (MaxValueSize < Z.of_nat (length buf)) then Err ErrValueTooLarge
    else Ok m2.
Proof.
  intros Hbd Hid Hv.
  unfold DB_Update, Update_body. unfold bindM at 1. unfold lift at 1. rewrite Hid.
  unfold bindM at 1. unfold on_db.
  destruct (GetRawByID_Ok_run id (Service_Bucket ser) (db (begin true dv)) bd v Hbd Hv)
    as (d1 & -> & C1).
  unfold bindM at 1. unfold lift at 1.
  destruct (Unmarshal ser v) as [o| |]; cbn; try done.
  unfold bindM, get_tx, Bucket, tx_Bucket, check, ret, lift. cbn. rewrite Hbd. cbn.
  destruct (PersistOldProperties ser m1 o) as [m2| |]; cbn; try done.
  destruct (Marshal ser m2) as [buf| |]; cbn; try done.
  destruct (Iden m2) as [k| |]; cbn; try done.
  unfold bucket_Put, with_bucket, bindM, require_writable, log, set_bucket, fail. cbn.
  rewrite Hbd.
  destruct (decide (8%nat = 0%nat)) as [?|_]; [lia|].
  destruct (decide (MaxKeySize < Z.of_nat 8)) as [?|_]; [unfold MaxKeySize in *; lia|].
  by destruct (decide (MaxValueSize < Z.of_nat (length buf))).
Qed.

Lemma Clean_PersistOldProperties k m m1 v o :
  Clean (service_of k) m = Ok m1 -> Unmarshal (service_of k) v = Ok o ->
  exists e2, PersistOldProperties (service_of k) m1 o = Ok (Some e2)
    /\ Iden (Some e2) = Iden m1.
Proof.
  destruct k; simpl; intros E Ho.
  - destruct m as [[]|]; try discriminate. injection E as <-.
    unfold MediaService_Unmarshal in Ho.
    destruct (checked (json_Unmarshal v)); simpl in Ho; try discriminate.
    injection Ho as <-. eexists. split; reflexivity.
  - destruct m as [[]|]; try discriminate. cbn in E.
    destruct (infoListClean (Person_Names p)) as [? [?|]]; cbn in E; try discriminate.
    destruct (infoListClean (Person_Information p)) as [? [?|]]; cbn in E; try discriminate.
    injection E as <-.
    unfold PersonService_Unmarshal in Ho.
    destruct (checked (json_Unmarshal v)); simpl in Ho; try discriminate.
    injection Ho as <-. eexists. split; reflexivity.
  - destruct m as [[]|]; try discriminate. injection E as <-.
    unfold MediaRelationService_Unmarshal in Ho.
    destruct (checked (json_Unmarshal v)); simpl in Ho; try discriminate.
    injection Ho as <-. eexists. split; reflexivity.
  - destruct m as [[]|]; try discriminate. cbn in E.
    destruct (infoListClean (UserMedia_Comments um)) as [? [?|]]; cbn in E; try discriminate.
    destruct (WatchedInstances_Clean (UserMedia_WatchedInstances um)); cbn in E; try discriminate.
    injection E as <-.
    unfold UserMediaService_Unmarshal in Ho.
    destruct (checked (json_Unmarshal v)); simpl in Ho; try discriminate.
    injection Ho as <-. eexists. split; reflexivity.
Qed.

(** X11.  Once [Clean] and [Validate] have accepted the entity and a value
    is stored under its identifier, [Update] returns the decoder's error
    when that value does not decode; when it decodes, [PersistOldProperties]
    cannot fail, it keeps the identifier, and the call returns the entity
    unless [Marshal] fails or the encoding is longer than the store's value
    limit. *)
Theorem Update_outcome_once_the_entity_is_accepted
    (k : ServiceKind) (m m1 : Model) (d : DB) (bd : BucketData) (id : int) (v : bytes) :
  Clean (service_of k) m = Ok m1 ->
  (Validate (service_of k) m1 d).1 = Ok tt ->
  committed d !! Service_Bucket (service_of k) = Some bd ->
  Iden m = Ok id -> kv bd !! itob id = Some v ->
  (forall e, Unmarshal (service_of k) v = Err e ->
     (Update m (service_of k) d).1 = Err e)
  /\ (forall o, Unmarshal (service_of k) v = Ok o ->
        exists e2,
          PersistOldProperties (service_of k) m1 o = Ok (Some e2)
          /\ Entity_Iden e2 = id
          /\ (Update m (service_of k) d).1
             = let? buf := Marshal (service_of k) (Some e2) in
               if decide (MaxValueSize < Z.of_nat (length buf)) then Err ErrValueTooLarge
               else Ok (Some e2)).
Proof.
  intros Hc Hv Hbd Hid Hval.
  assert (Hid1 : Iden m1 = Ok id) by (rewrite <- Hid; eapply Clean_Iden, Hc).
  assert (R : (Update m (service_of k) d).1
              = let? o := Unmarshal (service_of k) v in
                let? m2 := PersistOldProperties (service_of k) m1 o in
                let? buf := Marshal (service_of k) m2 in
                let? k := Iden m2 in
                if decide (MaxValueSize < Z.of_nat (length buf)) then Err ErrValueTooLarge
                else Ok m2).
  { unfold Update, bindM at 1. unfold lift at 1. rewrite Hc.
    unfold bindM. pose proof (Validate_committed k m1 d) as C.
    destruct (Validate (service_of k) m1 d) as [rv dv]. simpl in Hv, C. subst rv.
    rewrite <- C in Hbd.
    apply (Update_body_result (service_of k) m1 dv bd id v Hbd Hid1 Hval). }
  split.
  - intros e He. by rewrite R, He.
  - intros o Ho. destruct (Clean_PersistOldProperties k m m1 v o Hc Ho) as (e2 & Hp & Hi).
    exists e2. split; [done|]. split.
    + rewrite Hid1 in Hi. simpl in Hi. by injection Hi.
    + rewrite R, Ho. simpl. rewrite Hp. simpl. done.
Qed.

End write_outcomes.

(** ** Trimming *)

Lemma is_space_eq c : is_space c = true -> c = Ascii.ascii_of_nat 32.
Proof. unfold is_space. apply Ascii.eqb_eq. Qed.

Lemma trim_left_spec s :
  starts_with_space (trim_left s) = false
  /\ exists n, s = spaces n +:+ trim_left s.
Proof.
  induction s as [|c s [IH1 (n & IH2)]]; simpl.
  - split; [done | by exists 0%nat].
  - destruct (is_space c) eqn:E.
    + split; [done|]. exists (S n). rewrite (is_space_eq c E).
      change (String (Ascii.ascii_of_nat 32) s
              = String (Ascii.ascii_of_nat 32) (spaces n +:+ trim_left s)).
      by rewrite <- IH2.
    + split; [simpl; done | by exists 0%nat].
Qed.

Lemma trim_right_spec s :
  ends_with_space (trim_right s) = false
  /\ starts_with_space (trim_right s) = starts_with_space s && negb (bool_decide (trim_right s = EmptyString))
  /\ exists n, s = trim_right s +:+ spaces n.
Proof.
  induction s as [|c s (IH1 & IH3 & n & IH2)]; simpl.
  - repeat split. by exists 0%nat.
  - destruct (trim_right s) as [|c' r] eqn:E.
    + destruct (is_space c) eqn:Ec; simpl.
      * repeat split. exists (S n). rewrite (is_space_eq c Ec).
        change (String (Ascii.ascii_of_nat 32) s = String (Ascii.ascii_of_nat 32) (spaces n)).
        by rewrite IH2 at 1.
      * rewrite Ec. repeat split. exists n.
        change (String c s = String c (EmptyString +:+ spaces n)).
        by rewrite IH2 at 1.
    + simpl. split; [exact IH1|]. split; [by rewrite andb_true_r|].
      exists n. change (String c s = String c (String c' r +:+ spaces n)).
      by rewrite IH2 at 1.
Qed.

Lemma trim_left_id s : starts_with_space s = false -> trim_left s = s.
Proof. destruct s as [|c s]; simpl; [done|]. by intros ->. Qed.

Lemma trim_right_id s : ends_with_space s = false -> trim_right s = s.
Proof.
  induction s as [|c s IH]; simpl; [done|].
  destruct s as [|c' s'].
  - simpl. by intros ->.
  - intros H. rewrite (IH H). done.
Qed.

Lemma strings_Trim_space_spec s :
  starts_with_space (strings_Trim_space s) = false
  /\ ends_with_space (strings_Trim_space s) = false
  /\ (exists n1 n2, s = spaces n1 +:+ strings_Trim_space s +:+ spaces n2)
  /\ strings_Trim_space (strings_Trim_space s) = strings_Trim_space s.
Proof.
  unfold strings_Trim_space.
  destruct (trim_left_spec s) as [L1 (n1 & L2)].
  destruct (trim_right_spec (trim_left s)) as (R1 & R3 & n2 & R2).
  assert (S1 : starts_with_space (trim_right (trim_left s)) = false).
  { rewrite R3, L1. done. }
  repeat split; try done.
  - exists n1, n2. rewrite <- R2. exact L2.
  - rewrite (trim_left_id _ S1). by apply trim_right_id.
Qed.

Lemma strings_Trim_space_id s :
  starts_with_space s = false -> ends_with_space s = false -> strings_Trim_space s = s.
Proof.
  intros H1 H2. unfold strings_Trim_space. rewrite (trim_left_id s H1). by apply trim_right_id.
Qed.

Lemma Season_Clean_idem s : Season_Clean (Season_Clean s) = Season_Clean s.
Proof.
  unfold Season_Clean. destruct s as [[q|] y]; simpl; [|done].
  destruct (decide (4 < q)); simpl; [done|].
  by destruct (decide (4 < q)).
Qed.

Section cleaning.
Context {O : Opaque} {L : Library}.

(** X12.  [Clean] of MediaRelationService and of MediaService never fails
    on a value of the service's type and cleaning a cleaned value changes
    nothing.  The cleaned Relationship has no space at either end and is the
    field less a run of spaces at each end; so are the cleaned Type and
    Source of a Media when they are set, and an unset Type or Source stays
    unset.  A Quarter above 4 becomes 0 and every other Quarter, set or not,
    stays; so a cleaned Quarter is at most 4.  Every other field is kept:
    the identifiers, the Version, and for a Media the Titles, Synopses,
    Background, StartDate, EndDate and the Year of the season.  A string
    with no space at either end is left as it is. *)
Theorem Clean_trims_and_is_idempotent :
  (forall mr : MediaRelation,
     exists rel,
       let mr' := mkMediaRelation (MediaRelation_ID mr) (MediaRelation_OwnerID mr)
                    (MediaRelation_RelatedID mr) rel (MediaRelation_Version mr) in
       MediaRelationService_Clean (Some (EMediaRelation mr)) = Ok (Some (EMediaRelation mr'))
       /\ starts_with_space rel = false /\ ends_with_space rel = false
       /\ (exists n1 n2, MediaRelation_Relationship mr = spaces n1 +:+ rel +:+ spaces n2)
       /\ MediaRelationService_Clean (Some (EMediaRelation mr')) = Ok (Some (EMediaRelation mr')))
  /\ (forall md : Media,
        exists md',
          MediaService_Clean (Some (EMedia md)) = Ok (Some (EMedia md'))
          /\ MediaService_Clean (Some (EMedia md')) = Ok (Some (EMedia md'))
          /\ Media_ID md' = Media_ID md /\ Media_Version md' = Media_Version md
          /\ Media_Titles md' = Media_Titles md
          /\ (forall t, Media_Type md' = Some t ->
                starts_with_space t = false /\ ends_with_space t = false)
          /\ (forall t, Media_Source md' = Some t ->
                starts_with_space t = false /\ ends_with_space t = false)
          /\ (forall q, Season_Quarter (Media_SeasonPremiered md') = Some q -> q <= 4)
          /\ Media_Synopses md' = Media_Synopses md
          /\ Media_Background md' = Media_Background md
          /\ Media_StartDate md' = Media_StartDate md
          /\ Media_EndDate md' = Media_EndDate md
          /\ Season_Year (Media_SeasonPremiered md') = Season_Year (Media_SeasonPremiered md)
          /\ Season_Quarter (Media_SeasonPremiered md')
             = match Season_Quarter (Media_SeasonPremiered md) with
               | Some q => Some (if decide (4 < q) then 0 else q)
               | None => None
               end
          /\ match Media_Type md with
             | Some t =>
                 exists t', Media_Type md' = Some t'
                   /\ starts_with_space t' = false /\ ends_with_space t' = false
                   /\ exists n1 n2, t = spaces n1 +:+ t' +:+ spaces n2
             | None => Media_Type md' = None
             end
          /\ match Media_Source md with
             | Some t =>
                 exists t', Media_Source md' = Some t'
                   /\ starts_with_space t' = false /\ ends_with_space t' = false
                   /\ exists n1 n2, t = spaces n1 +:+ t' +:+ spaces n2
             | None => Media_Source md' = None
             end)
  /\ (forall s, starts_with_space s = false -> ends_with_space s = false ->
        strings_Trim_space s = s).
Proof.
  split; [|split].
  - intros mr. exists (strings_Trim_space (MediaRelation_Relationship mr)).
    destruct (strings_Trim_space_spec (MediaRelation_Relationship mr)) as (H1 & H2 & H3 & H4).
    split; [reflexivity|]. do 3 (split; [done|]).
    unfold MediaRelationService_Clean.
    cbn [bindO MediaRelationService_assertType MediaRelation_ID MediaRelation_OwnerID
         MediaRelation_RelatedID MediaRelation_Relationship MediaRelation_Version].
    by rewrite H4.
  - intros md. eexists. split; [reflexivity|].
    split.
    + unfold MediaService_Clean.
      cbn [bindO MediaService_AssertType Media_ID Media_Titles Media_Synopses
           Media_Background Media_StartDate Media_EndDate Media_SeasonPremiered
           Media_Type Media_Source Media_Version].
      rewrite Season_Clean_idem.
      destruct (Media_Type md) as [t|], (Media_Source md) as [t'|];
        cbn [fmap option_fmap option_map];
        rewrite ?(proj2 (proj2 (proj2 (strings_Trim_space_spec _)))); reflexivity.
    + cbn [Media_ID Media_Titles Media_Synopses
           Media_Background Media_StartDate Media_EndDate Media_SeasonPremiered
           Media_Type Media_Source Media_Version].
      do 3 (split; [reflexivity|]). split; [|split; [|split]].
      * intros t. destruct (Media_Type md) as [t0|]; cbn [fmap option_fmap option_map]; [|done].
        intros [= <-]. split; apply strings_Trim_space_spec.
      * intros t. destruct (Media_Source md) as [t0|]; cbn [fmap option_fmap option_map]; [|done].
        intros [= <-]. split; apply strings_Trim_space_spec.
      * intros q. unfold Season_Clean.
        destruct (Season_Quarter (Media_SeasonPremiered md)) as [q0|] eqn:E; [|by rewrite E].
        destruct (decide (4 < q0)); simpl; [by intros [= <-]|].
        rewrite E. intros [= <-]. lia.
      * do 4 (split; [reflexivity|]). split; [|split; [|split]].
        -- unfold Season_Clean.
           destruct (Season_Quarter (Media_SeasonPremiered md)) as [q0|]; [|done].
           by destruct (decide (4 < q0)).
        -- unfold Season_Clean.
           destruct (Season_Quarter (Media_SeasonPremiered md)) as [q0|] eqn:E; [|done].
           destruct (decide (4 < q0)); [done | exact E].
        -- destruct (Media_Type md) as [t0|]; cbn [fmap option_fmap option_map]; [|done].
           exists (strings_Trim_space t0). split; [done|].
           destruct (strings_Trim_space_spec t0) as (H1 & H2 & H3 & _). done.
        -- destruct (Media_Source md) as [t0|]; cbn [fmap option_fmap option_map]; [|done].
           exists (strings_Trim_space t0). split; [done|].
           destruct (strings_Trim_space_spec t0) as (H1 & H2 & H3 & _). done.
  - apply strings_Trim_space_id.
Qed.

End cleaning.

(** ** Quarter *)

Lemma pretty_N_go_head x s :
  (0 < x)%N -> exists n s', pretty_N_go x s = String (pretty_N_char n) s'.
Proof.
  revert s. induction (N.lt_wf_0 x) as [x _ IH]; intros s Hx.
  rewrite pretty_N_go_step by done.
  destruct (decide (x `div` 10 = 0)%N) as [E|E].
  - rewrite E, pretty_N_go_0. eauto.
  - apply IH; [by apply N.div_lt | by apply N.neq_0_lt_0].
Qed.

Lemma pretty_Z_head (z : Z) :
  exists c s', pretty z = String c s'
    /\ (c = "-"%char \/ exists n, c = pretty_N_char n).
Proof.
  destruct z as [|p|p].
  - exists "0"%char, EmptyString. split; [done|]. right. by exists 0%N.
  - unfold pretty, pretty_Z, pretty, pretty_positive, pretty, pretty_N.
    destruct (decide (N.pos p = 0%N)) as [?|_]; [done|].
    destruct (pretty_N_go_head (N.pos p) EmptyString) as (n & s' & ->); [lia|].
    exists (pretty_N_char n), s'. split; [done|]. right. by exists n.
  - exists "-"%char. eexists. split; [reflexivity|]. by left.
Qed.

Lemma pretty_Z_not_a_name (z : Z) c s :
  c <> "-"%char -> (forall n, c <> pretty_N_char n) -> pretty z <> String c s.
Proof.
  intros H1 H2 E. destruct (pretty_Z_head z) as (c' & s' & E' & [->|(n & ->)]);
    rewrite E' in E; injection E as <- _; [done | by apply (H2 n)].
Qed.

Lemma pretty_Z_no_quarter_name (z : Z) :
  pretty z <> "Winter"%string /\ pretty z <> "Spring"%string
  /\ pretty z <> "Summer"%string /\ pretty z <> "Fall"%string.
Proof.
  repeat split; apply pretty_Z_not_a_name; try done;
    intros n; unfold pretty_N_char; repeat case_match; discriminate.
Qed.

Lemma Quarter_IsValid_range q : Quarter_IsValid q = true <-> 1 <= q <= 4.
Proof.
  unfold Quarter_IsValid, Winter, Spring, Summer, Fall.
  rewrite bool_decide_eq_true, !elem_of_cons, elem_of_nil. lia.
Qed.

(** X13.  The valid quarters are 1 to 4.  [UnmarshalGQL] reads the name
    [String] gives a valid quarter back to that quarter; an invalid quarter
    is printed as its number, which [UnmarshalGQL] refuses, leaving the
    receiver as it was.  Whatever [UnmarshalGQL] accepts is the name of the
    valid quarter it assigns, and on an error the receiver is unchanged.
    Cleaning a Season sets a quarter above 4 to 0 and leaves every other
    quarter: it never turns an invalid quarter into a valid one. *)
Theorem Quarter_names_round_trip (q q0 : Quarter) :
  (Quarter_IsValid q = true <-> 1 <= q <= 4)
  /\ (Quarter_IsValid q = true ->
        Quarter_UnmarshalGQL q0 (GoString (Quarter_String q)) = (q, None))
  /\ (Quarter_IsValid q = false ->
        Quarter_String q = pretty q
        /\ Quarter_UnmarshalGQL q0 (GoString (Quarter_String q))
           = (q0, Some (pretty q +:+ " is not a valid Quarter")))
  /\ (forall v q', Quarter_UnmarshalGQL q0 v = (q', None) ->
        Quarter_IsValid q' = true /\ v = GoString (Quarter_String q'))
  /\ (forall v q' e, Quarter_UnmarshalGQL q0 v = (q', Some e) -> q' = q0)
  /\ (forall s, Season_Quarter s = Some q ->
        exists q', Season_Quarter (Season_Clean s) = Some q'
          /\ q' <= 4 /\ Quarter_IsValid q' = Quarter_IsValid q
          /\ (q <= 4 -> q' = q)
          /\ q' = (if decide (4 < q) then 0 else q)).
Proof.
  split; [apply Quarter_IsValid_range|]. split; [|split; [|split; [|split]]].
  - intros Hv. apply Quarter_IsValid_range in Hv.
    assert (q = 1 \/ q = 2 \/ q = 3 \/ q = 4) as [-> | [-> | [-> | ->]]] by lia; reflexivity.
  - intros Hv.
    assert (Hr : ~ (1 <= q <= 4)).
    { rewrite <- Quarter_IsValid_range. by rewrite Hv. }
    assert (Hs : Quarter_String q = pretty q).
    { unfold Quarter_String, Winter, Spring, Summer, Fall.
      repeat (case_decide; [lia|]). done. }
    split; [done|]. rewrite Hs.
    destruct (pretty_Z_no_quarter_name q) as (N1 & N2 & N3 & N4).
    unfold Quarter_UnmarshalGQL. repeat (case_decide; [done|]). done.
  - intros v q' E. destruct v as [str|]; [|discriminate].
    unfold Quarter_UnmarshalGQL in E.
    repeat (case_decide; [injection E as <-; subst str; by split|]). discriminate.
  - intros v q' e E. destruct v as [str|]; [|by injection E].
    unfold Quarter_UnmarshalGQL in E.
    repeat (case_decide; [discriminate|]). by injection E.
  - intros s Hs. unfold Season_Clean. rewrite Hs.
    destruct (decide (4 < q)) as [Hq|Hq]; simpl.
    + exists 0. repeat split; try lia.
      symmetry. apply not_true_is_false. rewrite Quarter_IsValid_range. lia.
    + exists q. rewrite Hs. repeat split; try done. lia.
Qed.

(** ** WatchStatus *)

Lemma string_of_bytes_of_string s : string_of_bytes (bytes_of_string s) = s.
Proof.
  induction s as [|c s IH]; simpl; [done|].
  by rewrite Ascii.ascii_of_byte_of_ascii, IH.
Qed.

Lemma example_json_string_round_trips : Json_round_trips string (J := example_json_string).
Proof. intros s buf [= <-]. simpl. by rewrite string_of_bytes_of_string. Qed.

Section watch_status.
Context {O : Opaque} {L : Library}.

Lemma WatchStatus_names_Some ws name :
  WatchStatus_names !! ws = Some name ->
  (ws = Completed /\ name = "Completed"%string)
  \/ (ws = Planning /\ name = "Planning"%string)
  \/ (ws = Dropped /\ name = "Dropped"%string)
  \/ (ws = Hold /\ name = "Hold"%string).
Proof.
  intros Hname. unfold WatchStatus_names in Hname. simpl in Hname.
  repeat (rewrite lookup_insert in Hname; case_decide;
          [injection Hname as <-; subst ws; tauto|]).
  by rewrite lookup_empty in Hname.
Qed.

Lemma WatchStatus_values_Some name ws :
  WatchStatus_values !! name = Some ws ->
  (ws = Completed /\ name = "Completed"%string)
  \/ (ws = Planning /\ name = "Planning"%string)
  \/ (ws = Dropped /\ name = "Dropped"%string)
  \/ (ws = Hold /\ name = "Hold"%string).
Proof.
  intros Hname. unfold WatchStatus_values in Hname. simpl in Hname.
  repeat (rewrite lookup_insert in Hname; case_decide;
          [injection Hname as <-; subst name; tauto|]).
  by rewrite lookup_empty in Hname.
Qed.

(** X14.  [UnmarshalJSON] of WatchStatus assigns one of the four values
    Completed to Hold, the one whose name the library decoded, and leaves
    the receiver as it was when it returns an error (the library's, or the
    invalid-name error).  [MarshalJSON] encodes the name of the value for
    the four values, and returns its error for every other number. *)
Theorem WatchStatus_codec_accepts_the_four_values (ws ws0 : WatchStatus) (data : bytes) :
  (forall ws', WatchStatus_UnmarshalJSON ws0 data = (ws', None) ->
     Completed <= ws' <= Hold
     /\ (json_Unmarshal (A := string) data).2 = None
     /\ WatchStatus_names !! ws' = Some (json_Unmarshal (A := string) data).1)
  /\ (forall ws' e, WatchStatus_UnmarshalJSON ws0 data = (ws', Some e) ->
        ws' = ws0
        /\ ((json_Unmarshal (A := string) data).2 = Some e
            \/ e = ErrWatchStatusName (json_Unmarshal (A := string) data).1))
  /\ (Completed <= ws <= Hold ->
        exists name, WatchStatus_names !! ws = Some name
          /\ WatchStatus_values !! name = Some ws
          /\ WatchStatus_MarshalJSON ws = json_Marshal name)
  /\ (~ (Completed <= ws <= Hold) ->
        WatchStatus_MarshalJSON ws = ([], Some ErrWatchStatusValue)).
Proof.
  split; [|split; [|split]].
  - intros ws' E. unfold WatchStatus_UnmarshalJSON in E.
    destruct (json_Unmarshal data) as [s [e|]]; [discriminate|]. simpl.
    destruct (WatchStatus_values !! s) as [value|] eqn:Hv; [|discriminate].
    injection E as <-.
    apply WatchStatus_values_Some in Hv as [[-> ->]|[[-> ->]|[[-> ->]|[-> ->]]]];
      by repeat split.
  - intros ws' e E. unfold WatchStatus_UnmarshalJSON in E.
    destruct (json_Unmarshal data) as [s [e'|]]; simpl.
    + injection E as <- <-. split; [done | by left].
    + destruct (WatchStatus_values !! s) as [value|]; [discriminate|].
      injection E as <- <-. split; [done | by right].
  - intros Hr. unfold WatchStatus_MarshalJSON, Completed, Planning, Dropped, Hold in *.
    assert (ws = 0 \/ ws = 1 \/ ws = 2 \/ ws = 3) as [-> | [-> | [-> | ->]]] by lia;
      eexists; repeat split; reflexivity.
  - apply WatchStatus_MarshalJSON_out_of_range.
Qed.

End watch_status.

(** Dropped, written and read back with the stand-in string codec. *)
Lemma WatchStatus_round_trip_witness :
  WatchStatus_names !! Dropped = Some "Dropped"%string
  /\ Json_round_trips string (J := example_json_string)
  /\ WatchStatus_MarshalJSON (L := example_library) Dropped
     = (bytes_of_string "Dropped", None)
  /\ WatchStatus_UnmarshalJSON (L := example_library) Completed (bytes_of_string "Dropped")
     = (Dropped, None).
Proof.
  split; [reflexivity|]. split; [exact example_json_string_round_trips|].
  split; [reflexivity|].
  exact (WatchStatus_round_trip (L := example_library) Dropped Completed "Dropped"
           eq_refl example_json_string_round_trips (bytes_of_string "Dropped") eq_refl).
Defined.

(** ** Lookups inside a transaction *)

Lemma get_run ID name st :
  exists st',
    cur st' = cur st
    /\ get ID (tx_Bucket (cur st) name) st
       = (match tx_root (cur st) !! name with
          | None => Err ErrBucketNil
          | Some bd =>
              match kv bd !! itob ID with
              | None => Err (ErrNotFound ID)
              | Some v => Ok v
              end
          end, st').
Proof.
  unfold tx_Bucket. destruct (tx_root (cur st) !! name) as [bd|] eqn:E.
  - unfold get, bucket_Get, with_bucket, bindM, log, ret, fail. cbn. rewrite E.
    destruct (kv bd !! itob ID); eexists; (split; [|reflexivity]); reflexivity.
  - exists st. split; reflexivity.
Qed.

Lemma get_each_run ids name st :
  (get_each ids (tx_Bucket (cur st) name) st).1
  = foldr (fun id acc =>
             let? _ := match tx_root (cur st) !! name with
                       | None => Err ErrBucketNil
                       | Some bd =>
                           match kv bd !! itob id with
                           | None => Err (ErrNotFound id)
                           | Some v => Ok v
                           end
                       end in acc) (Ok tt) ids.
Proof.
  revert st. induction ids as [|id ids IH]; intros st; [done|].
  simpl. unfold bindM.
  destruct (get_run id name st) as (st' & Hcur & ->).
  destruct (tx_root (cur st) !! name) as [bd|] eqn:E; [|done].
  destruct (kv bd !! itob id); [|done]. simpl.
  rewrite <- Hcur, IH. by rewrite Hcur, E.
Qed.

Lemma DB_View_fst {A} (fn : M TxState A) d : (DB_View fn d).1 = (fn (begin false d)).1.
Proof. unfold DB_View. by destruct (fn (begin false d)). Qed.

(** ** The lookups of [Validate] *)

Section validation.
Context {O : Opaque} {L : Library}.

Lemma MediaRelationService_Validate_result mr d :
  (MediaRelationService_Validate (Some (EMediaRelation mr)) d).1
  = let? _ := (GetRawByID (MediaRelation_OwnerID mr) MediaBucket d).1 in
    let? _ := (GetRawByID (MediaRelation_RelatedID mr) MediaBucket d).1 in
    Ok tt.
Proof.
  rewrite !GetRawByID_result.
  unfold MediaRelationService_Validate, bindM at 1. unfold lift at 1.
  cbn [MediaRelationService_assertType]. rewrite DB_View_fst.
  unfold bindM at 1. unfold get_tx at 1. cbn [Bucket]. unfold bindM at 1, check at 1, ret at 1.
  unfold bindM at 1.
  destruct (get_run (MediaRelation_OwnerID mr) MediaBucket (begin false d)) as (st1 & C1 & E1).
  change (cur (begin false d)) with (mkTx (tx_count d) false (committed d)) in *.
  cbn [tx_root] in E1. rewrite E1.
  destruct (committed d !! MediaBucket) as [mb|] eqn:Hmb; [|done].
  destruct (kv mb !! itob (MediaRelation_OwnerID mr)); [|done]. cbn [bindO].
  unfold bindM.
  destruct (get_run (MediaRelation_RelatedID mr) MediaBucket st1) as (st2 & C2 & E2).
  rewrite C1 in E2. cbn [tx_root] in E2.
  replace (tx_Bucket {| tx_id := tx_count d; tx_writable := false; tx_root := committed d |} MediaBucket)
    with (tx_Bucket (cur st1) MediaBucket) by by rewrite C1.
  rewrite C1. rewrite E2, Hmb.
  by destruct (kv mb !! itob (MediaRelation_RelatedID mr)).
Qed.

Lemma lookups_foldr name d ids :
  foldr (fun id acc => let? _ := (GetRawByID id name d).1 in acc) (Ok tt) ids
  = foldr (fun id acc =>
             let? _ := match committed d !! name with
                       | None => Err ErrBucketNil
                       | Some bd =>
                           match kv bd !! itob id with
                           | None => Err (ErrNotFound id)
                           | Some v => Ok v
                           end
                       end in acc) (Ok tt) ids.
Proof.
  induction ids as [|id ids IH]; simpl; [done|]. by rewrite GetRawByID_result, IH.
Qed.

Lemma UserMediaService_Validate_result um d :
  (UserMediaService_Validate (Some (EUserMedia um)) d).1
  = let? _ := (GetRawByID (UserMedia_UserID um) UserBucket d).1 in
    let? _ := (GetRawByID (UserMedia_MediaID um) MediaBucket d).1 in
    foldr (fun id acc => let? _ := (GetRawByID id UserMediaListBucket d).1 in acc)
      (Ok tt) (UserMedia_UserMediaListIDs um).
Proof.
  rewrite lookups_foldr, !GetRawByID_result.
  unfold UserMediaService_Validate, bindM at 1. unfold lift at 1.
  cbn [UserMediaService_assertType]. rewrite DB_View_fst.
  unfold bindM at 1. unfold get_tx at 1. cbn [Bucket]. unfold bindM at 1, check at 1, ret at 1.
  unfold bindM at 1.
  destruct (get_run (UserMedia_UserID um) UserBucket (begin false d)) as (st1 & C1 & E1).
  change (cur (begin false d)) with (mkTx (tx_count d) false (committed d)) in *.
  cbn [tx_root] in E1. rewrite E1.
  destruct (committed d !! UserBucket) as [ub|] eqn:Hub; [|done].
  destruct (kv ub !! itob (UserMedia_UserID um)); [|done]. cbn [bindO].
  unfold bindM at 1, check at 1, ret at 1. unfold bindM at 1.
  destruct (get_run (UserMedia_MediaID um) MediaBucket st1) as (st2 & C2 & E2).
  rewrite C1 in E2. cbn [tx_root] in E2. rewrite E2.
  destruct (committed d !! MediaBucket) as [mb|] eqn:Hmb; [|done].
  destruct (kv mb !! itob (UserMedia_MediaID um)); [|done]. cbn [bindO].
  unfold bindM at 1, check at 1, ret at 1.
  pose proof (get_each_run (UserMedia_UserMediaListIDs um) UserMediaListBucket st2) as E3.
  rewrite C2, C1 in E3. cbn [tx_root] in E3. exact E3.
Qed.

Lemma lookups_all_Ok name d ids :
  foldr (fun id acc => let? _ := (GetRawByID id name d).1 in acc) (Ok tt) ids = Ok tt
  <-> Forall (fun id => is_Some (stored d name id)) ids.
Proof.
  induction ids as [|id ids IH]; simpl; [split; [constructor | done]|].
  rewrite Forall_cons, <- IH, GetRawByID_result. unfold stored.
  destruct (committed d !! name) as [bd|]; simpl.
  - destruct (kv bd !! itob id) as [v|]; simpl.
    + split; [intros H; split; [by eexists | done] | by intros [_ H]].
    + split; [done | by intros [[? [=]] _]].
  - split; [done | by intros [[? [=]] _]].
Qed.

(** X15.  [Validate] of MediaRelationService has the outcome of looking up
    the OwnerID and then the RelatedID in the Media bucket: it accepts
    exactly when both have a value there.  [Validate] of UserMediaService
    looks up the UserID in the User bucket, the MediaID in the Media bucket
    and then every id of UserMediaListIDs in the UserMediaList bucket, and
    accepts exactly when all of them have a value; with no list ids the
    UserMediaList bucket is not looked at.  No [Validate] changes the
    committed buckets. *)
Theorem Validate_checks_that_the_referenced_entities_exist (d : DB) :
  (forall mr : MediaRelation,
     (MediaRelationService_Validate (Some (EMediaRelation mr)) d).1
     = (let? _ := (GetRawByID (MediaRelation_OwnerID mr) MediaBucket d).1 in
        let? _ := (GetRawByID (MediaRelation_RelatedID mr) MediaBucket d).1 in
        Ok tt)
     /\ ((MediaRelationService_Validate (Some (EMediaRelation mr)) d).1 = Ok tt
         <-> is_Some (stored d MediaBucket (MediaRelation_OwnerID mr))
             /\ is_Some (stored d MediaBucket (MediaRelation_RelatedID mr))))
  /\ (forall um : UserMedia,
        (UserMediaService_Validate (Some (EUserMedia um)) d).1
        = (let? _ := (GetRawByID (UserMedia_UserID um) UserBucket d).1 in
           let? _ := (GetRawByID (UserMedia_MediaID um) MediaBucket d).1 in
           foldr (fun id acc => let? _ := (GetRawByID id UserMediaListBucket d).1 in acc)
             (Ok tt) (UserMedia_UserMediaListIDs um))
        /\ ((UserMediaService_Validate (Some (EUserMedia um)) d).1 = Ok tt
            <-> is_Some (stored d UserBucket (UserMedia_UserID um))
                /\ is_Some (stored d MediaBucket (UserMedia_MediaID um))
                /\ Forall (fun id => is_Some (stored d UserMediaListBucket id))
                     (UserMedia_UserMediaListIDs um)))
  /\ (forall k m, committed (Validate (service_of k) m d).2 = committed d).
Proof.
  split; [|split].
  - intros mr. split; [apply MediaRelationService_Validate_result|].
    rewrite MediaRelationService_Validate_result, !GetRawByID_result. unfold stored.
    destruct (committed d !! MediaBucket) as [mb|]; simpl;
      [|split; [done | by intros [[? [=]] _]]].
    destruct (kv mb !! itob (MediaRelation_OwnerID mr)) as [v1|]; simpl;
      [|split; [done | by intros [[? [=]] _]]].
    destruct (kv mb !! itob (MediaRelation_RelatedID mr)) as [v2|]; simpl;
      [|split; [done | by intros [_ [? [=]]]]].
    split; [intros _; split; by eexists | done].
  - intros um. split; [apply UserMediaService_Validate_result|].
    rewrite UserMediaService_Validate_result.
    rewrite <- lookups_all_Ok, !GetRawByID_result. unfold stored.
    destruct (committed d !! UserBucket) as [ub|]; simpl;
      [|split; [done | by intros [[? [=]] _]]].
    destruct (kv ub !! itob (UserMedia_UserID um)) as [v1|]; simpl;
      [|split; [done | by intros [[? [=]] _]]].
    destruct (committed d !! MediaBucket) as [mb|]; simpl;
      [|split; [done | by intros (_ & [? [=]] & _)]].
    destruct (kv mb !! itob (UserMedia_MediaID um)) as [v2|]; simpl;
      [|split; [done | by intros (_ & [? [=]] & _)]].
    split; [intros H; repeat split; by eauto | by intros (_ & _ & H)].
  - intros k m. apply Validate_committed.
Qed.

End validation.

(** ** Identifiers and the sequence counter *)

Lemma to_int_small u : 0 <= u <= int_max -> to_int u = u.
Proof.
  unfold to_int, int_max. intros H. rewrite Z.mod_small by lia. lia.
Qed.

Lemma to_int_half : to_int (int_max + 1) = int_min.
Proof. reflexivity. Qed.

Section identifiers.
Context {O : Opaque} {L : Library}.

(** X16.  A successful [Create] moves the sequence counter of its bucket
    up by one (modulo 2^64).  Below the largest int the identifier is the
    old counter plus one, and the next successful [Create] in the bucket
    gets the identifier after it and leaves the first entity's value in
    place.  At the largest int the identifier wraps around to the smallest
    int, and at 2^64 - 1 to 0. *)
Theorem Create_identifier_follows_the_sequence
    (k : ServiceKind) (m m' : Model) (d d' : DB) (bd : BucketData) :
  committed d !! Service_Bucket (service_of k) = Some bd ->
  0 <= sequence bd < 2 ^ 64 ->
  Create m (service_of k) d = (Ok m', d') ->
  exists e' bd',
    m' = Some e'
    /\ committed d' !! Service_Bucket (service_of k) = Some bd'
    /\ sequence bd' = (sequence bd + 1) mod 2 ^ 64
    /\ (sequence bd < int_max ->
          Entity_Iden e' = sequence bd + 1 /\ sequence bd' = sequence bd + 1)
    /\ (sequence bd = int_max -> Entity_Iden e' = int_min)
    /\ (sequence bd = 2 ^ 64 - 1 -> Entity_Iden e' = 0 /\ sequence bd' = 0)
    /\ (forall m2 m2' d2,
          sequence bd + 1 < int_max ->
          Create m2 (service_of k) d' = (Ok m2', d2) ->
          Iden m2' = Ok (Entity_Iden e' + 1)
          /\ stored d2 (Service_Bucket (service_of k)) (Entity_Iden e')
             = stored d' (Service_Bucket (service_of k)) (Entity_Iden e')).
Proof.
  intros Hbd Hseq E.
  apply Create_Ok in E as (bd0 & e' & buf & Hbd0 & -> & Hid & _ & _ & C).
  rewrite Hbd in Hbd0. injection Hbd0 as <-.
  eexists e', _. split; [done|]. split; [by rewrite C, lookup_insert_eq|].
  cbn [sequence]. split; [done|].
  split; [|split; [|split]].
  - intros Hlt. unfold int_max in Hlt. rewrite Z.mod_small in * by lia.
    split; [|done]. rewrite Hid. apply to_int_small. unfold int_max. lia.
  - intros Heq. rewrite Hid, Heq. reflexivity.
  - intros Heq. rewrite Hid, Heq. split; reflexivity.
  - intros m2 m2' d2 Hlt E2. unfold int_max in Hlt.
    apply Create_Ok in E2 as (bd1 & e2 & buf2 & Hbd1 & -> & Hid2 & _ & _ & C2).
    rewrite C, lookup_insert_eq in Hbd1. injection Hbd1 as <-. cbn [sequence kv] in *.
    rewrite (Z.mod_small (sequence bd + 1)) in * by lia.
    rewrite Z.mod_small in Hid2 by lia.
    rewrite to_int_small in Hid by (unfold int_max; lia).
    rewrite to_int_small in Hid2 by (unfold int_max; lia).
    split; [simpl; rewrite Hid2, Hid; f_equal; lia|].
    unfold stored. rewrite C2, C, !lookup_insert_eq. cbn [kv].
    rewrite lookup_insert_ne; [done|].
    rewrite Hid2, Hid. intros Heq. apply itob_inj in Heq; unfold is_int, int_min, int_max; lia.
Qed.

(** ** Calls that only read *)

Lemma read_only_View {A} (fn : M TxState A) d :
  local fn -> read_only_call d (DB_View fn d).2.
Proof.
  intros Hl. destruct (DB_View fn d) as [r d'] eqn:E.
  exact (DB_View_local _ _ _ _ Hl E).
Qed.

Lemma read_only_then_lift {A B} (m : M DB A) (f : A -> outcome B) d :
  read_only_call d (m d).2 -> read_only_call d ((let! a := m in lift (f a)) d).2.
Proof. unfold bindM, lift. by destruct (m d) as [[a|e|] d1]. Qed.

Lemma local_bucket_ForEach_captured {A} b (fn : bytes -> bytes -> A -> A * option error) init :
  local (bucket_ForEach_captured b fn init).
Proof.
  apply local_with_bucket. intros name bd.
  apply local_bind; [apply local_log_foreach | intros; apply local_ret].
Qed.

(** X17.  The reading functions ([GetRawByID], [GetRawAll], [GetByID],
    [GetFilter], [GetAll], the typed [GetFilter], [GetAll] and [GetByID] of
    the four services, and EpisodeGet, EpisodeGetFilter, EpisodeGetByMedia,
    MediaProducerGet, MediaProducerGetFilter of pkg/data) leave the
    committed buckets as they were, whatever they return; each runs exactly
    one transaction, which is read-only and records no put. *)
Theorem reads_leave_the_store_unchanged (d : DB) :
  (forall ID name, read_only_call d (GetRawByID ID name d).2)
  /\ (forall name, read_only_call d (GetRawAll name d).2)
  /\ (forall id ser, read_only_call d (GetByID id ser d).2)
  /\ (forall ser keep, read_only_call d (GetFilter ser keep d).2)
  /\ (forall ser, read_only_call d (GetAll ser d).2)
  /\ (forall keep, read_only_call d (MediaRelationService_GetFilter keep d).2)
  /\ (forall keep, read_only_call d (UserMediaService_GetFilter keep d).2)
  /\ (forall ID, read_only_call d (EpisodeGet ID d).2)
  /\ (forall f, read_only_call d (EpisodeGetFilter f d).2)
  /\ (forall mID, read_only_call d (EpisodeGetByMedia mID d).2)
  /\ (forall ID, read_only_call d (MediaProducerGet ID d).2)
  /\ (forall f, read_only_call d (MediaProducerGetFilter f d).2)
  /\ (forall keep, read_only_call d (MediaService_GetFilter keep d).2)
  /\ (forall keep, read_only_call d (PersonService_GetFilter keep d).2)
  /\ read_only_call d (MediaService_GetAll d).2
  /\ read_only_call d (PersonService_GetAll d).2
  /\ read_only_call d (MediaRelationService_GetAll d).2
  /\ read_only_call d (UserMediaService_GetAll d).2
  /\ (forall id, read_only_call d (MediaService_GetByID id d).2)
  /\ (forall id, read_only_call d (PersonService_GetByID id d).2)
  /\ (forall id, read_only_call d (MediaRelationService_GetByID id d).2)
  /\ (forall id, read_only_call d (UserMediaService_GetByID id d).2).
Proof.
  assert (H1 : forall ID name, read_only_call d (GetRawByID ID name d).2).
  { intros. apply read_only_View. local_tac. }
  assert (H2 : forall name, read_only_call d (GetRawAll name d).2).
  { intros. apply read_only_View. local_tac. }
  assert (H3 : forall ser keep, read_only_call d (GetFilter ser keep d).2).
  { intros. unfold GetFilter. apply read_only_then_lift, H2. }
  assert (H4 : forall id ser, read_only_call d (GetByID id ser d).2).
  { intros. unfold GetByID. apply read_only_then_lift, H1. }
  assert (H5 : forall ser, read_only_call d (GetAll ser d).2).
  { intros. apply H3. }
  repeat match goal with |- _ /\ _ => apply conj end; try done.
  - intros. unfold MediaRelationService_GetFilter. apply read_only_then_lift, H3.
  - intros. unfold UserMediaService_GetFilter. apply read_only_then_lift, H3.
  - intros. apply read_only_View. local_tac.
  - intros. apply read_only_View. local_tac.
  - intros. apply read_only_View. local_tac.
  - intros. apply read_only_View. local_tac.
  - intros. apply read_only_View. local_tac.
    apply local_bucket_ForEach_captured.
  - intros. unfold MediaService_GetFilter. apply read_only_then_lift, H3.
  - intros. unfold PersonService_GetFilter. apply read_only_then_lift, H3.
  - unfold MediaService_GetAll. apply read_only_then_lift, H5.
  - unfold PersonService_GetAll. apply read_only_then_lift, H5.
  - unfold MediaRelationService_GetAll. apply read_only_then_lift, H5.
  - unfold UserMediaService_GetAll. apply read_only_then_lift, H5.
  - intros. unfold MediaService_GetByID. apply read_only_then_lift, H4.
  - intros. unfold PersonService_GetByID. apply read_only_then_lift, H4.
  - intros. unfold MediaRelationService_GetByID. apply read_only_then_lift, H4.
  - intros. unfold UserMediaService_GetByID. apply read_only_then_lift, H4.
Qed.

End identifiers.

(** ** [pkg/data]: the scans *)

Section pkg_data_reads.
Context {O : Opaque} {L : Library}.

Lemma for_each_decode {A} {J : Json A} (f : A -> bool) (es : list (bytes * bytes)) acc :
  for_each (fun k v l =>
              let? a := checked (json_Unmarshal v) in
              Ok (if f a then l ++ [a] else l)) es acc
  = let? l := decode_all (es.*2) in Ok (acc ++ List.filter f l).
Proof.
  revert acc. induction es as [|[k v] es IH]; intros acc; csimpl.
  - by rewrite app_nil_r.
  - destruct (json_Unmarshal v) as [a [e|]]; csimpl; [done|].
    rewrite IH. destruct (decode_all es.*2) as [l| |]; csimpl; try done.
    destruct (f a); simpl; [rewrite <- app_assoc; reflexivity | reflexivity].
Qed.

Lemma for_each_captured_decode {A} {J : Json A} (f : A -> bool)
    (es : list (bytes * bytes)) acc :
  (for_each_captured (fun k v l =>
       let '(a, err) := json_Unmarshal (A := A) v in
       match err with
       | Some e => (l, Some e)
       | None => (if f a then l ++ [a] else l, None)
       end) es acc).1
  = acc ++ List.filter f (decoded_prefix (es.*2)).
Proof.
  revert acc. induction es as [|[k v] es IH]; intros acc; csimpl.
  - by rewrite app_nil_r.
  - destruct (json_Unmarshal v) as [a [e|]]; simpl; [by rewrite app_nil_r|].
    rewrite IH. destruct (f a); simpl; [rewrite <- app_assoc; reflexivity | reflexivity].
Qed.

Lemma decode_all_prefix {A} {J : Json A} (vs : list bytes) (l : list A) :
  decode_all vs = Ok l -> decoded_prefix vs = l.
Proof.
  revert l. induction vs as [|v vs IH]; intros l; simpl; [by intros [= <-]|].
  destruct (json_Unmarshal v) as [a [e|]]; simpl; [done|].
  destruct (decode_all vs) as [l'| |]; simpl; try done.
  intros [= <-]. by rewrite (IH l').
Qed.

Lemma MediaProducerGetFilter_result f d :
  (MediaProducerGetFilter f d).1
  = let? vs := (GetRawAll mediaProducerBucketName d).1 in
    Ok (List.filter f (decoded_prefix vs)).
Proof.
  rewrite GetRawAll_result.
  unfold MediaProducerGetFilter, DB_View, bindM, get_tx, bucket, Bucket, tx_Bucket, check,
    bucket_ForEach_captured, with_bucket, bindM, log, ret. cbn.
  destruct (committed d !! mediaProducerBucketName) as [bd|] eqn:E; cbn; rewrite ?E; cbn; [|done].
  by rewrite for_each_captured_decode.
Qed.

Lemma EpisodeGetFilter_result f d :
  (EpisodeGetFilter f d).1
  = let? vs := (GetRawAll episodeBucketName d).1 in
    let? l := decode_all vs in
    Ok (List.filter f l).
Proof.
  rewrite GetRawAll_result.
  unfold EpisodeGetFilter, DB_View, bindM, get_tx, bucket, Bucket, tx_Bucket, check,
    bucket_ForEach, with_bucket, bindM, log, ret, lift. cbn.
  destruct (committed d !! episodeBucketName) as [bd|] eqn:E; cbn; rewrite ?E; cbn; [|done].
  rewrite for_each_decode. by destruct (decode_all _).
Qed.

(** X18.  MediaProducerGetFilter drops the error of its scan: when the
    bucket exists it never returns an error, and its result is the filter
    of the values decoded before the first one that does not decode.
    EpisodeGetFilter returns that error instead, and the filter of all the
    decoded values when there is none; EpisodeGetByMedia is
    EpisodeGetFilter with the test on MediaID.  When every value decodes
    the two agree on what is decoded. *)
Theorem MediaProducerGetFilter_drops_the_decoding_error (d : DB) :
  (forall f, (MediaProducerGetFilter f d).1
     = let? vs := (GetRawAll mediaProducerBucketName d).1 in
       Ok (List.filter f (decoded_prefix vs)))
  /\ (forall f bd, committed d !! mediaProducerBucketName = Some bd ->
        is_Ok (MediaProducerGetFilter f d).1 = true)
  /\ (forall f, (EpisodeGetFilter f d).1
        = let? vs := (GetRawAll episodeBucketName d).1 in
          let? l := decode_all vs in
          Ok (List.filter f l))
  /\ (forall mID, EpisodeGetByMedia mID d
        = EpisodeGetFilter (fun ep => bool_decide (Episode_MediaID ep = mID)) d)
  /\ (forall A (J : Json A) vs (l : list A), decode_all vs = Ok l -> decoded_prefix vs = l).
Proof.
  repeat apply conj.
  - intros f. apply MediaProducerGetFilter_result.
  - intros f bd Hbd. by rewrite MediaProducerGetFilter_result, GetRawAll_result, Hbd.
  - intros f. apply EpisodeGetFilter_result.
  - reflexivity.
  - intros A J. apply decode_all_prefix.
Qed.

End pkg_data_reads.

(** ** [pkg/data]: the writes *)

(** The steps of a write transaction, run on the state they find. *)
Lemma bucket_NextSequence_run name st bd :
  tx_root (cur st) !! name = Some bd -> tx_writable (cur st) = true ->
  exists st',
    bucket_NextSequence (Some name) st = (Ok ((sequence bd + 1) mod 2 ^ 64), st')
    /\ tx_writable (cur st') = true
    /\ tx_root (cur st')
       = <[name := mkBucketData (kv bd) ((sequence bd + 1) mod 2 ^ 64)]> (tx_root (cur st)).
Proof.
  intros Hbd Hw.
  unfold bucket_NextSequence, with_bucket, bindM, require_writable, log, set_bucket, ret.
  rewrite Hbd, Hw. cbn. eexists. repeat split. exact Hw.
Qed.

Lemma bucket_Put_run name st bd key value :
  tx_root (cur st) !! name = Some bd -> tx_writable (cur st) = true ->
  length key = 8%nat ->
  (bucket_Put (Some name) key value st).1
  = if decide (MaxValueSize < Z.of_nat (length value)) then Err ErrValueTooLarge else Ok tt.
Proof.
  intros Hbd Hw Hk.
  unfold bucket_Put, with_bucket, bindM, require_writable, log, set_bucket, fail.
  rewrite Hbd, Hw, Hk.
  destruct (decide (8%nat = 0%nat)) as [?|_]; [lia|].
  destruct (decide (MaxKeySize < Z.of_nat 8)) as [?|_]; [unfold MaxKeySize in *; lia|].
  by destruct (decide (MaxValueSize < Z.of_nat (length value))).
Qed.

Lemma DB_Update_fst {A} (fn : M TxState A) d : (DB_Update fn d).1 = (fn (begin true d)).1.
Proof. unfold DB_Update. by destruct (fn (begin true d)) as [[a|e|] st]. Qed.

Section pkg_data_writes.
Context {O : Opaque} {L : Library}.

Lemma MediaProducerCreate_result mp d :
  (MediaProducerCreate mp d).1
  = let? _ := (GetRawByID (MediaProducer_MediaID mp) mediaBucketName d).1 in
    let? _ := (GetRawByID (MediaProducer_ProducerID mp) producerBucketName d).1 in
    match committed d !! mediaProducerBucketName with
    | None => Panic
    | Some bd =>
        let mp' := mkMediaProducer (to_int ((sequence bd + 1) mod 2 ^ 64))
                     (MediaProducer_MediaID mp) (MediaProducer_ProducerID mp)
                     (MediaProducer_Role mp) (MediaProducer_Version mp) in
        let? buf := checked (json_Marshal mp') in
        if decide (MaxValueSize < Z.of_nat (length buf)) then Err ErrValueTooLarge
        else Ok mp'
    end.
Proof.
  rewrite !GetRawByID_result. unfold MediaProducerCreate. rewrite DB_Update_fst.
  unfold bindM at 1. unfold get_tx at 1. cbn [bucket Bucket].
  unfold bindM at 1, check at 1, ret at 1.
  unfold bindM at 1, check at 1, ret at 1.
  unfold bindM at 1.
  destruct (get_run (MediaProducer_MediaID mp) mediaBucketName (begin true d)) as (st1 & C1 & ->).
  change (cur (begin true d)) with (mkTx (tx_count d) true (committed d)) in *.
  cbn [tx_root].
  destruct (committed d !! mediaBucketName) as [mb|] eqn:Hmb; [|done].
  destruct (kv mb !! itob (MediaProducer_MediaID mp)); [|done]. cbn [bindO].
  unfold bindM at 1, check at 1, ret at 1. unfold bindM at 1.
  destruct (get_run (MediaProducer_ProducerID mp) producerBucketName st1) as (st2 & C2 & E2).
  rewrite C1 in E2. cbn [tx_root] in E2. rewrite E2.
  destruct (committed d !! producerBucketName) as [pb|] eqn:Hpb; [|done].
  destruct (kv pb !! itob (MediaProducer_ProducerID mp)); [|done]. cbn [bindO].
  unfold bindM at 1. unfold tx_Bucket. cbn [tx_root].
  destruct (committed d !! mediaProducerBucketName) as [bd|] eqn:Hbd; [|done].
  destruct (bucket_NextSequence_run mediaProducerBucketName st2 bd) as (st3 & -> & W3 & R3).
  { by rewrite C2, C1. } { by rewrite C2, C1. }
  unfold bindM at 1. unfold lift at 1.
  destruct (checked (json_Marshal _)) as [buf| |]; cbn [bindO]; try done.
  unfold bindM.
  match goal with |- context [bucket_Put _ ?key buf st3] =>
    pose proof (bucket_Put_run mediaProducerBucketName st3 _ key buf
                  ltac:(rewrite R3; apply lookup_insert_eq) W3 eq_refl) as P;
    destruct (bucket_Put (Some mediaProducerBucketName) key buf st3) as [r st4]
  end.
  simpl in P. subst r. by destruct (decide _).
Qed.

Lemma EpisodeCreate_result ep d :
  (EpisodeCreate ep d).1
  = match committed d !! episodeBucketName with
    | None => Panic
    | Some bd =>
        let ep' := mkEpisode (to_int ((sequence bd + 1) mod 2 ^ 64)) (Episode_MediaID ep)
                     (Episode_Titles ep) (Episode_Date ep) (Episode_Synopses ep)
                     (Episode_Duration ep) (Episode_Filler ep) (Episode_Recap ep) in
        let? buf := checked (json_Marshal ep') in
        if decide (MaxValueSize < Z.of_nat (length buf)) then Err ErrValueTooLarge
        else Ok ep'
    end.
Proof.
  unfold EpisodeCreate. rewrite DB_Update_fst.
  unfold bindM at 1. unfold get_tx at 1. cbn [bucket Bucket].
  unfold bindM at 1, check at 1, ret at 1.
  unfold bindM at 1. unfold tx_Bucket.
  change (cur (begin true d)) with (mkTx (tx_count d) true (committed d)) in *.
  cbn [tx_root].
  destruct (committed d !! episodeBucketName) as [bd|] eqn:Hbd; [|done].
  destruct (bucket_NextSequence_run episodeBucketName (begin true d) bd) as (st3 & -> & W3 & R3);
    [done | done |].
  unfold bindM at 1. unfold lift at 1.
  destruct (checked (json_Marshal _)) as [buf| |]; cbn [bindO]; try done.
  unfold bindM.
  match goal with |- context [bucket_Put _ ?key buf st3] =>
    pose proof (bucket_Put_run episodeBucketName st3 _ key buf
                  ltac:(rewrite R3; apply lookup_insert_eq) W3 eq_refl) as P;
    destruct (bucket_Put (Some episodeBucketName) key buf st3) as [r st4]
  end.
  simpl in P. subst r. by destruct (decide _).
Qed.

(** X19.  MediaProducerCreate looks up the MediaID in the Media bucket,
    then the ProducerID in the Producer bucket, and returns the error of
    the first lookup that fails; only then does it take the next sequence
    number of the MediaProducer bucket and store the value, failing when
    the encoder does or when the encoding is longer than the store's value
    limit.  EpisodeCreate looks nothing up: it succeeds or fails by the
    Episode bucket and the encoding alone, whether or not its MediaID
    addresses a stored Media. *)
Theorem MediaProducerCreate_checks_Media_then_Producer (d : DB) :
  (forall mp,
     (MediaProducerCreate mp d).1
     = let? _ := (GetRawByID (MediaProducer_MediaID mp) mediaBucketName d).1 in
       let? _ := (GetRawByID (MediaProducer_ProducerID mp) producerBucketName d).1 in
       match committed d !! mediaProducerBucketName with
       | None => Panic
       | Some bd =>
           let mp' := mkMediaProducer (to_int ((sequence bd + 1) mod 2 ^ 64))
                        (MediaProducer_MediaID mp) (MediaProducer_ProducerID mp)
                        (MediaProducer_Role mp) (MediaProducer_Version mp) in
           let? buf := checked (json_Marshal mp') in
           if decide (MaxValueSize < Z.of_nat (length buf)) then Err ErrValueTooLarge
           else Ok mp'
       end)
  /\ (forall mp mb, committed d !! mediaBucketName = Some mb ->
        kv mb !! itob (MediaProducer_MediaID mp) = None ->
        (MediaProducerCreate mp d).1 = Err (ErrNotFound (MediaProducer_MediaID mp)))
  /\ (forall ep,
        (EpisodeCreate ep d).1
        = match committed d !! episodeBucketName with
          | None => Panic
          | Some bd =>
              let ep' := mkEpisode (to_int ((sequence bd + 1) mod 2 ^ 64))
                           (Episode_MediaID ep) (Episode_Titles ep) (Episode_Date ep)
                           (Episode_Synopses ep) (Episode_Duration ep)
                           (Episode_Filler ep) (Episode_Recap ep) in
              let? buf := checked (json_Marshal ep') in
              if decide (MaxValueSize < Z.of_nat (length buf)) then Err ErrValueTooLarge
              else Ok ep'
          end).
Proof.
  split; [|split].
  - intros mp. apply MediaProducerCreate_result.
  - intros mp mb Hmb Habs. by rewrite MediaProducerCreate_result, GetRawByID_result, Hmb, Habs.
  - intros ep. apply EpisodeCreate_result.
Qed.

Lemma MediaProducerUpdate_result mp d :
  (MediaProducerUpdate mp d).1
  = let? v := (GetRawByID (MediaProducer_ID mp) mediaProducerBucketName d).1 in
    let mp' := mkMediaProducer (MediaProducer_ID mp) (MediaProducer_MediaID mp)
                 (MediaProducer_ProducerID mp) (MediaProducer_Role mp)
                 (int_add (MediaProducer_Version (json_Unmarshal (A := MediaProducer) v).1) 1) in
    let? buf := checked (json_Marshal mp') in
    if decide (MaxValueSize < Z.of_nat (length buf)) then Err ErrValueTooLarge
    else Ok mp'.
Proof.
  rewrite GetRawByID_result. unfold MediaProducerUpdate. rewrite DB_Update_fst.
  unfold bindM at 1. unfold get_tx at 1. cbn [bucket Bucket].
  unfold bindM at 1, check at 1, ret at 1.
  unfold bindM at 1.
  destruct (get_run (MediaProducer_ID mp) mediaProducerBucketName (begin true d))
    as (st1 & C1 & ->).
  change (cur (begin true d)) with (mkTx (tx_count d) true (committed d)) in *.
  cbn [tx_root].
  destruct (committed d !! mediaProducerBucketName) as [bd|] eqn:Hbd; [|done].
  destruct (kv bd !! itob (MediaProducer_ID mp)) as [v|]; [|done]. cbn [bindO].
  destruct (json_Unmarshal v) as [old e]. cbn [fst].
  unfold bindM at 1. unfold lift at 1.
  destruct (checked (json_Marshal _)) as [buf| |]; cbn [bindO]; try done.
  unfold bindM. unfold tx_Bucket. cbn [tx_root]. rewrite Hbd.
  match goal with |- context [bucket_Put _ ?key buf st1] =>
    pose proof (bucket_Put_run mediaProducerBucketName st1 bd key buf
                  ltac:(by rewrite C1) ltac:(by rewrite C1) eq_refl) as P;
    destruct (bucket_Put (Some mediaProducerBucketName) key buf st1) as [r st4]
  end.
  simpl in P. subst r. by destruct (decide _).
Qed.

Lemma EpisodeUpdate_result ep d :
  (EpisodeUpdate ep d).1
  = let? _ := (GetRawByID (Episode_ID ep) episodeBucketName d).1 in
    let? buf := checked (json_Marshal ep) in
    if decide (MaxValueSize < Z.of_nat (length buf)) then Err ErrValueTooLarge
    else Ok ep.
Proof.
  rewrite GetRawByID_result. unfold EpisodeUpdate. rewrite DB_Update_fst.
  unfold bindM at 1. unfold get_tx at 1. cbn [bucket Bucket].
  unfold bindM at 1, check at 1, ret at 1.
  unfold bindM at 1.
  destruct (get_run (Episode_ID ep) episodeBucketName (begin true d))
    as (st1 & C1 & ->).
  change (cur (begin true d)) with (mkTx (tx_count d) true (committed d)) in *.
  cbn [tx_root].
  destruct (committed d !! episodeBucketName) as [bd|] eqn:Hbd; [|done].
  destruct (kv bd !! itob (Episode_ID ep)) as [v|]; [|done]. cbn [bindO].
  unfold bindM at 1. unfold lift at 1.
  destruct (checked (json_Marshal _)) as [buf| |]; cbn [bindO]; try done.
  unfold bindM. unfold tx_Bucket. cbn [tx_root]. rewrite Hbd.
  match goal with |- context [bucket_Put _ ?key buf st1] =>
    pose proof (bucket_Put_run episodeBucketName st1 bd key buf
                  ltac:(by rewrite C1) ltac:(by rewrite C1) eq_refl) as P;
    destruct (bucket_Put (Some episodeBucketName) key buf st1) as [r st4]
  end.
  simpl in P. subst r. by destruct (decide _).
Qed.

(** X20.  MediaProducerUpdate fails with the lookup's error when the
    identifier has no value; otherwise it stamps the Version that the
    decoder left for the old value plus one and stores the result: the
    decoder's error plays no part in the outcome.  EpisodeUpdate fails with
    the lookup's error when the identifier has no value and otherwise
    stores the caller's value. *)
Theorem MediaProducerUpdate_ignores_the_decoding_error (d : DB) :
  (forall mp,
     (MediaProducerUpdate mp d).1
     = let? v := (GetRawByID (MediaProducer_ID mp) mediaProducerBucketName d).1 in
       let mp' := mkMediaProducer (MediaProducer_ID mp) (MediaProducer_MediaID mp)
                    (MediaProducer_ProducerID mp) (MediaProducer_Role mp)
                    (int_add (MediaProducer_Version
                                (json_Unmarshal (A := MediaProducer) v).1) 1) in
       let? buf := checked (json_Marshal mp') in
       if decide (MaxValueSize < Z.of_nat (length buf)) then Err ErrValueTooLarge
       else Ok mp')
  /\ (forall ep,
        (EpisodeUpdate ep d).1
        = let? _ := (GetRawByID (Episode_ID ep) episodeBucketName d).1 in
          let? buf := checked (json_Marshal ep) in
          if decide (MaxValueSize < Z.of_nat (length buf)) then Err ErrValueTooLarge
          else Ok ep)
  /\ (forall mp bd, committed d !! mediaProducerBucketName = Some bd ->
        kv bd !! itob (MediaProducer_ID mp) = None ->
        (MediaProducerUpdate mp d).1 = Err (ErrNotFound (MediaProducer_ID mp)))
  /\ (forall ep bd, committed d !! episodeBucketName = Some bd ->
        kv bd !! itob (Episode_ID ep) = None ->
        (EpisodeUpdate ep d).1 = Err (ErrNotFound (Episode_ID ep))).
Proof.
  repeat apply conj.
  - intros mp. apply MediaProducerUpdate_result.
  - intros ep. apply EpisodeUpdate_result.
  - intros mp bd Hbd Habs. by rewrite MediaProducerUpdate_result, GetRawByID_result, Hbd, Habs.
  - intros ep bd Hbd Habs. by rewrite EpisodeUpdate_result, GetRawByID_result, Hbd, Habs.
Qed.

End pkg_data_writes.

(** ** [pkg/data]: reading back what was written *)

Section pkg_data_read_back.
Context {O : Opaque} {L : Library}.

Lemma EpisodeGet_result ID d :
  (EpisodeGet ID d).1
  = let? v := (GetRawByID ID episodeBucketName d).1 in checked (json_Unmarshal v).
Proof.
  rewrite GetRawByID_result. unfold EpisodeGet. rewrite DB_View_fst.
  unfold bindM at 1. unfold get_tx at 1. cbn [bucket Bucket].
  unfold bindM at 1, check at 1, ret at 1. unfold bindM.
  destruct (get_run ID episodeBucketName (begin false d)) as (st1 & C1 & ->).
  change (cur (begin false d)) with (mkTx (tx_count d) false (committed d)) in *.
  cbn [tx_root].
  destruct (committed d !! episodeBucketName) as [bd|]; [|done].
  by destruct (kv bd !! itob ID).
Qed.

Lemma MediaProducerGet_result ID d :
  (MediaProducerGet ID d).1
  = let? v := (GetRawByID ID mediaProducerBucketName d).1 in checked (json_Unmarshal v).
Proof.
  rewrite GetRawByID_result. unfold MediaProducerGet. rewrite DB_View_fst.
  unfold bindM at 1. unfold get_tx at 1. cbn [bucket Bucket].
  unfold bindM at 1, check at 1, ret at 1. unfold bindM.
  destruct (get_run ID mediaProducerBucketName (begin false d)) as (st1 & C1 & ->).
  change (cur (begin false d)) with (mkTx (tx_count d) false (committed d)) in *.
  cbn [tx_root].
  destruct (committed d !! mediaProducerBucketName) as [bd|]; [|done].
  by destruct (kv bd !! itob ID).
Qed.

Lemma EpisodeCreate_Ok ep d ep' d' :
  EpisodeCreate ep d = (Ok ep', d') ->
  exists bd buf,
    committed d !! episodeBucketName = Some bd
    /\ ep' = mkEpisode (to_int ((sequence bd + 1) mod 2 ^ 64)) (Episode_MediaID ep)
               (Episode_Titles ep) (Episode_Date ep) (Episode_Synopses ep)
               (Episode_Duration ep) (Episode_Filler ep) (Episode_Recap ep)
    /\ json_Marshal ep' = (buf, None)
    /\ committed d'
       = <[episodeBucketName
             := mkBucketData (<[itob (Episode_ID ep') := buf]> (kv bd))
                  ((sequence bd + 1) mod 2 ^ 64)]>
           (committed d).
Proof.
  unfold EpisodeCreate. intros E.
  apply DB_Update_Ok in E as (st & E & Cd).
  bind_ok E as tx Htx. injection Htx as <- <-.
  cbn [bucket Bucket] in E.
  bind_ok E as u Hu. injection Hu as <- <-.
  bind_ok E as id Hseq.
  apply bucket_NextSequence_Ok in Hseq as (name & bd & Hname & Hbd & -> & Hroot).
  bind_ok E as buf Hm. apply lift_inv in Hm as [Hm ->]. apply checked_Ok in Hm.
  bind_ok E as u Hput. apply bucket_Put_Ok in Hput as (name' & bd0 & Hname' & Hbd0 & Hroot').
  injection E as <- <-.
  rewrite Hname in Hname'. injection Hname' as <-.
  apply tx_Bucket_Some in Hname as ->.
  rewrite Hroot in Hbd0, Hroot'. rewrite lookup_insert_eq in Hbd0. injection Hbd0 as <-.
  rewrite insert_insert_eq in Hroot'. simpl in Hbd, Hroot'.
  exists bd, buf. repeat split; try done. by rewrite Cd, Hroot'.
Qed.

(** X21.  EpisodeGet and MediaProducerGet return the decoding of the
    value stored under the identifier, or the lookup's error.  After a
    successful EpisodeCreate, EpisodeUpdate, MediaProducerCreate or
    MediaProducerUpdate, the Get of the entity's identifier returns the
    decoding of the bytes just encoded, and the Get of every other
    identifier returns what it returned before. *)
Theorem pkg_data_reads_back_what_was_written (d : DB) :
  (forall ID, (EpisodeGet ID d).1
     = let? v := (GetRawByID ID episodeBucketName d).1 in checked (json_Unmarshal v))
  /\ (forall ID, (MediaProducerGet ID d).1
        = let? v := (GetRawByID ID mediaProducerBucketName d).1 in
          checked (json_Unmarshal v))
  /\ (forall ep ep' d', EpisodeCreate ep d = (Ok ep', d') ->
        exists buf, json_Marshal ep' = (buf, None)
          /\ (EpisodeGet (Episode_ID ep') d').1 = checked (json_Unmarshal buf)
          /\ forall ID, is_int ID -> ID <> Episode_ID ep' ->
               (EpisodeGet ID d').1 = (EpisodeGet ID d).1)
  /\ (forall ep ep' d', EpisodeUpdate ep d = (Ok ep', d') ->
        exists buf, json_Marshal ep = (buf, None)
          /\ (EpisodeGet (Episode_ID ep) d').1 = checked (json_Unmarshal buf)
          /\ forall ID, is_int ID -> is_int (Episode_ID ep) -> ID <> Episode_ID ep ->
               (EpisodeGet ID d').1 = (EpisodeGet ID d).1)
  /\ (forall mp mp' d', MediaProducerCreate mp d = (Ok mp', d') ->
        exists buf, json_Marshal mp' = (buf, None)
          /\ (MediaProducerGet (MediaProducer_ID mp') d').1 = checked (json_Unmarshal buf)
          /\ forall ID, is_int ID -> ID <> MediaProducer_ID mp' ->
               (MediaProducerGet ID d').1 = (MediaProducerGet ID d).1)
  /\ (forall mp mp' d', MediaProducerUpdate mp d = (Ok mp', d') ->
        exists buf, json_Marshal mp' = (buf, None)
          /\ MediaProducer_ID mp' = MediaProducer_ID mp
          /\ (MediaProducerGet (MediaProducer_ID mp) d').1 = checked (json_Unmarshal buf)
          /\ forall ID, is_int ID -> is_int (MediaProducer_ID mp) ->
               ID <> MediaProducer_ID mp ->
               (MediaProducerGet ID d').1 = (MediaProducerGet ID d).1).
Proof.
  split; [intros ID; apply EpisodeGet_result|].
  split; [intros ID; apply MediaProducerGet_result|].
  split; [|split; [|split]].
  - intros ep ep' d' E.
    apply EpisodeCreate_Ok in E as (bd & buf & Hbd & Hep & Hm & C).
    destruct (put_frame _ _ _ _ _ _ _ Hbd C) as (R1 & R2 & _).
    exists buf. split; [done|]. split.
    + by rewrite EpisodeGet_result, R1.
    + intros ID Hi Hne. rewrite !EpisodeGet_result, R2; try done.
      rewrite Hep. apply to_int_range.
  - intros ep ep' d' E.
    apply EpisodeUpdate_Ok in E as (bd & v & buf & Hbd & Hv & -> & Hm & C).
    destruct (put_frame _ _ _ _ _ _ _ Hbd C) as (R1 & R2 & _).
    exists buf. split; [done|]. split.
    + by rewrite EpisodeGet_result, R1.
    + intros ID Hi Hi' Hne. by rewrite !EpisodeGet_result, R2.
  - intros mp mp' d' E.
    apply MediaProducerCreate_Ok in E as (bd & buf & Hbd & Hep & Hm & C).
    destruct (put_frame _ _ _ _ _ _ _ Hbd C) as (R1 & R2 & _).
    exists buf. split; [done|]. split.
    + by rewrite MediaProducerGet_result, R1.
    + intros ID Hi Hne. rewrite !MediaProducerGet_result, R2; try done.
      rewrite Hep. apply to_int_range.
  - intros mp mp' d' E.
    apply MediaProducerUpdate_Ok in E as (bd & v & buf & Hbd & Hv & Hmp & Hm & C).
    destruct (put_frame _ _ _ _ _ _ _ Hbd C) as (R1 & R2 & _).
    exists buf. split; [done|]. split; [by rewrite Hmp|]. split.
    + by rewrite MediaProducerGet_result, R1.
    + intros ID Hi Hi' Hne. by rewrite !MediaProducerGet_result, R2.
Qed.

End pkg_data_read_back.

(** ** The typed methods of MediaService and PersonService *)

Section typed_reads.
Context {O : Opaque} {L : Library}.

Lemma Media_decoded vl ms :
  Forall2 (fun v m => Unmarshal MediaService v = Ok m) vl ms ->
  exists l, ms = (fun md => Some (EMedia md)) <$> l.
Proof.
  induction 1 as [|v m vl ms Hm _ (l & ->)]; [by exists []|].
  simpl in Hm. unfold MediaService_Unmarshal in Hm.
  destruct (checked (json_Unmarshal v)) as [md| |]; simpl in Hm; try done.
  injection Hm as <-. by exists (md :: l).
Qed.

Lemma Media_mapFromModel_wrap l :
  MediaService_mapFromModel ((fun md => Some (EMedia md)) <$> l) = Ok l.
Proof. induction l as [|md l IH]; csimpl; [done|]. by rewrite IH. Qed.

Lemma Media_filter_wrap (keep : Media -> bool) l :
  List.filter (fun m => match MediaService_AssertType m with
                        | Ok md => keep md
                        | _ => false
                        end)
    ((fun md => Some (EMedia md)) <$> l)
  = (fun md => Some (EMedia md)) <$> List.filter keep l.
Proof.
  induction l as [|md l IH]; csimpl; [done|].
  destruct (keep md); csimpl; by rewrite IH.
Qed.

Lemma Person_decoded vl ms :
  Forall2 (fun v m => Unmarshal PersonService v = Ok m) vl ms ->
  exists l, ms = (fun p => Some (EPerson p)) <$> l.
Proof.
  induction 1 as [|v m vl ms Hm _ (l & ->)]; [by exists []|].
  simpl in Hm. unfold PersonService_Unmarshal in Hm.
  destruct (checked (json_Unmarshal v)) as [p| |]; simpl in Hm; try done.
  injection Hm as <-. by exists (p :: l).
Qed.

Lemma Person_mapFromModel_wrap l :
  PersonService_mapFromModel ((fun p => Some (EPerson p)) <$> l) = Ok l.
Proof. induction l as [|p l IH]; csimpl; [done|]. by rewrite IH. Qed.

Lemma Person_filter_wrap (keep : Person -> bool) l :
  List.filter (fun m => match PersonService_assertType m with
                        | Ok p => keep p
                        | _ => false
                        end)
    ((fun p => Some (EPerson p)) <$> l)
  = (fun p => Some (EPerson p)) <$> List.filter keep l.
Proof.
  induction l as [|p l IH]; csimpl; [done|].
  destruct (keep p); csimpl; by rewrite IH.
Qed.

Lemma MediaService_GetAll_Ok d ms :
  (GetAll MediaService d).1 = Ok ms ->
  exists l, ms = (fun md => Some (EMedia md)) <$> l /\ (MediaService_GetAll d).1 = Ok l.
Proof.
  intros E. pose proof E as E0. apply GetAll_Ok_iff in E0 as (vs & _ & H).
  apply Media_decoded in H as (l & ->).
  unfold MediaService_GetAll, bindM.
  destruct (GetAll MediaService d) as [r d1]; simpl in *. subst r.
  exists l. split; [done|]. unfold lift. simpl. apply Media_mapFromModel_wrap.
Qed.

Lemma PersonService_GetAll_Ok d ms :
  (GetAll PersonService d).1 = Ok ms ->
  exists l, ms = (fun p => Some (EPerson p)) <$> l /\ (PersonService_GetAll d).1 = Ok l.
Proof.
  intros E. pose proof E as E0. apply GetAll_Ok_iff in E0 as (vs & _ & H).
  apply Person_decoded in H as (l & ->).
  unfold PersonService_GetAll, bindM.
  destruct (GetAll PersonService d) as [r d1]; simpl in *. subst r.
  exists l. split; [done|]. unfold lift. simpl. apply Person_mapFromModel_wrap.
Qed.

Lemma MediaService_GetFilter_as_filter keep d :
  MediaService_GetFilter keep d
  = (let? l := (MediaService_GetAll d).1 in Ok (List.filter keep l),
     (MediaService_GetAll d).2).
Proof.
  unfold MediaService_GetFilter, MediaService_GetAll, bindM.
  rewrite GetFilter_as_filter.
  destruct (GetAll MediaService d) as [[ms|e|] d1] eqn:E; simpl in *; try done.
  destruct (MediaService_GetAll_Ok d ms) as (l & -> & _); [by rewrite E|].
  unfold lift. by rewrite Media_filter_wrap, !Media_mapFromModel_wrap.
Qed.

Lemma PersonService_GetFilter_as_filter keep d :
  PersonService_GetFilter keep d
  = (let? l := (PersonService_GetAll d).1 in Ok (List.filter keep l),
     (PersonService_GetAll d).2).
Proof.
  unfold PersonService_GetFilter, PersonService_GetAll, bindM.
  rewrite GetFilter_as_filter.
  destruct (GetAll PersonService d) as [[ms|e|] d1] eqn:E; simpl in *; try done.
  destruct (PersonService_GetAll_Ok d ms) as (l & -> & _); [by rewrite E|].
  unfold lift. by rewrite Person_filter_wrap, !Person_mapFromModel_wrap.
Qed.

Lemma typed_GetByID_result {A} (J : Json A) (wrap : A -> Entity) (assert : Model -> outcome A)
    (ser : Service) id d :
  (forall a, assert (Some (wrap a)) = Ok a) ->
  (forall v, Unmarshal ser v = let? a := checked (json_Unmarshal v) in Ok (Some (wrap a))) ->
  ((let! m := GetByID id ser in lift (assert m)) d).1
  = let? v := (GetRawByID id (Service_Bucket ser) d).1 in checked (json_Unmarshal v).
Proof.
  intros Ha Hu. unfold bindM. pose proof (GetByID_result id ser d) as R.
  destruct (GetByID id ser d) as [r d1]. simpl in R. subst r.
  destruct (GetRawByID id (Service_Bucket ser) d).1 as [v| |]; simpl; try done.
  rewrite Hu. destruct (checked (json_Unmarshal v)) as [a| |]; simpl; try done.
Qed.

(** X22.  The typed [GetByID] of the four services returns the library's
    decoding of the value stored under the identifier, or the lookup's or
    the decoder's error: its type assertion never fails.  For MediaService
    and PersonService as for the other two, the type assertion of
    [mapFromModel] never fails on what [GetAll] has decoded, and the typed
    [GetFilter] returns the values of the typed [GetAll] that pass the
    filter. *)
Theorem typed_GetByID_decodes_the_stored_value (id : int) (d : DB) :
  (MediaService_GetByID id d).1
    = (let? v := (GetRawByID id MediaBucket d).1 in checked (json_Unmarshal v))
  /\ (PersonService_GetByID id d).1
    = (let? v := (GetRawByID id PersonBucket d).1 in checked (json_Unmarshal v))
  /\ (MediaRelationService_GetByID id d).1
    = (let? v := (GetRawByID id MediaRelationBucket d).1 in checked (json_Unmarshal v))
  /\ (UserMediaService_GetByID id d).1
    = (let? v := (GetRawByID id UserMediaBucket d).1 in checked (json_Unmarshal v))
  /\ (forall ms, (GetAll MediaService d).1 = Ok ms ->
        exists l, ms = (fun md => Some (EMedia md)) <$> l
          /\ (MediaService_GetAll d).1 = Ok l)
  /\ (forall keep, MediaService_GetFilter keep d
        = (let? l := (MediaService_GetAll d).1 in Ok (List.filter keep l),
           (MediaService_GetAll d).2))
  /\ (forall ms, (GetAll PersonService d).1 = Ok ms ->
        exists l, ms = (fun p => Some (EPerson p)) <$> l
          /\ (PersonService_GetAll d).1 = Ok l)
  /\ (forall keep, PersonService_GetFilter keep d
        = (let? l := (PersonService_GetAll d).1 in Ok (List.filter keep l),
           (PersonService_GetAll d).2)).
Proof.
  repeat apply conj.
  - by apply (typed_GetByID_result _ EMedia MediaService_AssertType MediaService).
  - by apply (typed_GetByID_result _ EPerson PersonService_assertType PersonService).
  - by apply (typed_GetByID_result _ EMediaRelation MediaRelationService_assertType
                MediaRelationService).
  - by apply (typed_GetByID_result _ EUserMedia UserMediaService_assertType UserMediaService).
  - intros ms. apply MediaService_GetAll_Ok.
  - intros keep. apply MediaService_GetFilter_as_filter.
  - intros ms. apply PersonService_GetAll_Ok.
  - intros keep. apply PersonService_GetFilter_as_filter.
Qed.

End typed_reads.

(** ** What [GetRawAll] lists after a write *)

Lemma values_Permutation bd : (entries bd).*2 ≡ₚ (map_to_list (kv bd)).*2.
Proof. by rewrite entries_Permutation. Qed.

Lemma values_insert_fresh bd key buf s :
  kv bd !! key = None ->
  (entries (mkBucketData (<[key := buf]> (kv bd)) s)).*2 ≡ₚ buf :: (entries bd).*2.
Proof.
  intros H. rewrite !values_Permutation. simpl.
  by rewrite map_to_list_insert.
Qed.

Lemma values_delete bd key v s :
  kv bd !! key = Some v ->
  (entries bd).*2 ≡ₚ v :: (entries (mkBucketData (delete key (kv bd)) s)).*2.
Proof.
  intros H. rewrite !values_Permutation. simpl.
  by rewrite <- (map_to_list_delete (kv bd) key v H).
Qed.

Lemma values_insert_existing bd key v buf s :
  kv bd !! key = Some v ->
  v :: (entries (mkBucketData (<[key := buf]> (kv bd)) s)).*2 ≡ₚ buf :: (entries bd).*2.
Proof.
  intros H. rewrite !values_Permutation. simpl.
  rewrite <- (map_to_list_delete (kv bd) key v H).
  rewrite <- (insert_delete_eq (kv bd)).
  rewrite map_to_list_insert by apply lookup_delete_eq.
  simpl. apply perm_swap.
Qed.

Section listing.
Context {O : Opaque} {L : Library}.

(** X23.  What [GetRawAll] lists follows the writes.  After a successful
    [Create] the list holds the new encoding, and is the old list plus that
    encoding when the identifier had no value; after a successful [Update]
    it is the old list with the old value of the identifier replaced by the
    new encoding; after the [Delete] of an identifier that had a value it
    is the old list less that value (all up to the order). *)
Theorem GetRawAll_tracks_the_writes (k : ServiceKind) (d : DB) :
  (forall m m' d', Create m (service_of k) d = (Ok m', d') ->
     exists e' buf vs vs',
       m' = Some e' /\ Marshal (service_of k) m' = Ok buf
       /\ (GetRawAll (Service_Bucket (service_of k)) d).1 = Ok vs
       /\ (GetRawAll (Service_Bucket (service_of k)) d').1 = Ok vs'
       /\ buf ∈ vs'
       /\ (stored d (Service_Bucket (service_of k)) (Entity_Iden e') = None ->
             vs' ≡ₚ buf :: vs))
  /\ (forall m m' d', Update m (service_of k) d = (Ok m', d') ->
        exists e' v buf vs vs',
          m' = Some e' /\ Marshal (service_of k) m' = Ok buf
          /\ stored d (Service_Bucket (service_of k)) (Entity_Iden e') = Some v
          /\ (GetRawAll (Service_Bucket (service_of k)) d).1 = Ok vs
          /\ (GetRawAll (Service_Bucket (service_of k)) d').1 = Ok vs'
          /\ v :: vs' ≡ₚ buf :: vs)
  /\ (forall id v, stored d (Service_Bucket (service_of k)) id = Some v ->
        exists vs vs',
          (GetRawAll (Service_Bucket (service_of k)) d).1 = Ok vs
          /\ (GetRawAll (Service_Bucket (service_of k)) (Delete id (service_of k) d).2).1
             = Ok vs'
          /\ vs ≡ₚ v :: vs').
Proof.
  split; [|split].
  - intros m m' d' E.
    apply Create_Ok in E as (bd & e' & buf & Hbd & -> & Hid & _ & Hm & C).
    eexists e', buf, _, _. split; [done|]. split; [done|].
    split; [by rewrite GetRawAll_result, Hbd|].
    split; [by rewrite GetRawAll_result, C, lookup_insert_eq|].
    split.
    + rewrite values_Permutation. simpl. apply list_elem_of_fmap.
      exists (itob (Entity_Iden e'), buf). split; [done|].
      apply elem_of_map_to_list, lookup_insert_eq.
    + unfold stored. rewrite Hbd. intros Hfresh. by apply values_insert_fresh.
  - intros m m' d' E.
    apply Update_Ok in E as (bd & v & eo & e' & buf & Hbd & Hid & Hv & Ho & -> & Hver & Hm & C).
    eexists e', v, buf, _, _. split; [done|]. split; [done|].
    split; [unfold stored; by rewrite Hbd|].
    split; [by rewrite GetRawAll_result, Hbd|].
    split; [by rewrite GetRawAll_result, C, lookup_insert_eq|].
    by apply values_insert_existing.
  - intros id v Hv. unfold stored in Hv.
    destruct (committed d !! Service_Bucket (service_of k)) as [bd|] eqn:Hbd; [|done].
    destruct (Delete_bucket_present id (service_of k) d bd Hbd) as (d' & E & C).
    rewrite E. simpl.
    eexists _, _. split; [by rewrite GetRawAll_result, Hbd|].
    split; [by rewrite GetRawAll_result, C, lookup_insert_eq|].
    by apply values_delete.
Qed.

End listing.

(** ** The properties above at concrete inputs *)

Lemma run_eq {A S} (p : outcome A * S) (r : outcome A) : p.1 = r -> p = (r, p.2).
Proof. destruct p as [r0 s]. simpl. by intros ->. Qed.

(** The Media bucket of the example database holds one value. *)
Lemma GetRawAll_lists_the_values_in_key_order_witness :
  committed example_db !! MediaBucket = Some example_media_bucket
  /\ exists es,
       (GetRawAll MediaBucket example_db).1 = Ok (es.*2)
       /\ es ≡ₚ map_to_list (kv example_media_bucket)
       /\ StronglySorted (fun x y => bytes_lt x.1 y.1 = true) es
       /\ committed (GetRawAll MediaBucket example_db).2 = committed example_db.
Proof.
  assert (H : committed example_db !! MediaBucket = Some example_media_bucket)
    by (vm_compute; reflexivity).
  exact (conj H (GetRawAll_lists_the_values_in_key_order MediaBucket example_db
                   example_media_bucket H)).
Defined.

(** [Create] of a MediaRelation between existing Media, read back. *)
Lemma Create_then_GetByID_witness :
  let ser := service_of (L := example_library) KMediaRelation in
  let m := Some (EMediaRelation example_relation) in
  let m' := Some (EMediaRelation (mkMediaRelation 1 1 1 "sequel" 0)) in
  let d' := (Create m ser example_db).2 in
  Create m ser example_db = (Ok m', d')
  /\ exists e' buf,
       m' = Some e' /\ is_int (Entity_Iden e')
       /\ Marshal ser m' = Ok buf
       /\ (GetRawByID (Entity_Iden e') (Service_Bucket ser) d').1 = Ok buf
       /\ (GetByID (Entity_Iden e') ser d').1 = Unmarshal ser buf
       /\ (forall id, is_int id -> id <> Entity_Iden e' ->
             (GetByID id ser d').1 = (GetByID id ser example_db).1)
       /\ (forall k' id,
             Service_Bucket (service_of (L := example_library) k') <> Service_Bucket ser ->
             (GetByID id (service_of (L := example_library) k') d').1
             = (GetByID id (service_of (L := example_library) k') example_db).1).
Proof.
  intros ser m m' d'.
  assert (E1 : (Create m ser example_db).1 = Ok m') by (vm_compute; reflexivity).
  assert (E : Create m ser example_db = (Ok m', d')) by exact (run_eq _ _ E1).
  exact (conj E (Create_then_GetByID (L := example_library) KMediaRelation m m'
                   example_db d' E)).
Defined.

(** [Update] of the stored Media, read back. *)
Lemma Update_then_GetByID_witness :
  let ser := service_of (L := example_library) KMedia in
  let m := Some (EMedia (mkMedia 1 ∅ ∅ ∅ None None (mkSeason None None) None None 42)) in
  let m' := Some (EMedia (mkMedia 1 ∅ ∅ ∅ None None (mkSeason None None) None None 1)) in
  let d' := (Update m ser example_db).2 in
  Update m ser example_db = (Ok m', d')
  /\ exists e' buf,
       m' = Some e' /\ Iden m = Ok (Entity_Iden e')
       /\ Marshal ser m' = Ok buf
       /\ (GetRawByID (Entity_Iden e') (Service_Bucket ser) d').1 = Ok buf
       /\ (GetByID (Entity_Iden e') ser d').1 = Unmarshal ser buf
       /\ (forall id, is_int id -> is_int (Entity_Iden e') -> id <> Entity_Iden e' ->
             (GetByID id ser d').1 = (GetByID id ser example_db).1)
       /\ (forall k' id,
             Service_Bucket (service_of (L := example_library) k') <> Service_Bucket ser ->
             (GetByID id (service_of (L := example_library) k') d').1
             = (GetByID id (service_of (L := example_library) k') example_db).1).
Proof.
  intros ser m m' d'.
  assert (E1 : (Update m ser example_db).1 = Ok m') by (vm_compute; reflexivity).
  assert (E : Update m ser example_db = (Ok m', d')) by exact (run_eq _ _ E1).
  exact (conj E (Update_then_GetByID (L := example_library) KMedia m m' example_db d' E)).
Defined.

(** [Create] of a MediaRelation on the example database. *)
Lemma Create_succeeds_once_the_entity_is_accepted_witness :
  let ser := service_of (L := example_library) KMediaRelation in
  let m := Some (EMediaRelation example_relation) in
  let m1 := Some (EMediaRelation (mkMediaRelation 0 1 1 "sequel" 7)) in
  Clean ser m = Ok m1
  /\ (Validate ser m1 example_db).1 = Ok tt
  /\ committed example_db !! Service_Bucket ser = Some example_relation_bucket
  /\ exists e2,
       Initialize ser m1 (to_int ((sequence example_relation_bucket + 1) mod 2 ^ 64))
         = Ok (Some e2)
       /\ Entity_Iden e2 = to_int ((sequence example_relation_bucket + 1) mod 2 ^ 64)
       /\ (Create m ser example_db).1
          = let? buf := Marshal ser (Some e2) in
            if decide (MaxValueSize < Z.of_nat (length buf)) then Err ErrValueTooLarge
            else Ok (Some e2).
Proof.
  intros ser m m1.
  assert (H1 : Clean ser m = Ok m1) by (vm_compute; reflexivity).
  assert (H2 : (Validate ser m1 example_db).1 = Ok tt) by (vm_compute; reflexivity).
  assert (H3 : committed example_db !! Service_Bucket ser = Some example_relation_bucket)
    by (vm_compute; reflexivity).
  exact (conj H1 (conj H2 (conj H3
           (Create_succeeds_once_the_entity_is_accepted (L := example_library)
              KMediaRelation m m1 example_db example_relation_bucket H1 H2 H3)))).
Defined.

(** [Update] of the Media stored under identifier 1. *)
Lemma Update_outcome_once_the_entity_is_accepted_witness :
  let ser := service_of (L := example_library) KMedia in
  let m := Some (EMedia (mkMedia 1 ∅ ∅ ∅ None None (mkSeason None None) None None 42)) in
  let v := put_ints [1; 0] in
  Clean ser m = Ok m
  /\ (Validate ser m example_db).1 = Ok tt
  /\ committed example_db !! Service_Bucket ser = Some example_media_bucket
  /\ Iden m = Ok 1
  /\ kv example_media_bucket !! itob 1 = Some v
  /\ (forall e, Unmarshal ser v = Err e -> (Update m ser example_db).1 = Err e)
  /\ (forall o, Unmarshal ser v = Ok o ->
        exists e2,
          PersistOldProperties ser m o = Ok (Some e2)
          /\ Entity_Iden e2 = 1
          /\ (Update m ser example_db).1
             = let? buf := Marshal ser (Some e2) in
               if decide (MaxValueSize < Z.of_nat (length buf)) then Err ErrValueTooLarge
               else Ok (Some e2)).
Proof.
  intros ser m v.
  assert (H1 : Clean ser m = Ok m) by (vm_compute; reflexivity).
  assert (H2 : (Validate ser m example_db).1 = Ok tt) by (vm_compute; reflexivity).
  assert (H3 : committed example_db !! Service_Bucket ser = Some example_media_bucket)
    by (vm_compute; reflexivity).
  assert (H4 : Iden m = Ok 1) by reflexivity.
  assert (H5 : kv example_media_bucket !! itob 1 = Some v) by (vm_compute; reflexivity).
  exact (conj H1 (conj H2 (conj H3 (conj H4 (conj H5
           (Update_outcome_once_the_entity_is_accepted (L := example_library)
              KMedia m m example_db example_media_bucket 1 v H1 H2 H3 H4 H5)))))).
Defined.

(** The second Media of the example database gets identifier 2. *)
Lemma Create_identifier_follows_the_sequence_witness :
  let ser := service_of (L := example_library) KMedia in
  let m := Some (EMedia example_media) in
  let m' := Some (EMedia (mkMedia 2 {[ "en"%string := "Show A"%string ]} ∅ ∅ None None
                            (mkSeason None None) None None 0)) in
  let d' := (Create m ser example_db).2 in
  committed example_db !! Service_Bucket ser = Some example_media_bucket
  /\ 0 <= sequence example_media_bucket < 2 ^ 64
  /\ sequence example_media_bucket = 1
  /\ Create m ser example_db = (Ok m', d')
  /\ exists e' bd',
       m' = Some e'
       /\ committed d' !! Service_Bucket ser = Some bd'
       /\ sequence bd' = (sequence example_media_bucket + 1) mod 2 ^ 64.
Proof.
  intros ser m m' d'.
  assert (H1 : committed example_db !! Service_Bucket ser = Some example_media_bucket)
    by (vm_compute; reflexivity).
  assert (H0 : sequence example_media_bucket = 1) by (vm_compute; reflexivity).
  assert (H2 : 0 <= sequence example_media_bucket < 2 ^ 64) by (rewrite H0; lia).
  assert (H31 : (Create m ser example_db).1 = Ok m') by (vm_compute; reflexivity).
  assert (H3 : Create m ser example_db = (Ok m', d')) by exact (run_eq _ _ H31).
  refine (conj H1 (conj H2 (conj H0 (conj H3 _)))).
  destruct (Create_identifier_follows_the_sequence (L := example_library) KMedia m m'
              example_db d' example_media_bucket H1 H2 H3)
    as (e' & bd' & He & Hbd' & Hs & _).
  exact (ex_intro _ e' (ex_intro _ bd' (conj He (conj Hbd' Hs)))).
Defined.

Lemma example_single_db_within n : 0 <= n < 2 ^ 64 -> within n example_single_db.
Proof.
  intros Hn name bd H. unfold example_single_db in H. simpl in H.
  apply lookup_singleton_Some in H as [_ <-].
  split; [split; [simpl; lia|] | simpl; lia].
  intros key v Hv. simpl in Hv. by rewrite lookup_empty in Hv.
Qed.

(** After one [Create] and the [Delete] of what it stored, the next
    [Create] takes identifier 2, which no earlier state held a value for. *)
Lemma Create_identifier_was_never_in_use_witness :
  let ser := service_of (L := example_library) KMedia in
  let m := Some (EMedia example_media) in
  let m' : Model (O := example_opaque) := Some (EMedia (mkMedia 2 {[ "en"%string := "Show A"%string ]} ∅ ∅ None None
                            (mkSeason None None) None None 0)) in
  let ops1 := [OpCreate (O := example_opaque) KMedia m] in
  let ops2 := [OpDelete (O := example_opaque) KMedia 1] in
  let d := run (L := example_library) (ops1 ++ ops2) example_single_db in
  within (1 + Z.of_nat (length (ops1 ++ ops2))) example_single_db
  /\ Create m ser d = (Ok m', (Create m ser d).2)
  /\ exists e' buf,
       m' = Some e' /\ Entity_Version e' = 0
       /\ Marshal ser m' = Ok buf
       /\ stored (Create m ser d).2 (Service_Bucket ser) (Entity_Iden e') = Some buf
       /\ stored (run (L := example_library) ops1 example_single_db) (Service_Bucket ser) (Entity_Iden e') = None.
Proof.
  intros ser m m' ops1 ops2 d.
  assert (H1 : within (1 + Z.of_nat (length (ops1 ++ ops2))) example_single_db)
    by (apply example_single_db_within; simpl; lia).
  assert (H21 : (Create m ser d).1 = Ok m') by (vm_compute; reflexivity).
  assert (H2 : Create m ser d = (Ok m', (Create m ser d).2)) by exact (run_eq _ _ H21).
  exact (conj H1 (conj H2
           (Create_identifier_was_never_in_use (L := example_library) ops1 ops2
              example_single_db KMedia m m' (Create m ser d).2 H1 H2))).
Defined.

(** ** The bucket [ConnectDatabase] leaves out, and references after [Delete] *)

Section references.
Context {O : Opaque} {L : Library}.

Lemma UserMediaService_Clean_lists m um1 :
  UserMediaService_Clean m = Ok (Some (EUserMedia um1)) ->
  exists um, m = Some (EUserMedia um)
    /\ UserMedia_UserMediaListIDs um1 = UserMedia_UserMediaListIDs um.
Proof.
  destruct m as [[| | |um]|]; try discriminate. cbn.
  destruct (infoListClean (UserMedia_Comments um)) as [? [?|]]; cbn; try discriminate.
  destruct (WatchedInstances_Clean (UserMedia_WatchedInstances um)); cbn; try discriminate.
  intros [= <-]. by exists um.
Qed.

Lemma UserMediaService_Clean_typed m m1 :
  UserMediaService_Clean m = Ok m1 -> exists um1, m1 = Some (EUserMedia um1).
Proof.
  destruct m as [[| | |um]|]; try discriminate. cbn.
  destruct (infoListClean (UserMedia_Comments um)) as [? [?|]]; cbn; try discriminate.
  destruct (WatchedInstances_Clean (UserMedia_WatchedInstances um)); cbn; try discriminate.
  intros [= <-]. eauto.
Qed.

Lemma UserMediaService_Validate_no_list_bucket um d :
  committed d !! UserMediaListBucket = None ->
  UserMedia_UserMediaListIDs um <> [] ->
  is_Ok (UserMediaService_Validate (Some (EUserMedia um)) d).1 = false
  /\ (is_Some (stored d UserBucket (UserMedia_UserID um)) ->
      is_Some (stored d MediaBucket (UserMedia_MediaID um)) ->
      (UserMediaService_Validate (Some (EUserMedia um)) d).1 = Err ErrBucketNil).
Proof.
  intros Hnone Hne. rewrite UserMediaService_Validate_result.
  destruct (UserMedia_UserMediaListIDs um) as [|id ids]; [done|]. simpl.
  rewrite (GetRawByID_result id UserMediaListBucket), Hnone. simpl.
  rewrite !GetRawByID_result. unfold stored. split.
  - destruct (committed d !! UserBucket) as [ub|]; simpl; [|done].
    destruct (kv ub !! itob (UserMedia_UserID um)); simpl; [|done].
    destruct (committed d !! MediaBucket) as [mb|]; simpl; [|done].
    by destruct (kv mb !! itob (UserMedia_MediaID um)).
  - destruct (committed d !! UserBucket) as [ub|]; simpl; [|by intros [? [=]]].
    destruct (kv ub !! itob (UserMedia_UserID um)); simpl; [|by intros [? [=]]].
    destruct (committed d !! MediaBucket) as [mb|]; simpl; [|by intros _ [? [=]]].
    destruct (kv mb !! itob (UserMedia_MediaID um)); simpl; [done | by intros _ [? [=]]].
Qed.

(** X24.  [Buckets] does not name the UserMediaList bucket, so
    [ConnectDatabase] does not create it: on a database that had none,
    [Validate] of UserMediaService refuses every UserMedia that names a
    list after [ConnectDatabase] (with the nil-bucket error once its User
    and Media are found), and so [Create] and [Update] of such a UserMedia
    fail. *)
Theorem UserMedia_with_lists_is_refused_after_bootstrap (d : DB) (um : UserMedia) :
  committed d !! UserMediaListBucket = None ->
  UserMedia_UserMediaListIDs um <> [] ->
  let d' := (ConnectDatabase_create d).2 in
  committed d' !! UserMediaListBucket = None
  /\ is_Ok (UserMediaService_Validate (Some (EUserMedia um)) d').1 = false
  /\ (is_Some (stored d' UserBucket (UserMedia_UserID um)) ->
      is_Some (stored d' MediaBucket (UserMedia_MediaID um)) ->
      (UserMediaService_Validate (Some (EUserMedia um)) d').1 = Err ErrBucketNil)
  /\ is_Ok (Create (Some (EUserMedia um)) UserMediaService d').1 = false
  /\ is_Ok (Update (Some (EUserMedia um)) UserMediaService d').1 = false.
Proof.
  intros Hnone Hne d'.
  assert (Hnone' : committed d' !! UserMediaListBucket = None).
  { destruct (ConnectDatabase_create_result d) as (d1 & E1 & H1).
    subst d'. rewrite E1. simpl. rewrite H1, Hnone. reflexivity. }
  split; [done|].
  destruct (UserMediaService_Validate_no_list_bucket um d' Hnone' Hne) as [V1 V2].
  split; [done|]. split; [done|].
  assert (Hg : forall A (fn : Model -> M TxState A),
            is_Ok (guarded UserMediaService fn (Some (EUserMedia um)) d').1 = false).
  { intros A fn. unfold guarded, bindM at 1. unfold lift at 1.
    destruct (Clean UserMediaService (Some (EUserMedia um))) as [m1| |] eqn:Hc; try done.
    simpl in Hc. destruct (UserMediaService_Clean_typed _ _ Hc) as (um1 & ->).
    destruct (UserMediaService_Clean_lists _ _ Hc) as (um0 & [= <-] & Hl).
    assert (Hne1 : UserMedia_UserMediaListIDs um1 <> []) by by rewrite Hl.
    destruct (UserMediaService_Validate_no_list_bucket um1 d' Hnone' Hne1) as [V _].
    unfold bindM. simpl Validate.
    destruct (UserMediaService_Validate (Some (EUserMedia um1)) d') as [[u|e|] dv];
      simpl in *; done. }
  split; [apply (Hg _ (Create_body UserMediaService)) | apply (Hg _ (Update_body UserMediaService))].
Qed.

(** X25.  [Delete] of a Media succeeds without a look at the
    MediaRelations that name it, and leaves them stored as they were.
    Afterwards [Validate] refuses every MediaRelation whose OwnerID or
    RelatedID is the deleted identifier, so no [Update] of such a relation
    succeeds. *)
Theorem Delete_leaves_the_references_dangling
    (d : DB) (id : int) (mb : BucketData) (mr : MediaRelation) :
  committed d !! MediaBucket = Some mb ->
  MediaRelation_OwnerID mr = id \/ MediaRelation_RelatedID mr = id ->
  let d' := (Delete id MediaService d).2 in
  (Delete id MediaService d).1 = Ok tt
  /\ (forall rid, (GetByID rid MediaRelationService d').1
                  = (GetByID rid MediaRelationService d).1)
  /\ is_Ok (MediaRelationService_Validate (Some (EMediaRelation mr)) d').1 = false
  /\ is_Ok (Update (Some (EMediaRelation mr)) MediaRelationService d').1 = false.
Proof.
  intros Hmb Href d'.
  destruct (Delete_bucket_present id MediaService d mb Hmb) as (d1 & E & C).
  subst d'. rewrite E. simpl in *. split; [done|].
  assert (Hgone : stored d1 MediaBucket id = None).
  { unfold stored. rewrite C, lookup_insert_eq. simpl. apply lookup_delete_eq. }
  split.
  - intros rid. rewrite !GetByID_result, !GetRawByID_result, C.
    rewrite lookup_insert_ne; [done | discriminate].
  - assert (V : forall rel,
              is_Ok (MediaRelationService_Validate
                       (Some (EMediaRelation
                          (mkMediaRelation (MediaRelation_ID mr) (MediaRelation_OwnerID mr)
                             (MediaRelation_RelatedID mr) rel (MediaRelation_Version mr))))
                       d1).1 = false).
    { intros rel. rewrite MediaRelationService_Validate_result, !GetRawByID_result.
      cbn [MediaRelation_OwnerID MediaRelation_RelatedID].
      unfold stored in Hgone.
      destruct (committed d1 !! MediaBucket) as [mb1|]; simpl; [|done].
      destruct Href as [<-|<-]; rewrite Hgone; simpl; [done|].
      by destruct (kv mb1 !! itob (MediaRelation_OwnerID mr)). }
    split.
    + destruct mr as [i o r rel v]. apply (V rel).
    + unfold Update, bindM at 1. unfold lift at 1. simpl Clean.
      unfold MediaRelationService_Clean. cbn [bindO MediaRelationService_assertType].
      unfold bindM. simpl Validate.
      specialize (V (strings_Trim_space (MediaRelation_Relationship mr))).
      destruct (MediaRelationService_Validate _ d1) as [[u|e|] dv]; simpl in *; done.
Qed.

End references.

(** A UserMedia naming list 7, on a database that [ConnectDatabase] has
    just set up. *)
Lemma UserMedia_with_lists_is_refused_after_bootstrap_witness :
  let um := mkUserMedia (O := example_opaque) 0 1 1 None None None None [] [] [7] 0 in
  committed (mkDB ∅ 0 []) !! UserMediaListBucket = None
  /\ UserMedia_UserMediaListIDs um <> []
  /\ is_Ok (Create (Some (EUserMedia um)) (UserMediaService (L := example_library))
              (ConnectDatabase_create (mkDB ∅ 0 [])).2).1 = false.
Proof.
  intros um.
  assert (H1 : committed (mkDB ∅ 0 []) !! UserMediaListBucket = None) by reflexivity.
  assert (H2 : UserMedia_UserMediaListIDs um <> []) by discriminate.
  exact (conj H1 (conj H2
           (proj1 (proj2 (proj2 (proj2
              (UserMedia_with_lists_is_refused_after_bootstrap (L := example_library)
                 (mkDB ∅ 0 []) um H1 H2))))))).
Defined.


(** The example database with a relation of Media 1 to itself, after the
    [Delete] of Media 1. *)
Lemma Delete_leaves_the_references_dangling_witness :
  let d1 := (Create (Some (EMediaRelation example_relation))
               (MediaRelationService (L := example_library)) example_db).2 in
  let mr := mkMediaRelation 1 1 1 "sequel" 0 in
  committed d1 !! MediaBucket = Some example_media_bucket
  /\ (MediaRelation_OwnerID mr = 1 \/ MediaRelation_RelatedID mr = 1)
  /\ (Delete 1 (MediaService (L := example_library)) d1).1 = Ok tt
  /\ is_Ok (Update (Some (EMediaRelation mr)) (MediaRelationService (L := example_library))
              (Delete 1 (MediaService (L := example_library)) d1).2).1 = false.
Proof.
  intros d1 mr.
  assert (H1 : committed d1 !! MediaBucket = Some example_media_bucket)
    by (vm_compute; reflexivity).
  assert (H2 : MediaRelation_OwnerID mr = 1 \/ MediaRelation_RelatedID mr = 1)
    by (left; reflexivity).
  pose proof (Delete_leaves_the_references_dangling (L := example_library) d1 1
                example_media_bucket mr H1 H2) as H.
  exact (conj H1 (conj H2 (conj (proj1 H) (proj2 (proj2 (proj2 H)))))).
Defined.
